(** * Hidden Character Detector: the scanning core

    A shallow embedding of [src/core/hiddenCharacters.ts] and
    [src/core/detector.ts], and the properties of the scanner
    [detectHiddenCharacters] stated in the specification.

    Conventions of the embedding:
    - a JavaScript string is the list of its UTF-16 code units ([JS.jsstring]);
    - indices, lines, columns and code points are [Z], as the source mixes
      them with the sentinel [-1];
    - [undefined] and [NaN] are [None];
    - the two [while] loops are run with fuel; the fuel given by the entry
      point is shown to be enough;
    - the two Unicode property tests (regular expressions with [\p{..}]) are
      provided by the JavaScript engine and are parameters of the scanner. *)

From Stdlib Require Import ZArith List Bool Lia String Ascii Sorted.
From Stdlib Require Import DecimalString HexadecimalString.
Import ListNotations.
Local Open Scope Z_scope.

(* ------------------------------------------------------------------------- *)
(** * The fragment of JavaScript's [String] used by the scanner *)
(* ------------------------------------------------------------------------- *)

Module JS.

(** A string is its sequence of UTF-16 code units. *)
Definition jsstring := list Z.

(** Every unit of a real string is a 16-bit value. *)
Definition isCodeUnit (u : Z) : bool := (0 <=? u) && (u <=? 0xFFFF).
Definition wellFormed (s : jsstring) : bool := forallb isCodeUnit s.

(** [s.length] *)
Definition length (s : jsstring) : Z := Z.of_nat (List.length s).

(** [s.charCodeAt(i)]; [None] stands for [NaN]. *)
Definition charCodeAt (s : jsstring) (i : Z) : option Z :=
  if i <? 0 then None else nth_error s (Z.to_nat i).

(** [s[i]]: the one-unit string at [i], or [undefined]. *)
Definition charAt (s : jsstring) (i : Z) : option jsstring :=
  option_map (fun u => [u]) (charCodeAt s i).

Definition isHighSurrogate (c : Z) : bool := (0xD800 <=? c) && (c <=? 0xDBFF).
Definition isLowSurrogate (c : Z) : bool := (0xDC00 <=? c) && (c <=? 0xDFFF).

(** [s.codePointAt(i)]: a high surrogate followed by a low surrogate is read
    as one supplementary code point, anything else as the unit itself. *)
Definition codePointAt (s : jsstring) (i : Z) : option Z :=
  match charCodeAt s i with
  | None => None
  | Some first =>
      if isHighSurrogate first then
        match charCodeAt s (i + 1) with
        | Some second =>
            if isLowSurrogate second
            then Some ((first - 0xD800) * 0x400 + (second - 0xDC00) + 0x10000)
            else Some first
        | None => Some first
        end
      else Some first
  end.

(** [String.fromCodePoint(c)] *)
Definition fromCodePoint (c : Z) : jsstring :=
  if c <=? 0xFFFF then [c]
  else [(c - 0x10000) / 0x400 + 0xD800; (c - 0x10000) mod 0x400 + 0xDC00].

(** [a === b] on strings. *)
Fixpoint string_eqb (a b : jsstring) : bool :=
  match a, b with
  | [], [] => true
  | x :: a', y :: b' => (x =? y) && string_eqb a' b'
  | _, _ => false
  end.

(** [a === b] where [a] may be [undefined]. *)
Definition opt_string_eqb (a : option jsstring) (b : jsstring) : bool :=
  match a with Some a' => string_eqb a' b | None => false end.

(** [a === n] where [a] may be [undefined]. *)
Definition opt_eqb (a : option Z) (n : Z) : bool :=
  match a with Some a' => a' =? n | None => false end.

(** [a > n] where [a] may be [undefined]. *)
Definition opt_gtb (a : option Z) (n : Z) : bool :=
  match a with Some a' => n <? a' | None => false end.

(** [lo <= a && a <= hi] where [a] may be [NaN]. *)
Definition opt_between (lo : Z) (a : option Z) (hi : Z) : bool :=
  match a with Some a' => (lo <=? a') && (a' <=? hi) | None => false end.

(** Truthiness of a [number | undefined]. *)
Definition truthy (a : option Z) : bool :=
  match a with Some a' => negb (a' =? 0) | None => false end.

(** Search for the unit [u] from index [n] down to index 0. *)
Fixpoint searchBack (s : jsstring) (u : Z) (n : nat) : Z :=
  let here := match nth_error s n with Some c => c =? u | None => false end in
  if here then Z.of_nat n
  else match n with O => -1 | S m => searchBack s u m end.

(** [s.lastIndexOf(u, fromIndex)] for a one-unit search string [u]. *)
Definition lastIndexOf (s : jsstring) (u : Z) (fromIndex : Z) : Z :=
  searchBack s u (Z.to_nat (Z.min (Z.max fromIndex 0) (length s - 1))).

(** [new Set(elems).has(key)] *)
Definition set_has (elems : list jsstring) (key : option jsstring) : bool :=
  existsb (opt_string_eqb key) elems.

(** [new Map(entries).get(key)]: a later entry replaces an earlier one with
    the same key. *)
Fixpoint map_get {V : Type} (entries : list (jsstring * V)) (key : option jsstring)
  : option V :=
  match entries with
  | [] => None
  | (k, v) :: rest =>
      match map_get rest key with
      | Some v' => Some v'
      | None => if opt_string_eqb key k then Some v else None
      end
  end.

(** [n.toString(16).toUpperCase().padStart(4, '0')] for [n >= 0]. *)
Definition upcase (a : ascii) : ascii :=
  let n := nat_of_ascii a in
  if (Nat.leb 97 n && Nat.leb n 122)%bool then ascii_of_nat (n - 32) else a.

Fixpoint toUpperCase (s : string) : string :=
  match s with
  | EmptyString => EmptyString
  | String a r => String (upcase a) (toUpperCase r)
  end.

Fixpoint zeros (n : nat) : string :=
  match n with O => EmptyString | S m => String "0"%char (zeros m) end.

Definition padStart (width : nat) (s : string) : string :=
  (zeros (width - String.length s) ++ s)%string.

Definition toHex (n : Z) : string :=
  HexadecimalString.NilZero.string_of_uint (N.to_hex_uint (Z.to_N n)).

(** [`${n}`] *)
Definition toDecimal (n : Z) : string :=
  DecimalString.NilZero.string_of_int (Z.to_int n).

End JS.

(* ------------------------------------------------------------------------- *)
(** * [hiddenCharacters.ts]: the category registry *)
(* ------------------------------------------------------------------------- *)

Module HiddenCharacters.
Import JS.

Record CharInfo := { info_category : string; info_message : string }.

(** [for (let i = lo; i <= hi; i++) list.push(String.fromCodePoint(i))] *)
Definition codePointRange (lo hi : Z) : list jsstring :=
  map (fun n => fromCodePoint (lo + Z.of_nat n)) (seq 0 (Z.to_nat (hi - lo + 1))).

Definition zeroWidthChars : list jsstring :=
  [ [0x200B]; [0x200C]; [0x200D]; [0xFEFF] ].
Definition ZERO_WIDTH_CATEGORY : string := "Zero-Width".
Definition ZERO_WIDTH_MESSAGE : string :=
  "Zero-width character; invisible but can affect text processing.".

Definition bidiControlChars : list jsstring :=
  [ [0x202A]; [0x202B]; [0x202D]; [0x202E];
    [0x2066]; [0x2067]; [0x2068]; [0x2069];
    [0x202C] ].
Definition BIDI_CONTROL_CATEGORY : string := "Bidirectional Control".
Definition BIDI_CONTROL_MESSAGE : string :=
  "Bidirectional control character; can alter text display order, potentially obfuscating logic.".

Definition tagCharsList : list jsstring := codePointRange 0xE0000 0xE007F.
Definition deprecatedTagChars : list jsstring := tagCharsList.
Definition DEPRECATED_TAG_CATEGORY : string := "Deprecated Tag".
Definition DEPRECATED_TAG_MESSAGE : string :=
  "Deprecated Unicode tag character; may be used for obfuscation.".

Definition variationSelectorsPart1 : list jsstring := codePointRange 0xFE00 0xFE0F.
Definition variationSelectorsPart2 : list jsstring := codePointRange 0xE0100 0xE01EF.
Definition variationSelectors : list jsstring :=
  variationSelectorsPart1 ++ variationSelectorsPart2.
Definition VARIATION_SELECTOR_CATEGORY : string := "Variation Selector".
Definition VARIATION_SELECTOR_MESSAGE : string :=
  "Variation selector; while sometimes legitimate, can be used in confusable character sequences.".

Definition zeroWidthInfo : CharInfo :=
  {| info_category := ZERO_WIDTH_CATEGORY; info_message := ZERO_WIDTH_MESSAGE |}.
Definition bidiControlInfo : CharInfo :=
  {| info_category := BIDI_CONTROL_CATEGORY; info_message := BIDI_CONTROL_MESSAGE |}.
Definition deprecatedTagInfo : CharInfo :=
  {| info_category := DEPRECATED_TAG_CATEGORY; info_message := DEPRECATED_TAG_MESSAGE |}.
Definition variationSelectorInfo : CharInfo :=
  {| info_category := VARIATION_SELECTOR_CATEGORY;
     info_message := VARIATION_SELECTOR_MESSAGE |}.

(** The entries handed to [new Map(...)], in the order of the source. *)
Definition allHiddenChars : list (jsstring * CharInfo) :=
  map (fun char => (char, zeroWidthInfo)) zeroWidthChars
  ++ map (fun char => (char, bidiControlInfo)) bidiControlChars
  ++ map (fun char => (char, deprecatedTagInfo)) deprecatedTagChars
  ++ map (fun char => (char, variationSelectorInfo)) variationSelectors.

End HiddenCharacters.

(* ------------------------------------------------------------------------- *)
(** * [detector.ts]: the scanner *)
(* ------------------------------------------------------------------------- *)

Module Detector.
Import JS HiddenCharacters.

(** [types.ts]: one finding. The three [end*] fields are optional. *)
Record HiddenCharacterInfo := {
  character : string;
  codePoint : Z;
  index : Z;
  line : Z;
  column : Z;
  category : string;
  message : string;
  endIndex : option Z;
  endLine : option Z;
  endColumn : option Z
}.

Definition BINARY_ENCODING_CHARS : list jsstring :=
  [ [0x200B]; [0x200C]; [0x200D]; [0xFEFF]; [0x2062]; [0x2064] ].

Definition MIN_PATTERN_LENGTH : Z := 8.

Definition PATTERN_CATEGORY : string := "BinaryEncodingPattern".

Definition isDefined (a : option Z) : bool :=
  match a with Some _ => true | None => false end.

(** The locals of the inner [while] loop. *)
Record PatternState := {
  patternI : Z;
  currentPatternLine : Z;
  currentPatternLineStartIndex : Z;
  patternLength : Z;
  patternEndIndex : Z;
  patternEndLine : Z;
  patternEndColumn : Z
}.

(** The inner loop (source lines 50-75); leaving the [match] on fuel by the
    two inner [else] branches is the loop condition failing and the [break]. *)
Fixpoint patternLoop (text : jsstring) (fuel : nat) (p : PatternState) : PatternState :=
  match fuel with
  | O => p
  | S fuel' =>
      if patternI p <? length text then
        let patternChar := charAt text (patternI p) in
        let patternCodePoint := codePointAt text (patternI p) in
        let isPatternSurrogate := opt_gtb patternCodePoint 0xFFFF in
        let patternCharToCheck :=
          if isPatternSurrogate then option_map fromCodePoint patternCodePoint
          else patternChar in
        if isDefined patternCodePoint && set_has BINARY_ENCODING_CHARS patternCharToCheck
        then
          let isNewline := opt_string_eqb patternChar [0x0A] in
          patternLoop text fuel'
            {| patternI := (if isPatternSurrogate then patternI p + 1 else patternI p) + 1;
               currentPatternLine :=
                 if isNewline then currentPatternLine p + 1 else currentPatternLine p;
               currentPatternLineStartIndex :=
                 if isNewline then patternI p + 1 else currentPatternLineStartIndex p;
               patternLength := patternLength p + 1;
               patternEndIndex := patternI p;
               patternEndLine := currentPatternLine p;
               patternEndColumn := patternI p - currentPatternLineStartIndex p |}
        else p
      else p
  end.

(** The helper of source lines 139-166. (The helper [getCodePoint] of lines
    114-135 is never called and is not embedded.) *)
Definition getPreviousBaseCharStartIndex (txt : jsstring) (index : Z) : Z :=
  if index <=? 0 then -1
  else
    let relevantIndex := index - 1 in
    let isVS := (0 <=? relevantIndex) && opt_eqb (codePointAt txt relevantIndex) 0xFE0F in
    let relevantIndex' := if isVS then relevantIndex - 1 else relevantIndex in
    if isVS && (relevantIndex' <? 0) then -1
    else
      let charCode := charCodeAt txt relevantIndex' in
      if opt_between 0xDC00 charCode 0xDFFF && (0 <? relevantIndex')
         && opt_between 0xD800 (charCodeAt txt (relevantIndex' - 1)) 0xDBFF
      then relevantIndex' - 1
      else relevantIndex'.

(** The state of the outer [while] loop. *)
Record ScanState := {
  s_results : list HiddenCharacterInfo;
  s_line : Z;
  s_currentLineStartIndex : Z;
  s_i : Z
}.

Definition initialState : ScanState :=
  {| s_results := []; s_line := 1; s_currentLineStartIndex := 0; s_i := 0 |}.

Section Scanner.

(** [/\p{C}|\p{Z}/u.test(String.fromCodePoint(c))] *)
Variable isControlOrSeparator : Z -> bool.
(** [/\p{Emoji}|\p{Emoji_Modifier_Base}/u.test(String.fromCodePoint(c))] *)
Variable isEmojiComponent : Z -> bool.

Definition testControlOrSeparator (c : option Z) : bool :=
  match c with Some c' => isControlOrSeparator c' | None => false end.
Definition testEmojiComponent (c : option Z) : bool :=
  match c with Some c' => isEmojiComponent c' | None => false end.

(** Source lines 169-177: the value of [skipDiagnostic] for a VS16. *)
Definition skipVS16 (text : jsstring) (startIndex : Z) : bool :=
  let prevBaseCharIndex := getPreviousBaseCharStartIndex text startIndex in
  if negb (prevBaseCharIndex =? -1) then
    let prevCodePoint := codePointAt text prevBaseCharIndex in
    if truthy prevCodePoint then negb (testControlOrSeparator prevCodePoint)
    else false
  else false.

(** Source lines 178-201: the value of [skipDiagnostic] for a ZWJ. *)
Definition skipZWJ (text : jsstring) (startIndex : Z) : bool :=
  let prevBaseCharIndex := getPreviousBaseCharStartIndex text startIndex in
  let prevCodePoint :=
    if negb (prevBaseCharIndex =? -1) then codePointAt text prevBaseCharIndex
    else None in
  let precededByEmojiComponent :=
    if truthy prevCodePoint then testEmojiComponent prevCodePoint else false in
  let nextCharIndex := startIndex + 1 in
  let nextCodePoint :=
    if nextCharIndex <? length text then codePointAt text nextCharIndex else None in
  let succeededByPotentialComponent :=
    if truthy nextCodePoint
    then opt_eqb nextCodePoint 0xFE0F || negb (testControlOrSeparator nextCodePoint)
    else false in
  precededByEmojiComponent && succeededByPotentialComponent.

Definition patternFinding (startIndex startLine startColumn : Z) (p : PatternState)
  : HiddenCharacterInfo :=
  {| character := "[Binary Pattern (" ++ toDecimal (patternLength p) ++ " chars)]";
     codePoint := -1;
     index := startIndex;
     line := startLine;
     column := startColumn;
     endIndex := Some (patternEndIndex p);
     endLine := Some (patternEndLine p);
     endColumn := Some (patternEndColumn p);
     category := PATTERN_CATEGORY;
     message := "Potential binary encoding detected using a sequence of "
                ++ toDecimal (patternLength p) ++ " zero-width characters." |}%string.

Definition singleFinding (startCodePoint startIndex startLine startColumn : Z)
                         (hiddenInfo : CharInfo) : HiddenCharacterInfo :=
  {| character := "U+" ++ padStart 4 (toUpperCase (toHex startCodePoint));
     codePoint := startCodePoint;
     index := startIndex;
     line := startLine;
     column := startColumn;
     category := info_category hiddenInfo;
     message := info_message hiddenInfo;
     endIndex := None;
     endLine := None;
     endColumn := None |}%string.

(** The run detected at the cursor (source lines 40-76). *)
Definition detectPattern (text : jsstring) (st : ScanState) : PatternState :=
  let i := s_i st in
  let startChar := charAt text i in
  let startCodePoint := codePointAt text i in
  let isStartSurrogate := opt_gtb startCodePoint 0xFFFF in
  let startCharToCheck :=
    if isStartSurrogate then option_map fromCodePoint startCodePoint else startChar in
  let p0 := {| patternI := i;
               currentPatternLine := s_line st;
               currentPatternLineStartIndex := s_currentLineStartIndex st;
               patternLength := 0;
               patternEndIndex := -1;
               patternEndLine := -1;
               patternEndColumn := -1 |} in
  if isDefined startCodePoint && set_has BINARY_ENCODING_CHARS startCharToCheck
  then patternLoop text (List.length text) p0
  else p0.

(** The findings pushed by the single-character branch (source lines 105-229). *)
Definition singleCharacter (text : jsstring) (st : ScanState) : list HiddenCharacterInfo :=
  let i := s_i st in
  let startIndex := i in
  let startLine := s_line st in
  let startColumn := i - s_currentLineStartIndex st in
  let startChar := charAt text i in
  let startCodePoint := codePointAt text i in
  let isStartSurrogate := opt_gtb startCodePoint 0xFFFF in
  let startCharToCheck :=
    if isStartSurrogate then option_map fromCodePoint startCodePoint else startChar in
  match map_get allHiddenChars startCharToCheck, startCodePoint with
  | Some hiddenInfo, Some cp =>
      let isVS16 := cp =? 0xFE0F in
      let isZWJ := cp =? 0x200D in
      let skipDiagnostic :=
        if isVS16 then skipVS16 text startIndex
        else if isZWJ then skipZWJ text startIndex
        else false in
      if negb skipDiagnostic
      then [singleFinding cp startIndex startLine startColumn hiddenInfo]
      else []
  | _, _ => []
  end.

(** One iteration of the outer loop (source lines 31-248). *)
Definition step (text : jsstring) (st : ScanState) : ScanState :=
  let i := s_i st in
  let startIndex := i in
  let startLine := s_line st in
  let startColumn := i - s_currentLineStartIndex st in
  let startChar := charAt text i in
  let startCodePoint := codePointAt text i in
  let isStartSurrogate := opt_gtb startCodePoint 0xFFFF in
  let p := detectPattern text st in
  if (MIN_PATTERN_LENGTH <=? patternLength p) && isDefined startCodePoint then
    {| s_results := s_results st ++ [patternFinding startIndex startLine startColumn p];
       s_i := i + patternLength p;
       s_line := patternEndLine p;
       s_currentLineStartIndex :=
         let found := lastIndexOf text 0x0A (patternEndIndex p) in
         if found =? -1 then 0 else found + 1 |}
  else
    let isNewline := opt_string_eqb startChar [0x0A] in
    {| s_results := s_results st ++ singleCharacter text st;
       s_line := if isNewline then s_line st + 1 else s_line st;
       s_currentLineStartIndex :=
         if isNewline then i + 1 else s_currentLineStartIndex st;
       s_i := (if isStartSurrogate then i + 1 else i) + 1 |}.

(** The outer loop (source lines 30-249). *)
Fixpoint loop (text : jsstring) (fuel : nat) (st : ScanState) : ScanState :=
  match fuel with
  | O => st
  | S fuel' => if s_i st <? length text then loop text fuel' (step text st) else st
  end.

Definition detectHiddenCharacters (text : jsstring) : list HiddenCharacterInfo :=
  s_results (loop text (List.length text) initialState).

End Scanner.

End Detector.

(* ------------------------------------------------------------------------- *)
(** * A fragment of the Unicode Character Database

    The engine's property tables are parameters of the scanner. To run it on
    concrete texts the two tests are instantiated with the tables below, which
    list the assigned code points of general categories C and Z of Unicode 15
    (the engine's [\p{C}] also matches the unassigned code points and the
    noncharacters, which are left out) and a part of the code points with
    the Emoji property. The tables are used on sample texts only, at code
    points where they agree with the engine; the theorems are stated for
    arbitrary tables. *)
(* ------------------------------------------------------------------------- *)

Module UCD.

Definition inRanges (ranges : list (Z * Z)) (c : Z) : bool :=
  existsb (fun r => (fst r <=? c) && (c <=? snd r)) ranges.

Definition controlOrSeparatorRanges : list (Z * Z) :=
  [ (0x0000, 0x001F); (0x007F, 0x009F);                      (* Cc *)
    (0x0020, 0x0020); (0x00A0, 0x00A0); (0x1680, 0x1680);    (* Zs *)
    (0x2000, 0x200A); (0x202F, 0x202F); (0x205F, 0x205F); (0x3000, 0x3000);
    (0x2028, 0x2029);                                        (* Zl, Zp *)
    (0x00AD, 0x00AD); (0x0600, 0x0605); (0x061C, 0x061C);    (* Cf *)
    (0x06DD, 0x06DD); (0x070F, 0x070F); (0x0890, 0x0891);
    (0x08E2, 0x08E2); (0x180E, 0x180E);
    (0x200B, 0x200F); (0x202A, 0x202E); (0x2060, 0x2064);
    (0x2066, 0x206F); (0xFEFF, 0xFEFF); (0xFFF9, 0xFFFB);
    (0x110BD, 0x110BD); (0x110CD, 0x110CD); (0x13430, 0x1343F);
    (0x1BCA0, 0x1BCA3); (0x1D173, 0x1D17A);
    (0xE0001, 0xE0001); (0xE0020, 0xE007F);
    (0xD800, 0xDFFF);                                        (* Cs *)
    (0xE000, 0xF8FF); (0xF0000, 0xFFFFD); (0x100000, 0x10FFFD) (* Co *) ].

Definition emojiRanges : list (Z * Z) :=
  [ (0x0023, 0x0023); (0x002A, 0x002A); (0x0030, 0x0039);    (* # * 0-9 *)
    (0x00A9, 0x00A9); (0x00AE, 0x00AE);
    (0x2764, 0x2764);                                        (* heavy black heart *)
    (0x1F466, 0x1F469);                                      (* boy, girl, man, woman *)
    (0x1F600, 0x1F64F) ].                                    (* emoticons *)

Definition isControlOrSeparator : Z -> bool := inRanges controlOrSeparatorRanges.
Definition isEmojiComponent : Z -> bool := inRanges emojiRanges.

(** The scanner with these tables. *)
Definition scan : JS.jsstring -> list Detector.HiddenCharacterInfo :=
  Detector.detectHiddenCharacters isControlOrSeparator isEmojiComponent.

End UCD.

(* ------------------------------------------------------------------------- *)
(** * [ui/decorations.ts] and [extension.ts]: what the editor is given

    Only the values computed from the findings are embedded: the options
    handed to [editor.setDecorations] and the diagnostics handed to
    [diagnosticCollection.set]. A [vscode.Range] is the four arguments of its
    constructor call. Logging is left out. The category and message strings
    are ASCII.

    The numbers of a finding are JavaScript numbers, that is IEEE doubles;
    here they are integers, and [- 1] and [+ 1] are the integer operations.
    The two agree on the safe integers (absolute value below 2^53), which is
    where every number of a finding of the scanner lies; [safeCoordinates]
    says so of a finding of any origin. *)
(* ------------------------------------------------------------------------- *)

Module Editor.
Import JS Detector.

(** [new vscode.Range(startLine, startCharacter, endLine, endCharacter)] *)
Record Range := {
  startLine : Z;
  startCharacter : Z;
  stopLine : Z;
  stopCharacter : Z
}.

(** [vscode.DecorationOptions] *)
Record DecorationOptions := {
  range : Range;
  hoverMessage : option string
}.

Definition newline : string := String (ascii_of_nat 10) EmptyString.

(** [info.codePoint > 0 ? ` (${info.character} / U+${hex})` : ` (${info.character})`] *)
Definition charDisplay (info : HiddenCharacterInfo) : string :=
  if 0 <? codePoint info
  then (" (" ++ character info ++ " / U+" ++ toUpperCase (toHex (codePoint info)) ++ ")")%string
  else (" (" ++ character info ++ ")")%string.

(** [uniqueLines.add(l)] on a [Set<number>], which keeps insertion order. *)
Definition setAdd (s : list Z) (l : Z) : list Z :=
  if existsb (Z.eqb l) s then s else s ++ [l].

(** The values of [l] in [for (let l = first; l <= last; l++)]. *)
Definition linesFromTo (first last : Z) : list Z :=
  map (fun n => first + Z.of_nat n) (seq 0 (Z.to_nat (last - first + 1))).

(** The range and hover message of one finding in [applyDecorations]
    (decorations.ts 70-102); [None] is [continue]. *)
Definition highlightOf (info : HiddenCharacterInfo) : option DecorationOptions :=
  let lineZeroBased := line info - 1 in
  let columnZeroBased := column info in
  if (lineZeroBased <? 0) || (columnZeroBased <? 0) then None
  else
    match endLine info, endColumn info with
    | Some infoEndLine, Some infoEndColumn =>
        let endLineZeroBased := infoEndLine - 1 in
        let endColumnZeroBased := infoEndColumn in
        if (endLineZeroBased <? lineZeroBased)
           || ((endLineZeroBased =? lineZeroBased)
               && (endColumnZeroBased <? columnZeroBased))
        then None
        else Some {| range := {| startLine := lineZeroBased;
                                 startCharacter := columnZeroBased;
                                 stopLine := endLineZeroBased;
                                 stopCharacter := endColumnZeroBased + 1 |};
                     hoverMessage :=
                       Some ("Hidden Pattern: " ++ category info ++ newline
                             ++ message info)%string |}
    | _, _ =>
        Some {| range := {| startLine := lineZeroBased;
                            startCharacter := columnZeroBased;
                            stopLine := lineZeroBased;
                            stopCharacter := columnZeroBased + 1 |};
                hoverMessage :=
                  Some ("Hidden Character: " ++ category info ++ charDisplay info
                        ++ newline ++ message info)%string |}
    end.

(** The gutter lines of one highlighted finding (decorations.ts 106-115). *)
Definition addGutterLines (uniqueLines : list Z) (info : HiddenCharacterInfo) : list Z :=
  let lineZeroBased := line info - 1 in
  match endLine info with
  | Some infoEndLine =>
      fold_left setAdd (linesFromTo lineZeroBased (infoEndLine - 1)) uniqueLines
  | None => setAdd uniqueLines lineZeroBased
  end.

(** One iteration of the loop over the findings (decorations.ts 69-116). *)
Definition decorateOne (acc : list DecorationOptions * list Z) (info : HiddenCharacterInfo)
  : list DecorationOptions * list Z :=
  match highlightOf info with
  | None => acc
  | Some options => (fst acc ++ [options], addGutterLines (snd acc) info)
  end.

Definition gutterOf (l : Z) : DecorationOptions :=
  {| range := {| startLine := l; startCharacter := 0; stopLine := l; stopCharacter := 0 |};
     hoverMessage := None |}.

(** [applyDecorations] (decorations.ts 59-130): the options given to
    [setDecorations] for the highlight type and for the gutter type, or
    [None] when the decoration types are not initialized and nothing is set. *)
Definition applyDecorations (initialized : bool) (hiddenCharacters : list HiddenCharacterInfo)
  : option (list DecorationOptions * list DecorationOptions) :=
  if negb initialized then None
  else
    let '(highlightOptions, uniqueLines) := fold_left decorateOne hiddenCharacters ([], []) in
    Some (highlightOptions, map gutterOf uniqueLines).

(** [s.toLowerCase()] on ASCII. *)
Definition downcase (a : ascii) : ascii :=
  let n := nat_of_ascii a in
  if (Nat.leb 65 n && Nat.leb n 90)%bool then ascii_of_nat (n + 32) else a.

Fixpoint toLowerCase (s : string) : string :=
  match s with
  | EmptyString => EmptyString
  | String a r => String (downcase a) (toLowerCase r)
  end.

(** [\s] on ASCII: tab, line feed, vertical tab, form feed, carriage return,
    space. *)
Definition isWhitespace (a : ascii) : bool :=
  let n := nat_of_ascii a in
  ((Nat.leb 9 n && Nat.leb n 13) || Nat.eqb n 32)%bool.

(** [s.replace(/\s+/g, '-')]; [inRun] tells that the previous character was
    whitespace. *)
Fixpoint dashWhitespace (inRun : bool) (s : string) : string :=
  match s with
  | EmptyString => EmptyString
  | String a r =>
      if isWhitespace a
      then if inRun then dashWhitespace true r else String "-"%char (dashWhitespace true r)
      else String a (dashWhitespace false r)
  end.

Inductive DiagnosticSeverity := Error | Warning | Information | Hint.

(** [vscode.Diagnostic] *)
Record Diagnostic := {
  d_range : Range;
  d_message : string;
  d_severity : DiagnosticSeverity;
  d_source : string;
  d_code : string
}.

(** The function mapped over the results in [updateDiagnostics]
    (extension.ts 70-119). *)
Definition diagnosticOf (info : HiddenCharacterInfo) : Diagnostic :=
  let line := Detector.line info - 1 in
  let column := Detector.column info in
  let '(range, message) :=
    match endLine info, endColumn info with
    | Some infoEndLine, Some infoEndColumn =>
        let endLine := infoEndLine - 1 in
        let endColumn := infoEndColumn in
        if (line <? 0) || (column <? 0) || (endLine <? line)
           || ((endLine =? line) && (endColumn <? column))
        then ({| startLine := Z.max 0 line; startCharacter := Z.max 0 column;
                 stopLine := Z.max 0 line; stopCharacter := Z.max 0 (column + 1) |},
              ("Hidden Pattern: " ++ category info
               ++ " - Invalid range detected (Start: L" ++ toDecimal (Detector.line info)
               ++ "C" ++ toDecimal (Detector.column info)
               ++ ", End: L" ++ toDecimal infoEndLine ++ "C" ++ toDecimal infoEndColumn
               ++ "). " ++ Detector.message info)%string)
        else ({| startLine := line; startCharacter := column;
                 stopLine := endLine; stopCharacter := endColumn + 1 |},
              ("Hidden Pattern: " ++ category info ++ " - " ++ Detector.message info)%string)
    | _, _ =>
        if (line <? 0) || (column <? 0)
        then ({| startLine := Z.max 0 line; startCharacter := Z.max 0 column;
                 stopLine := Z.max 0 line; stopCharacter := Z.max 0 (column + 1) |},
              ("Hidden Character: " ++ category info
               ++ " - Invalid range detected (L" ++ toDecimal (Detector.line info)
               ++ "C" ++ toDecimal (Detector.column info) ++ "). "
               ++ Detector.message info)%string)
        else ({| startLine := line; startCharacter := column;
                 stopLine := line; stopCharacter := column + 1 |},
              ("Hidden Character: " ++ category info ++ charDisplay info ++ " - "
               ++ Detector.message info)%string)
    end in
  {| d_range := range;
     d_message := message;
     d_severity := Warning;
     d_source := "Hidden Character Detector";
     d_code := ("hidden-" ++ dashWhitespace false (toLowerCase (category info))
                ++ match endLine info with Some _ => "-pattern" | None => "" end)%string |}.

(** [updateDiagnostics] (extension.ts 65-124): the diagnostics set for the
    document. *)
Definition updateDiagnostics (results : list HiddenCharacterInfo) : list Diagnostic :=
  map diagnosticOf results.



(** A range whose start has no negative coordinate and lies strictly before
    its end. *)
Definition properRange (r : Range) : Prop :=
  0 <= startLine r /\ 0 <= startCharacter r /\
  (startLine r < stopLine r \/
   (startLine r = stopLine r /\ startCharacter r < stopCharacter r)).

(** A range whose start has no negative coordinate and whose end is not
    before its start. *)
Definition orderedRange (r : Range) : Prop :=
  0 <= startLine r /\ 0 <= startCharacter r /\
  (startLine r < stopLine r \/
   (startLine r = stopLine r /\ startCharacter r <= stopCharacter r)).

(** The range of a finding of the scanner: on its line, from its column, as
    wide as the finding. *)
Definition rangeOfFinding (f : HiddenCharacterInfo) : Range :=
  {| startLine := line f - 1;
     startCharacter := column f;
     stopLine := line f - 1;
     stopCharacter := column f + match endIndex f with
                                 | Some e => e - index f + 1
                                 | None => 1
                                 end |}.

(** The message of the diagnostic of a finding of the scanner, with no
    mention of an invalid range. *)
Definition messageOfFinding (f : HiddenCharacterInfo) : string :=
  match endIndex f with
  | Some _ => ("Hidden Pattern: " ++ category f ++ " - " ++ message f)%string
  | None =>
      ("Hidden Character: " ++ category f
       ++ (" (" ++ character f ++ " / U+" ++ toUpperCase (toHex (codePoint f)) ++ ")")
       ++ " - " ++ message f)%string
  end.

(** The highlights of the findings that pass the checks, in order. *)
Definition highlightsOf (l : list HiddenCharacterInfo) : list DecorationOptions :=
  flat_map (fun info => match highlightOf info with Some o => [o] | None => [] end) l.

(** The last zero-based line on which a finding gets a gutter icon. *)
Definition lastGutterLine (info : HiddenCharacterInfo) : Z :=
  match endLine info with Some infoEndLine => infoEndLine - 1 | None => line info - 1 end.

(** The diagnostic codes of the five categories. *)
Definition diagnosticCodes : list string :=
  [ "hidden-zero-width"; "hidden-bidirectional-control"; "hidden-deprecated-tag";
    "hidden-variation-selector"; "hidden-binaryencodingpattern-pattern" ]%string.

End Editor.

Import JS HiddenCharacters Detector.

Definition ascii_units (s : string) : jsstring :=
  map (fun a => Z.of_nat (nat_of_ascii a)) (list_ascii_of_string s).


(* ------------------------------------------------------------------------- *)
(** * Vocabulary of the specification *)
(* ------------------------------------------------------------------------- *)

(** Membership of a code unit in the binary-pattern alphabet. *)
Definition inAlphabet (u : Z) : bool :=
  (u =? 0x200B) || (u =? 0x200C) || (u =? 0x200D) || (u =? 0xFEFF)
  || (u =? 0x2062) || (u =? 0x2064).

(** The unit at offset [i] of [text] belongs to the alphabet. *)
Definition alphabetAt (text : jsstring) (i : Z) : bool :=
  match charCodeAt text i with Some u => inAlphabet u | None => false end.

(** Length of the longest prefix of alphabet members. *)
Fixpoint prefixLen (l : list Z) : Z :=
  match l with
  | [] => 0
  | u :: r => if inAlphabet u then 1 + prefixLen r else 0
  end.

(** Number of consecutive alphabet members starting at offset [i]. *)
Definition runAt (text : jsstring) (i : Z) : Z :=
  if i <? 0 then 0 else prefixLen (skipn (Z.to_nat i) text).

(** [s, s + L) is a maximal run of alphabet members of [text]. *)
Definition maximalRun (text : jsstring) (s L : Z) : Prop :=
  0 <= s /\ 1 <= L /\
  (forall j, s <= j < s + L -> alphabetAt text j = true) /\
  alphabetAt text (s - 1) = false /\
  alphabetAt text (s + L) = false.

(** The string handed to [BINARY_ENCODING_CHARS.has] and [allHiddenChars.get]
    at offset [i]. *)
Definition keyAt (text : jsstring) (i : Z) : option jsstring :=
  if opt_gtb (codePointAt text i) 0xFFFF
  then option_map fromCodePoint (codePointAt text i)
  else charAt text i.

(** Lookup of a finding by its start offset. *)
Definition findingAt (fs : list HiddenCharacterInfo) (k : Z) (f : HiddenCharacterInfo) : Prop :=
  In f fs /\ index f = k.

Definition isPattern (f : HiddenCharacterInfo) : Prop := category f = PATTERN_CATEGORY.

(** [n] iterations of the body of the outer loop. *)
Fixpoint iter (cz em : Z -> bool) (text : jsstring) (n : nat) (st : ScanState) : ScanState :=
  match n with
  | O => st
  | S m => step cz em text (iter cz em text m st)
  end.

(** What one iteration pushes on [results]. *)
Definition emitted (cz em : Z -> bool) (text : jsstring) (st : ScanState)
  : list HiddenCharacterInfo :=
  let i := s_i st in
  let p := detectPattern text st in
  if (MIN_PATTERN_LENGTH <=? patternLength p) && isDefined (codePointAt text i)
  then [patternFinding i (s_line st) (i - s_currentLineStartIndex st) p]
  else singleCharacter cz em text st.

(** The scalar value before offset [i] that the two heuristics look at: the
    code point the code reads at the index its helper returns. *)
Definition previousBase (text : jsstring) (i : Z) : option Z :=
  let k := getPreviousBaseCharStartIndex text i in
  if k =? -1 then None else codePointAt text k.

(** The scalar value that ends right before offset [j], read off the units
    of the text: a high surrogate at [j - 2] followed by a low surrogate at
    [j - 1] is the one scalar value they encode, any other unit at [j - 1]
    is a scalar value by itself. There is none before the first unit. *)
Definition scalarBefore (text : jsstring) (j : Z) : option Z :=
  match charCodeAt text (j - 1) with
  | None => None
  | Some u =>
      match charCodeAt text (j - 2) with
      | Some h =>
          if isHighSurrogate h && isLowSurrogate u
          then Some ((h - 0xD800) * 0x400 + (u - 0xDC00) + 0x10000)
          else Some u
      | None => Some u
      end
  end.

(** The nearest preceding base scalar value of offset [k], in the words of
    the specification: the scalar value before [k], after skipping back over
    one VS16 if there is one right before [k]. It is defined on the text
    alone, without the code's helper; [previousBase_precedingBase] below
    shows that the code computes it. *)
Definition precedingBase (text : jsstring) (k : Z) : option Z :=
  match scalarBefore text k with
  | Some c => if c =? 0xFE0F then scalarBefore text (k - 1) else Some c
  | None => None
  end.

(** Where the cursor goes from offset [i]. *)
Definition nextIndex (text : jsstring) (i : Z) : Z :=
  if MIN_PATTERN_LENGTH <=? runAt text i then i + runAt text i
  else if opt_gtb (codePointAt text i) 0xFFFF then i + 2
  else i + 1.

(** The locals of the inner loop when it has consumed a run of [L] members
    starting in state [p]. *)
Definition afterRun (p : PatternState) (L : Z) : PatternState :=
  if L =? 0 then p
  else {| patternI := patternI p + L;
          currentPatternLine := currentPatternLine p;
          currentPatternLineStartIndex := currentPatternLineStartIndex p;
          patternLength := patternLength p + L;
          patternEndIndex := patternI p + L - 1;
          patternEndLine := currentPatternLine p;
          patternEndColumn := patternI p + L - 1 - currentPatternLineStartIndex p |}.

(** The locals of the inner loop before its first iteration. *)
Definition patternStart (st : ScanState) : PatternState :=
  {| patternI := s_i st;
     currentPatternLine := s_line st;
     currentPatternLineStartIndex := s_currentLineStartIndex st;
     patternLength := 0;
     patternEndIndex := -1;
     patternEndLine := -1;
     patternEndColumn := -1 |}.

(** Offsets the cursor cannot jump over: not the second unit of a surrogate
    pair and not inside a run that qualifies from an earlier offset. *)
Definition landing (text : jsstring) (k : Z) : Prop :=
  ~ (opt_between 0xD800 (charCodeAt text (k - 1)) 0xDBFF = true /\
     opt_between 0xDC00 (charCodeAt text k) 0xDFFF = true) /\
  (forall i, 0 <= i < k -> MIN_PATTERN_LENGTH <= runAt text i -> i + runAt text i <= k).

(** The value of [skipDiagnostic] for the code point [cp] at offset [i]. *)
Definition suppressed (cz em : Z -> bool) (text : jsstring) (i cp : Z) : bool :=
  if cp =? 0xFE0F then skipVS16 cz text i
  else if cp =? 0x200D then skipZWJ cz em text i
  else false.

(** The code point at offset [j] has an entry in the category registry. *)
Definition inRegistry (text : jsstring) (j : Z) : bool :=
  match map_get allHiddenChars (keyAt text j) with Some _ => true | None => false end.

Definition ascending (a b : HiddenCharacterInfo) : Prop := index a < index b.

(** The three optional fields of a finding. *)
Definition endFieldsPresent (f : HiddenCharacterInfo) : Prop :=
  endIndex f <> None /\ endLine f <> None /\ endColumn f <> None.
Definition endFieldsAbsent (f : HiddenCharacterInfo) : Prop :=
  endIndex f = None /\ endLine f = None /\ endColumn f = None.

(** The span of a finding that has one meets the offsets [s .. s + L - 1]. *)
Definition spanMeets (g : HiddenCharacterInfo) (s L : Z) : Prop :=
  exists e, endIndex g = Some e /\ index g <= s + L - 1 /\ s <= e.

(** The run [s, s + L) is reported by one pattern finding that spans it, and
    by no other finding. *)
Definition reportedAsPattern (fs : list HiddenCharacterInfo) (s L : Z) : Prop :=
  exists f, In f fs /\ isPattern f /\ index f = s /\ endIndex f = Some (s + L - 1) /\
            (forall g, In g fs -> s <= index g < s + L -> g = f) /\
            (forall g, In g fs -> spanMeets g s L -> g = f).

(** The run [s, s + L) is reported one member at a time: no pattern finding
    touches it, no offset carries two findings, and the members for which
    [reported] holds are the ones with a finding. *)
Definition reportedSingly (fs : list HiddenCharacterInfo) (reported : Z -> Prop) (s L : Z)
  : Prop :=
  (forall g, In g fs -> ~ spanMeets g s L) /\
  (forall g, In g fs -> s <= index g < s + L -> ~ isPattern g) /\
  (forall g g', In g fs -> In g' fs -> index g = index g' -> g = g') /\
  (forall j, s <= j < s + L -> ((exists g, In g fs /\ index g = j) <-> reported j)).

(** The joiner at offset [j], if there is one, is suppressed. *)
Definition suppressedJoiner (cz em : Z -> bool) (text : jsstring) (j : Z) : bool :=
  opt_eqb (charCodeAt text j) 0x200D && skipZWJ cz em text j.

(** The run-absorption law as the specification states it: every member of
    a short run that is in the registry has its finding. *)
Definition runAbsorptionStated (cz em : Z -> bool) (text : jsstring) : Prop :=
  forall s L, maximalRun text s L ->
    (MIN_PATTERN_LENGTH <= L ->
       reportedAsPattern (detectHiddenCharacters cz em text) s L) /\
    (L < MIN_PATTERN_LENGTH ->
       reportedSingly (detectHiddenCharacters cz em text)
         (fun j => inRegistry text j = true) s L).

(** The conditions (a) and (b) of the joiner heuristic, in the words of the
    specification. *)
Definition joinsEmoji (cz em : Z -> bool) (text : jsstring) (k : Z) : Prop :=
  (exists c, precedingBase text k = Some c /\ em c = true) /\
  (exists n, codePointAt text (k + 1) = Some n /\ (n = 0xFE0F \/ cz n = false)).

(** Plain text: a letter or a digit of ASCII. *)
Definition isPlainText (u : Z) : bool :=
  ((0x30 <=? u) && (u <=? 0x39)) || ((0x41 <=? u) && (u <=? 0x5A))
  || ((0x61 <=? u) && (u <=? 0x7A)).

(** The unit right before or right after offset [k] is plain text. *)
Definition adjacentToPlainText (text : jsstring) (k : Z) : bool :=
  match charCodeAt text (k - 1) with Some u => isPlainText u | None => false end
  || match charCodeAt text (k + 1) with Some u => isPlainText u | None => false end.

(** The joiner law as the specification states it: suppression exactly
    under (a) and (b), and a finding for every joiner adjacent to plain
    text. *)
Definition joinerLawStated (cz em : Z -> bool) (text : jsstring) : Prop :=
  forall k s L,
    charCodeAt text k = Some 0x200D ->
    maximalRun text s L -> s <= k < s + L -> L < MIN_PATTERN_LENGTH ->
    ((forall f, In f (detectHiddenCharacters cz em text) -> index f <> k)
     <-> joinsEmoji cz em text k) /\
    (adjacentToPlainText text k = true ->
       exists f, In f (detectHiddenCharacters cz em text) /\ index f = k).

(** Projection of a finding used to display scan results. *)
Definition summary (f : HiddenCharacterInfo) : Z * Z * Z * string * option Z :=
  (index f, line f, column f, category f, endLine f).

(** [maximalRun] as a test. *)
Definition maximalRunb (text : jsstring) (s L : Z) : bool :=
  (0 <=? s) && (1 <=? L)
  && forallb (fun n => alphabetAt text (s + Z.of_nat n)) (seq 0 (Z.to_nat L))
  && negb (alphabetAt text (s - 1)) && negb (alphabetAt text (s + L)).

(** Sample texts. *)

(** Two groups of four zero width spaces on consecutive lines. *)
Definition splitRun : jsstring :=
  [0x200B; 0x200B; 0x200B; 0x200B; 0x0A; 0x200B; 0x200B; 0x200B; 0x200B].

(** MAN, ZERO WIDTH JOINER, WOMAN (U+1F468 U+200D U+1F469). *)
Definition joinedEmoji : jsstring := [0xD83D; 0xDC68; 0x200D; 0xD83D; 0xDC69].

(** A letter, nine alphabet members, a letter. *)
Definition longRun : jsstring :=
  [0x61; 0x200B; 0x200B; 0x200B; 0x200B; 0x200C; 0x200B; 0x200B; 0x2062; 0x200B; 0x62].

(** INVISIBLE TIMES and INVISIBLE PLUS between two letters. *)
Definition invisibleOperators : jsstring := [0x61; 0x2062; 0x2064; 0x62].

(** SPACE followed by VS16, and HEAVY BLACK HEART followed by VS16. *)
Definition spaceVS16 : jsstring := [0x20; 0xFE0F].
Definition heartVS16 : jsstring := [0x2764; 0xFE0F].

(** A joiner between two letters. *)
Definition joinedLetters : jsstring := [0x61; 0x200D; 0x62].

(** MAN, a joiner, a letter; and a digit, a joiner, a letter. *)
Definition manJoinedToLetter : jsstring := [0xD83D; 0xDC68; 0x200D; 0x61].
Definition digitJoinedToLetter : jsstring := [0x31; 0x200D; 0x61].

(** SPACE, HEAVY BLACK HEART, VS16. *)
Definition spaceHeartVS16 : jsstring := [0x20; 0x2764; 0xFE0F].

(** The text of the surrogate-pair test of [detector.test.ts]. *)
Definition testVS17 : jsstring := [0x54; 0x65; 0x73; 0x74; 0x20; 0xDB40; 0xDD00;
                                   0x20; 0x56; 0x53; 0x31; 0x37].

(* ------------------------------------------------------------------------- *)
(** * Vocabulary of the further properties *)
(* ------------------------------------------------------------------------- *)

(** The registry as range checks on the code point. *)
Definition classifyByRange (c : Z) : option CharInfo :=
  if existsb (Z.eqb c) [0x200B; 0x200C; 0x200D; 0xFEFF] then Some zeroWidthInfo
  else if existsb (Z.eqb c)
            [0x202A; 0x202B; 0x202D; 0x202E; 0x2066; 0x2067; 0x2068; 0x2069; 0x202C]
  then Some bidiControlInfo
  else if (0xE0000 <=? c) && (c <=? 0xE007F) then Some deprecatedTagInfo
  else if ((0xFE00 <=? c) && (c <=? 0xFE0F)) || ((0xE0100 <=? c) && (c <=? 0xE01EF))
  then Some variationSelectorInfo
  else None.

(** Line and column reached after the units of [l], read one at a time from
    line [ln], column [col]: a newline starts a new line at column 0, any
    other unit advances the column by one. *)
Fixpoint lineColumn (l : list Z) (ln col : Z) : Z * Z :=
  match l with
  | [] => (ln, col)
  | u :: r => if u =? 0x0A then lineColumn r (ln + 1) 0 else lineColumn r ln (col + 1)
  end.

(** One-based line and zero-based column of offset [k] of [text]. *)
Definition positionOf (text : jsstring) (k : Z) : Z * Z :=
  lineColumn (firstn (Z.to_nat k) text) 1 0.

(** Offset [k] lies in a run that qualifies from an offset [i <= k]. *)
Definition absorbed (text : jsstring) (k : Z) : Prop :=
  exists i, 0 <= i <= k /\ k < i + runAt text i /\ MIN_PATTERN_LENGTH <= runAt text i.

(** Further sample texts. *)

(** GRINNING FACE, a newline, eight zero width spaces, RIGHT-TO-LEFT OVERRIDE. *)
Definition secondLine : jsstring :=
  [0xD83D; 0xDE00; 0x0A; 0x200B; 0x200B; 0x200B; 0x200B; 0x200B; 0x200B; 0x200B; 0x200B;
   0x202E].

(** RIGHT-TO-LEFT OVERRIDE between two letters. *)
Definition overridden : jsstring := [0x61; 0x202E; 0x62].

(** A joiner followed by a letter, and a lone VS16. *)
Definition leadingJoiner : jsstring := [0x200D; 0x61].
Definition loneVS16 : jsstring := [0xFE0F].


(* ------------------------------------------------------------------------- *)
(** * Strings *)
(* ------------------------------------------------------------------------- *)

Lemma string_eqb_eq (a b : jsstring) : string_eqb a b = true <-> a = b.
Proof.
  revert b; induction a as [|x a IH]; intros [|y b]; simpl; split;
    try congruence; try reflexivity.
  - rewrite andb_true_iff, Z.eqb_eq, IH. intros [-> ->]; reflexivity.
  - intros E; inversion E; subst. rewrite Z.eqb_refl. apply IH. reflexivity.
Qed.

Lemma charCodeAt_Some (s : jsstring) (i u : Z) :
  charCodeAt s i = Some u -> 0 <= i < length s.
Proof.
  unfold charCodeAt, length. destruct (Z.ltb_spec i 0) as [Hi|Hi]; [discriminate|].
  intros H. assert (Hn : nth_error s (Z.to_nat i) <> None) by congruence.
  apply nth_error_Some in Hn. lia.
Qed.

Lemma charCodeAt_None (s : jsstring) (i : Z) :
  charCodeAt s i = None <-> i < 0 \/ length s <= i.
Proof.
  unfold charCodeAt, length. destruct (Z.ltb_spec i 0) as [Hi|Hi].
  - split; auto.
  - rewrite nth_error_None. lia.
Qed.

Lemma charCodeAt_in_range (s : jsstring) (i : Z) :
  0 <= i < length s -> exists u, charCodeAt s i = Some u.
Proof.
  intros H. destruct (charCodeAt s i) eqn:E; eauto.
  apply charCodeAt_None in E. lia.
Qed.

Lemma wellFormed_unit (s : jsstring) (i u : Z) :
  wellFormed s = true -> charCodeAt s i = Some u -> 0 <= u <= 0xFFFF.
Proof.
  unfold wellFormed, charCodeAt. intros Hwf. destruct (i <? 0); [discriminate|].
  intros H. apply nth_error_In in H.
  rewrite forallb_forall in Hwf. specialize (Hwf _ H).
  unfold isCodeUnit in Hwf. lia.
Qed.

Lemma codePointAt_defined (s : jsstring) (i : Z) :
  isDefined (codePointAt s i) = isDefined (charCodeAt s i).
Proof.
  unfold codePointAt. destruct (charCodeAt s i) as [u|]; [|reflexivity].
  destruct (isHighSurrogate u); [|reflexivity].
  destruct (charCodeAt s (i + 1)) as [v|]; [|reflexivity].
  destruct (isLowSurrogate v); reflexivity.
Qed.

Lemma codePointAt_not_high (s : jsstring) (i u : Z) :
  charCodeAt s i = Some u -> isHighSurrogate u = false -> codePointAt s i = Some u.
Proof. unfold codePointAt. intros -> ->. reflexivity. Qed.

Lemma codePointAt_next_not_low (s : jsstring) (i u : Z) :
  charCodeAt s i = Some u ->
  opt_between 0xDC00 (charCodeAt s (i + 1)) 0xDFFF = false ->
  codePointAt s i = Some u.
Proof.
  unfold codePointAt, opt_between, isLowSurrogate. intros -> H.
  destruct (isHighSurrogate u); [|reflexivity].
  destruct (charCodeAt s (i + 1)); [|reflexivity]. rewrite H. reflexivity.
Qed.

(** A surrogate pair at [i] is read as the supplementary code point it
    encodes, and only a pair is read as a value above 0xFFFF. *)
Lemma codePointAt_pair (s : jsstring) (i hi lo : Z) :
  charCodeAt s i = Some hi -> charCodeAt s (i + 1) = Some lo ->
  isHighSurrogate hi = true -> isLowSurrogate lo = true ->
  codePointAt s i = Some ((hi - 0xD800) * 0x400 + (lo - 0xDC00) + 0x10000).
Proof. unfold codePointAt. intros -> -> -> ->. reflexivity. Qed.

Lemma codePointAt_big (s : jsstring) (i : Z) :
  wellFormed s = true ->
  opt_gtb (codePointAt s i) 0xFFFF = true ->
  exists hi lo, charCodeAt s i = Some hi /\ charCodeAt s (i + 1) = Some lo /\
                isHighSurrogate hi = true /\ isLowSurrogate lo = true.
Proof.
  intros Hwf. unfold codePointAt.
  destruct (charCodeAt s i) as [u|] eqn:Eu; [|discriminate].
  pose proof (wellFormed_unit _ _ _ Hwf Eu) as Hu.
  destruct (isHighSurrogate u) eqn:Eh.
  - destruct (charCodeAt s (i + 1)) as [v|] eqn:Ev.
    + destruct (isLowSurrogate v) eqn:El.
      * intros _. exists u, v. auto.
      * simpl. intros H. apply Z.ltb_lt in H. lia.
    + simpl. intros H. apply Z.ltb_lt in H. lia.
  - simpl. intros H. apply Z.ltb_lt in H. lia.
Qed.

Lemma fromCodePoint_pair (hi lo : Z) :
  isHighSurrogate hi = true -> isLowSurrogate lo = true ->
  fromCodePoint ((hi - 0xD800) * 0x400 + (lo - 0xDC00) + 0x10000) = [hi; lo].
Proof.
  unfold isHighSurrogate, isLowSurrogate, fromCodePoint. intros Hh Hl.
  apply andb_true_iff in Hh, Hl. destruct Hh as [h1 h2], Hl as [l1 l2].
  apply Z.leb_le in h1, h2, l1, l2.
  destruct (Z.leb_spec ((hi - 0xD800) * 0x400 + (lo - 0xDC00) + 0x10000) 0xFFFF) as [Hc|Hc];
    [lia|].
  replace ((hi - 0xD800) * 0x400 + (lo - 0xDC00) + 0x10000 - 0x10000)
    with ((lo - 0xDC00) + (hi - 0xD800) * 0x400) by lia.
  rewrite Z.div_add by lia. rewrite Z.mod_add by lia.
  rewrite Z.div_small by lia. rewrite Z.mod_small by lia.
  f_equal; [lia | f_equal; lia].
Qed.

(* ------------------------------------------------------------------------- *)
(** * The alphabet and its runs *)
(* ------------------------------------------------------------------------- *)

Lemma inAlphabet_cases (u : Z) :
  inAlphabet u = true ->
  u = 0x200B \/ u = 0x200C \/ u = 0x200D \/ u = 0xFEFF \/ u = 0x2062 \/ u = 0x2064.
Proof.
  unfold inAlphabet. rewrite !orb_true_iff, !Z.eqb_eq. tauto.
Qed.

Lemma inAlphabet_plain (u : Z) :
  inAlphabet u = true ->
  isHighSurrogate u = false /\ isLowSurrogate u = false /\ (u <=? 0xFFFF) = true
  /\ (u =? 0x0A) = false /\ (u =? 0xFE0F) = false.
Proof.
  intros H. apply inAlphabet_cases in H.
  repeat (destruct H as [H|H]; [subst u; repeat split; reflexivity|]).
  subst u; repeat split; reflexivity.
Qed.

Lemma set_has_single (u : Z) :
  set_has BINARY_ENCODING_CHARS (Some [u]) = inAlphabet u.
Proof.
  unfold set_has, inAlphabet, BINARY_ENCODING_CHARS. simpl.
  rewrite !andb_true_r, orb_false_r, !orb_assoc. reflexivity.
Qed.

Lemma set_has_pair (a b : Z) :
  set_has BINARY_ENCODING_CHARS (Some [a; b]) = false.
Proof.
  unfold set_has, BINARY_ENCODING_CHARS. simpl.
  rewrite !andb_false_r. reflexivity.
Qed.

Lemma keyAt_cases (text : jsstring) (i u : Z) :
  charCodeAt text i = Some u ->
  keyAt text i = Some [u] \/ exists a b, keyAt text i = Some [a; b].
Proof.
  intros Hu. unfold keyAt.
  destruct (opt_gtb (codePointAt text i) 0xFFFF) eqn:Eg.
  - right. destruct (codePointAt text i) as [c|]; [|discriminate].
    simpl in Eg. apply Z.ltb_lt in Eg. simpl. unfold fromCodePoint.
    destruct (Z.leb_spec c 0xFFFF) as [Hc|Hc]; [lia|]. eauto.
  - left. unfold charAt. rewrite Hu. reflexivity.
Qed.

(** The guard of the run detector is membership of the unit at [i]. *)
Lemma key_alphabet (text : jsstring) (i : Z) :
  isDefined (codePointAt text i) && set_has BINARY_ENCODING_CHARS (keyAt text i)
  = alphabetAt text i.
Proof.
  rewrite codePointAt_defined. unfold alphabetAt.
  destruct (charCodeAt text i) as [u|] eqn:Eu; [|reflexivity]. cbn [isDefined andb].
  destruct (inAlphabet u) eqn:Ea.
  - destruct (inAlphabet_plain _ Ea) as (Hh & _ & Hle & _).
    unfold keyAt. rewrite (codePointAt_not_high _ _ _ Eu Hh). cbn [opt_gtb].
    apply Z.leb_le in Hle. destruct (Z.ltb_spec 0xFFFF u) as [Hc|Hc]; [lia|].
    unfold charAt. rewrite Eu. cbn [option_map]. rewrite set_has_single. exact Ea.
  - destruct (keyAt_cases _ _ _ Eu) as [-> | (a & b & ->)].
    + rewrite set_has_single. exact Ea.
    + apply set_has_pair.
Qed.

Lemma alphabetAt_unit (text : jsstring) (i : Z) :
  alphabetAt text i = true ->
  exists u, charCodeAt text i = Some u /\ inAlphabet u = true.
Proof.
  unfold alphabetAt. destruct (charCodeAt text i) as [u|]; [eauto|discriminate].
Qed.

Lemma alphabetAt_range (text : jsstring) (i : Z) :
  alphabetAt text i = true -> 0 <= i < length text.
Proof.
  intros H. destruct (alphabetAt_unit _ _ H) as (u & Hu & _).
  eapply charCodeAt_Some; eauto.
Qed.

(** An alphabet member is one unit long and is its own code point. *)
Lemma alphabetAt_codePoint (text : jsstring) (i : Z) :
  alphabetAt text i = true ->
  exists u, charCodeAt text i = Some u /\ inAlphabet u = true /\
            codePointAt text i = Some u /\ keyAt text i = Some [u] /\
            opt_gtb (codePointAt text i) 0xFFFF = false.
Proof.
  intros H. destruct (alphabetAt_unit _ _ H) as (u & Hu & Ha).
  destruct (inAlphabet_plain _ Ha) as (Hh & _ & Hle & _).
  pose proof (codePointAt_not_high _ _ _ Hu Hh) as Hcp.
  assert (Hg : opt_gtb (codePointAt text i) 0xFFFF = false).
  { rewrite Hcp. simpl. apply Z.leb_le in Hle. apply Z.ltb_ge. lia. }
  exists u. repeat split; auto.
  unfold keyAt. rewrite Hg. unfold charAt. rewrite Hu. reflexivity.
Qed.

Lemma skipn_nth_error {A : Type} (l : list A) (n : nat) :
  skipn n l = match nth_error l n with
              | Some x => x :: skipn (S n) l
              | None => []
              end.
Proof.
  revert n; induction l as [|a l IH]; intros [|n]; simpl; auto.
Qed.

Lemma runAt_unfold (text : jsstring) (i : Z) :
  runAt text i = if alphabetAt text i then 1 + runAt text (i + 1) else 0.
Proof.
  unfold runAt, alphabetAt, charCodeAt.
  destruct (Z.ltb_spec i 0) as [Hi|Hi]; [reflexivity|].
  destruct (Z.ltb_spec (i + 1) 0) as [Hj|Hj]; [lia|].
  rewrite (skipn_nth_error text (Z.to_nat i)).
  assert (E : Z.to_nat (i + 1) = S (Z.to_nat i)) by lia. rewrite E.
  destruct (nth_error text (Z.to_nat i)); reflexivity.
Qed.

Lemma prefixLen_nonneg (l : list Z) : 0 <= prefixLen l.
Proof. induction l as [|u l IH]; cbn [prefixLen]; [lia|]. destruct (inAlphabet u); lia. Qed.

Lemma runAt_nonneg (text : jsstring) (i : Z) : 0 <= runAt text i.
Proof. unfold runAt. destruct (i <? 0); [lia|apply prefixLen_nonneg]. Qed.

Lemma runAt_zero (text : jsstring) (i : Z) :
  alphabetAt text i = false -> runAt text i = 0.
Proof. intros H. rewrite runAt_unfold, H. reflexivity. Qed.

Lemma runAt_pos (text : jsstring) (i : Z) :
  alphabetAt text i = true <-> 0 < runAt text i.
Proof.
  rewrite (runAt_unfold text i). pose proof (runAt_nonneg text (i + 1)).
  destruct (alphabetAt text i); split; intros; try lia; try discriminate; auto.
Qed.

(** The run found at [i] consists of alphabet members and stops at the first
    unit that is not one. *)
Lemma runAt_inside (text : jsstring) (n : nat) :
  forall i j, runAt text i = Z.of_nat n -> i <= j < i + Z.of_nat n ->
              alphabetAt text j = true.
Proof.
  induction n as [|n IH]; intros i j Hr Hj; [lia|].
  rewrite runAt_unfold in Hr. destruct (alphabetAt text i) eqn:Ea; [|lia].
  destruct (Z.eq_dec j i) as [->|Hne]; [exact Ea|].
  apply (IH (i + 1)); lia.
Qed.

Lemma runAt_members (text : jsstring) (i j : Z) :
  i <= j < i + runAt text i -> alphabetAt text j = true.
Proof.
  intros H. pose proof (runAt_nonneg text i).
  apply (runAt_inside text (Z.to_nat (runAt text i)) i j); lia.
Qed.

Lemma runAt_stop (text : jsstring) (n : nat) :
  forall i, runAt text i = Z.of_nat n -> alphabetAt text (i + Z.of_nat n) = false.
Proof.
  induction n as [|n IH]; intros i Hr.
  - rewrite Z.add_0_r. destruct (alphabetAt text i) eqn:Ea; [|reflexivity].
    apply runAt_pos in Ea. simpl in Hr. lia.
  - rewrite runAt_unfold in Hr. destruct (alphabetAt text i) eqn:Ea; [|lia].
    replace (i + Z.of_nat (S n)) with ((i + 1) + Z.of_nat n) by lia.
    apply IH. lia.
Qed.

Lemma runAt_end (text : jsstring) (i : Z) :
  alphabetAt text (i + runAt text i) = false.
Proof.
  pose proof (runAt_nonneg text i).
  replace (runAt text i) with (Z.of_nat (Z.to_nat (runAt text i))) at 1 by lia.
  apply runAt_stop. lia.
Qed.

(** Inside a maximal run the detector sees exactly the rest of the run. *)
Lemma runAt_in_maximalRun (text : jsstring) (s L : Z) :
  maximalRun text s L ->
  forall n : nat, forall j, s <= j <= s + L -> s + L - j = Z.of_nat n ->
                            runAt text j = s + L - j.
Proof.
  intros (Hs & HL & Hin & Hbefore & Hafter).
  induction n as [|n IH]; intros j Hj Hn.
  - replace j with (s + L) by lia. rewrite runAt_zero by exact Hafter. lia.
  - rewrite runAt_unfold, Hin by lia. rewrite (IH (j + 1)) by lia. lia.
Qed.

Lemma runAt_maximalRun (text : jsstring) (s L j : Z) :
  maximalRun text s L -> s <= j <= s + L -> runAt text j = s + L - j.
Proof.
  intros H Hj. apply (runAt_in_maximalRun text s L H (Z.to_nat (s + L - j))); lia.
Qed.

(** Every alphabet member lies in a maximal run. *)
Lemma maximalRun_exists (text : jsstring) (n : nat) :
  forall k, alphabetAt text k = true -> k <= Z.of_nat n ->
            exists s, 0 <= s <= k /\ maximalRun text s (k - s + runAt text k).
Proof.
  induction n as [|n IH]; intros k Hk Hn.
  - pose proof (alphabetAt_range _ _ Hk). assert (k = 0) by lia. subst k.
    exists 0. split; [lia|]. pose proof (proj1 (runAt_pos _ _) Hk).
    split; [lia|split; [lia|split; [|split]]].
    + intros j Hj. apply (runAt_members text 0). lia.
    + reflexivity.
    + replace (0 + (0 - 0 + runAt text 0)) with (0 + runAt text 0) by lia.
      apply runAt_end.
  - destruct (alphabetAt text (k - 1)) eqn:Eprev.
    + destruct (IH (k - 1) Eprev ltac:(lia)) as (s & Hs & Hrun).
      exists s. split; [lia|].
      assert (E : runAt text (k - 1) = 1 + runAt text k).
      { rewrite (runAt_unfold text (k - 1)), Eprev.
        replace (k - 1 + 1) with k by lia. reflexivity. }
      replace (k - s + runAt text k) with (k - 1 - s + runAt text (k - 1)) by lia.
      exact Hrun.
    + pose proof (alphabetAt_range _ _ Hk). pose proof (proj1 (runAt_pos _ _) Hk).
      exists k. split; [lia|]. replace (k - k + runAt text k) with (runAt text k) by lia.
      split; [lia|split; [lia|split; [|split]]].
      * intros j Hj. apply (runAt_members text k). lia.
      * exact Eprev.
      * apply runAt_end.
Qed.

(* ------------------------------------------------------------------------- *)
(** * The inner loop *)
(* ------------------------------------------------------------------------- *)

Lemma alphabetAt_outside (text : jsstring) (i : Z) :
  length text <= i -> alphabetAt text i = false.
Proof.
  intros H. unfold alphabetAt.
  replace (charCodeAt text i) with (@None Z); [reflexivity|].
  symmetry. apply charCodeAt_None. lia.
Qed.

Lemma not_newline (text : jsstring) (i : Z) :
  alphabetAt text i = true -> opt_string_eqb (charAt text i) [0x0A] = false.
Proof.
  intros H. destruct (alphabetAt_unit _ _ H) as (u & Hu & Ha).
  destruct (inAlphabet_plain _ Ha) as (_ & _ & _ & Hn & _).
  unfold charAt. rewrite Hu. simpl. rewrite Hn. reflexivity.
Qed.

(** With enough fuel the inner loop consumes exactly the run at its start:
    it leaves by its loop condition or by [break], never by lack of fuel. *)
Lemma patternLoop_run (text : jsstring) :
  forall (fuel : nat) (p : PatternState),
    length text - patternI p <= Z.of_nat fuel ->
    patternLoop text fuel p = afterRun p (runAt text (patternI p)).
Proof.
  induction fuel as [|fuel IH]; intros p Hfuel.
  - simpl. rewrite runAt_zero by (apply alphabetAt_outside; lia). reflexivity.
  - cbn [patternLoop].
    destruct (Z.ltb_spec (patternI p) (length text)) as [Hlt|Hge].
    + pose proof (key_alphabet text (patternI p)) as G. unfold keyAt in G. rewrite G.
      destruct (alphabetAt text (patternI p)) eqn:Ea.
      * destruct (alphabetAt_codePoint _ _ Ea) as (u & _ & _ & _ & _ & Hg).
        rewrite Hg, (not_newline _ _ Ea).
        rewrite IH by (cbn [patternI]; lia). cbn [patternI].
        rewrite (runAt_unfold text (patternI p)), Ea.
        pose proof (runAt_nonneg text (patternI p + 1)) as Hnn.
        unfold afterRun.
        cbn [patternI currentPatternLine currentPatternLineStartIndex patternLength
             patternEndIndex patternEndLine patternEndColumn].
        destruct (Z.eqb_spec (runAt text (patternI p + 1)) 0) as [E0|E0];
          destruct (Z.eqb_spec (1 + runAt text (patternI p + 1)) 0) as [E1|E1];
          try lia.
        -- rewrite E0. f_equal; lia.
        -- f_equal; lia.
      * rewrite runAt_zero by exact Ea. reflexivity.
    + rewrite runAt_zero by (apply alphabetAt_outside; lia). reflexivity.
Qed.

Lemma detectPattern_run (text : jsstring) (st : ScanState) :
  detectPattern text st = afterRun (patternStart st) (runAt text (s_i st)).
Proof.
  unfold detectPattern. fold (patternStart st).
  pose proof (key_alphabet text (s_i st)) as G. unfold keyAt in G. rewrite G.
  destruct (alphabetAt text (s_i st)) eqn:Ea.
  - pose proof (alphabetAt_range _ _ Ea) as Hr.
    rewrite patternLoop_run; [reflexivity|]. cbn [patternStart patternI].
    unfold length in *. lia.
  - rewrite runAt_zero by exact Ea. reflexivity.
Qed.

Lemma detectPattern_length (text : jsstring) (st : ScanState) :
  patternLength (detectPattern text st) = runAt text (s_i st).
Proof.
  rewrite detectPattern_run. unfold afterRun.
  destruct (Z.eqb_spec (runAt text (s_i st)) 0) as [E|E]; cbn; lia.
Qed.

Lemma detectPattern_end (text : jsstring) (st : ScanState) :
  0 < runAt text (s_i st) ->
  patternEndIndex (detectPattern text st) = s_i st + runAt text (s_i st) - 1 /\
  patternEndLine (detectPattern text st) = s_line st /\
  patternEndColumn (detectPattern text st)
  = s_i st + runAt text (s_i st) - 1 - s_currentLineStartIndex st.
Proof.
  intros H. rewrite detectPattern_run. unfold afterRun.
  destruct (Z.eqb_spec (runAt text (s_i st)) 0) as [E|E]; [lia|]. cbn. auto.
Qed.

(* ------------------------------------------------------------------------- *)
(** * One iteration of the outer loop *)
(* ------------------------------------------------------------------------- *)

Section Iteration.

Variables cz em : Z -> bool.
Variable text : jsstring.

Lemma pattern_guard (st : ScanState) :
  (MIN_PATTERN_LENGTH <=? patternLength (detectPattern text st))
  && isDefined (codePointAt text (s_i st))
  = (MIN_PATTERN_LENGTH <=? runAt text (s_i st)).
Proof.
  rewrite detectPattern_length.
  destruct (Z.leb_spec MIN_PATTERN_LENGTH (runAt text (s_i st))) as [H|H]; [|reflexivity].
  unfold MIN_PATTERN_LENGTH in H.
  assert (Ha : alphabetAt text (s_i st) = true) by (apply runAt_pos; lia).
  destruct (alphabetAt_codePoint _ _ Ha) as (u & _ & _ & -> & _). reflexivity.
Qed.

Lemma step_results (st : ScanState) :
  s_results (step cz em text st) = s_results st ++ emitted cz em text st.
Proof.
  unfold step, emitted.
  destruct ((MIN_PATTERN_LENGTH <=? patternLength (detectPattern text st))
            && isDefined (codePointAt text (s_i st))); reflexivity.
Qed.

Lemma step_cursor (st : ScanState) :
  s_i (step cz em text st) = nextIndex text (s_i st).
Proof.
  unfold step, nextIndex. rewrite pattern_guard.
  destruct (MIN_PATTERN_LENGTH <=? runAt text (s_i st)); cbn [s_i].
  - rewrite detectPattern_length. reflexivity.
  - destruct (opt_gtb (codePointAt text (s_i st)) 0xFFFF); lia.
Qed.

(** The cursor strictly increases on every iteration. *)
Lemma nextIndex_gt (i : Z) : i < nextIndex text i.
Proof.
  unfold nextIndex.
  destruct (Z.leb_spec MIN_PATTERN_LENGTH (runAt text i)) as [H|H].
  - unfold MIN_PATTERN_LENGTH in H. lia.
  - destruct (opt_gtb (codePointAt text i) 0xFFFF); lia.
Qed.

Lemma step_advances (st : ScanState) : s_i st < s_i (step cz em text st).
Proof. rewrite step_cursor. apply nextIndex_gt. Qed.

(** The finding of a qualifying run. *)
Lemma emitted_pattern (st : ScanState) :
  MIN_PATTERN_LENGTH <= runAt text (s_i st) ->
  exists f, emitted cz em text st = [f] /\
            index f = s_i st /\ line f = s_line st /\
            column f = s_i st - s_currentLineStartIndex st /\
            category f = PATTERN_CATEGORY /\ codePoint f = -1 /\
            endIndex f = Some (s_i st + runAt text (s_i st) - 1) /\
            endLine f = Some (s_line st) /\
            endColumn f = Some (s_i st + runAt text (s_i st) - 1 - s_currentLineStartIndex st).
Proof.
  intros H. unfold emitted. rewrite pattern_guard.
  destruct (Z.leb_spec MIN_PATTERN_LENGTH (runAt text (s_i st))) as [_|H']; [|lia].
  unfold MIN_PATTERN_LENGTH in H.
  destruct (detectPattern_end text st ltac:(lia)) as (E1 & E2 & E3).
  eexists. split; [reflexivity|]. cbn. rewrite E1, E2, E3. repeat split; reflexivity.
Qed.

Lemma emitted_single (st : ScanState) :
  runAt text (s_i st) < MIN_PATTERN_LENGTH ->
  emitted cz em text st = singleCharacter cz em text st.
Proof.
  intros H. unfold emitted. rewrite pattern_guard.
  destruct (Z.leb_spec MIN_PATTERN_LENGTH (runAt text (s_i st))) as [H'|_]; [lia|].
  reflexivity.
Qed.

(** What the single-character branch pushes: nothing, or one finding for the
    registry entry of the code point at the cursor. *)
Lemma singleCharacter_cases (st : ScanState) :
  singleCharacter cz em text st = [] \/
  exists cp info,
    codePointAt text (s_i st) = Some cp /\
    map_get allHiddenChars (keyAt text (s_i st)) = Some info /\
    singleCharacter cz em text st
    = [singleFinding cp (s_i st) (s_line st) (s_i st - s_currentLineStartIndex st) info].
Proof.
  unfold singleCharacter. fold (keyAt text (s_i st)).
  destruct (map_get allHiddenChars (keyAt text (s_i st))) as [info|]; [|auto].
  destruct (codePointAt text (s_i st)) as [cp|]; [|auto].
  match goal with |- context [negb ?b] => destruct b end; cbn [negb]; [auto|].
  right. exists cp, info. auto.
Qed.

Lemma emitted_index (st : ScanState) (f : HiddenCharacterInfo) :
  In f (emitted cz em text st) -> index f = s_i st.
Proof.
  destruct (Z.le_gt_cases MIN_PATTERN_LENGTH (runAt text (s_i st))) as [H|H].
  - destruct (emitted_pattern st H) as (g & -> & Hi & _). intros [<-|[]]. exact Hi.
  - rewrite emitted_single by lia.
    destruct (singleCharacter_cases st) as [->|(cp & info & _ & _ & ->)].
    + intros [].
    + intros [<-|[]]. reflexivity.
Qed.

End Iteration.

(* ------------------------------------------------------------------------- *)
(** * The sequence of cursor positions *)
(* ------------------------------------------------------------------------- *)

Section Trace.

Variables cz em : Z -> bool.
Variable text : jsstring.

Abbreviation trace n := (iter cz em text n initialState).
Abbreviation detect := (detectHiddenCharacters cz em text).

Lemma iter_step (n : nat) (st : ScanState) :
  iter cz em text n (step cz em text st) = step cz em text (iter cz em text n st).
Proof. induction n as [|n IH]; simpl; [reflexivity|]. rewrite IH. reflexivity. Qed.

Lemma trace_cursor_S (n : nat) : s_i (trace n) < s_i (trace (S n)).
Proof. simpl. apply step_advances. Qed.

Lemma trace_cursor_lt (n m : nat) : (n < m)%nat -> s_i (trace n) < s_i (trace m).
Proof.
  induction 1 as [|m Hle IH].
  - apply trace_cursor_S.
  - pose proof (trace_cursor_S m). lia.
Qed.

Lemma trace_cursor_le (n m : nat) : (n <= m)%nat -> s_i (trace n) <= s_i (trace m).
Proof.
  intros H. destruct (Nat.eq_dec n m) as [->|Hne]; [lia|].
  pose proof (trace_cursor_lt n m ltac:(lia)). lia.
Qed.

Lemma trace_cursor_ge (n : nat) : Z.of_nat n <= s_i (trace n).
Proof.
  induction n as [|n IH]; [simpl; lia|]. pose proof (trace_cursor_S n). lia.
Qed.

Lemma trace_cursor_inj (n m : nat) : s_i (trace n) = s_i (trace m) -> n = m.
Proof.
  intros H. destruct (Nat.lt_trichotomy n m) as [Hlt|[Heq|Hgt]]; [|exact Heq|].
  - pose proof (trace_cursor_lt _ _ Hlt). lia.
  - pose proof (trace_cursor_lt _ _ Hgt). lia.
Qed.

(** No cursor position lies strictly between two consecutive ones. *)
Lemma no_cursor_between (n m : nat) :
  ~ (s_i (trace n) < s_i (trace m) < s_i (trace (S n))).
Proof.
  intros [H1 H2]. destruct (Nat.le_gt_cases m n) as [Hle|Hgt].
  - pose proof (trace_cursor_le _ _ Hle). lia.
  - pose proof (trace_cursor_le (S n) m ltac:(lia)). lia.
Qed.

Lemma trace_results (n : nat) :
  s_results (trace (S n)) = s_results (trace n) ++ emitted cz em text (trace n).
Proof. simpl. apply step_results. Qed.

Lemma trace_In (f : HiddenCharacterInfo) (n : nat) :
  In f (s_results (trace n)) <->
  exists m, (m < n)%nat /\ In f (emitted cz em text (trace m)).
Proof.
  induction n as [|n IH].
  - simpl. split; [intros []|intros (m & Hm & _); lia].
  - rewrite trace_results, in_app_iff, IH. split.
    + intros [(m & Hm & Hf)|Hf]; [exists m|exists n]; split; auto; lia.
    + intros (m & Hm & Hf). destruct (Nat.eq_dec m n) as [->|Hne]; [right; exact Hf|].
      left. exists m. split; [lia|exact Hf].
Qed.

(** The outer loop performs iterations until the cursor leaves the text. *)
Lemma loop_iter :
  forall (fuel : nat) (st : ScanState),
    length text - s_i st <= Z.of_nat fuel ->
    exists k, loop cz em text fuel st = iter cz em text k st /\
              length text <= s_i (iter cz em text k st) /\
              (forall m, (m < k)%nat -> s_i (iter cz em text m st) < length text).
Proof.
  induction fuel as [|fuel IH]; intros st Hfuel.
  - exists O. simpl. split; [reflexivity|]. split; [lia|]. intros m Hm; lia.
  - cbn [loop]. destruct (Z.ltb_spec (s_i st) (length text)) as [Hlt|Hge].
    + pose proof (step_advances cz em text st) as Hadv.
      destruct (IH (step cz em text st) ltac:(lia)) as (k & Hk & Hend & Hbefore).
      exists (S k). rewrite Hk, iter_step. cbn [iter]. split; [reflexivity|].
      split; [rewrite <- iter_step; exact Hend|].
      intros [|m] Hm; [exact Hlt|]. cbn [iter]. rewrite <- iter_step.
      apply Hbefore. lia.
    + exists O. simpl. split; [reflexivity|]. split; [lia|]. intros m Hm; lia.
Qed.

Lemma detect_trace :
  exists N, detect = s_results (trace N) /\
            length text <= s_i (trace N) /\
            (forall m, (m < N)%nat -> s_i (trace m) < length text).
Proof.
  unfold detectHiddenCharacters.
  destruct (loop_iter (List.length text) initialState) as (N & HN & Hend & Hbefore).
  { unfold length. simpl. lia. }
  exists N. rewrite HN. auto.
Qed.

(** A finding of the scan was pushed when the cursor was at its start offset,
    and everything pushed while the cursor is in the text is returned. *)
Lemma detect_In (f : HiddenCharacterInfo) :
  In f detect <->
  exists m, s_i (trace m) < length text /\ In f (emitted cz em text (trace m)).
Proof.
  destruct detect_trace as (N & -> & Hend & Hbefore). rewrite trace_In. split.
  - intros (m & Hm & Hf). exists m. auto.
  - intros (m & Hm & Hf). exists m. split; [|exact Hf].
    destruct (Nat.le_gt_cases N m) as [Hle|Hgt]; [|exact Hgt].
    pose proof (trace_cursor_le _ _ Hle). lia.
Qed.

Lemma detect_cursor (f : HiddenCharacterInfo) :
  In f detect ->
  exists m, s_i (trace m) = index f /\ index f < length text /\
            In f (emitted cz em text (trace m)).
Proof.
  rewrite detect_In. intros (m & Hm & Hf). exists m.
  pose proof (emitted_index _ _ _ _ _ Hf) as E. rewrite E. auto.
Qed.

Lemma trace_index_lt (n : nat) :
  Forall (fun f => index f < s_i (trace n)) (s_results (trace n)).
Proof.
  apply Forall_forall. intros f Hf. apply trace_In in Hf.
  destruct Hf as (m & Hm & Hf). rewrite (emitted_index _ _ _ _ _ Hf).
  apply trace_cursor_lt. exact Hm.
Qed.

Lemma emitted_length (st : ScanState) : (List.length (emitted cz em text st) <= 1)%nat.
Proof.
  destruct (Z.le_gt_cases MIN_PATTERN_LENGTH (runAt text (s_i st))) as [H|H].
  - destruct (emitted_pattern cz em text st H) as (g & -> & _). simpl. lia.
  - rewrite emitted_single by lia.
    destruct (singleCharacter_cases cz em text st) as [->|(cp & info & _ & _ & ->)];
      simpl; lia.
Qed.

Lemma StronglySorted_snoc {A : Type} (R : A -> A -> Prop) (l : list A) (x : A) :
  StronglySorted R l -> Forall (fun a => R a x) l -> StronglySorted R (l ++ [x]).
Proof.
  induction 1 as [|a l Hs IH Ha]; intros Hx; simpl.
  - constructor; constructor.
  - inversion Hx; subst. constructor; [apply IH; assumption|].
    apply Forall_app. split; [assumption|]. constructor; [assumption|constructor].
Qed.

Lemma trace_sorted (n : nat) : StronglySorted ascending (s_results (trace n)).
Proof.
  induction n as [|n IH]; [constructor|]. rewrite trace_results.
  pose proof (emitted_length (trace n)) as Hlen.
  destruct (emitted cz em text (trace n)) as [|f [|g r]] eqn:E.
  - rewrite app_nil_r. exact IH.
  - apply StronglySorted_snoc; [exact IH|].
    assert (Hf : index f = s_i (trace n)).
    { apply (emitted_index cz em text). rewrite E. left; reflexivity. }
    eapply Forall_impl; [|apply trace_index_lt]. unfold ascending. intros a Ha. lia.
  - simpl in Hlen. lia.
Qed.

Lemma detect_sorted : StronglySorted ascending detect.
Proof. destruct detect_trace as (N & -> & _). apply trace_sorted. Qed.

Lemma sorted_unique (l : list HiddenCharacterInfo) :
  StronglySorted ascending l ->
  forall f g, In f l -> In g l -> index f = index g -> f = g.
Proof.
  induction 1 as [|a l Hs IH Ha]; intros f g Hf Hg E; [destruct Hf|].
  rewrite Forall_forall in Ha. unfold ascending in Ha.
  destruct Hf as [->|Hf], Hg as [->|Hg]; auto.
  - specialize (Ha _ Hg). lia.
  - specialize (Ha _ Hf). lia.
Qed.

(** At most one finding starts at a given offset. *)
Lemma detect_unique (f g : HiddenCharacterInfo) :
  In f detect -> In g detect -> index f = index g -> f = g.
Proof. apply sorted_unique, detect_sorted. Qed.

(** The cursor stops at every landing offset. *)
Lemma visit_from (k : Z) :
  wellFormed text = true -> landing text k ->
  forall (d n : nat), s_i (trace n) <= k -> k - s_i (trace n) <= Z.of_nat d ->
                      exists m, s_i (trace m) = k.
Proof.
  intros Hwf [Hpair Hrun]. induction d as [|d IH]; intros n Hle Hd.
  - exists n. lia.
  - destruct (Z.eq_dec (s_i (trace n)) k) as [E|Hne]; [exists n; exact E|].
    apply (IH (S n)).
    + cbn [iter]. rewrite step_cursor. unfold nextIndex.
      pose proof (trace_cursor_ge n) as Hge.
      destruct (Z.leb_spec MIN_PATTERN_LENGTH (runAt text (s_i (trace n)))) as [H8|H8].
      * apply Hrun; [lia|exact H8].
      * destruct (opt_gtb (codePointAt text (s_i (trace n))) 0xFFFF) eqn:Eg; [|lia].
        destruct (codePointAt_big _ _ Hwf Eg) as (hi & lo & Hhi & Hlo & Hh & Hl).
        destruct (Z.eq_dec (s_i (trace n) + 1) k) as [E1|E1]; [|lia].
        exfalso. apply Hpair. subst k.
        replace (s_i (trace n) + 1 - 1) with (s_i (trace n)) by lia.
        rewrite Hhi, Hlo. split; [exact Hh|exact Hl].
    + pose proof (trace_cursor_S n). lia.
Qed.

Lemma visit (k : Z) :
  wellFormed text = true -> 0 <= k -> landing text k -> exists m, s_i (trace m) = k.
Proof.
  intros Hwf Hk Hland. apply (visit_from k Hwf Hland (Z.to_nat k) O); simpl; lia.
Qed.

End Trace.

(* ------------------------------------------------------------------------- *)
(** * The registry *)
(* ------------------------------------------------------------------------- *)

Lemma map_get_In {V : Type} (entries : list (jsstring * V)) (key : option jsstring) (v : V) :
  map_get entries key = Some v -> exists k, In (k, v) entries.
Proof.
  induction entries as [|[k w] rest IH]; simpl; [discriminate|].
  destruct (map_get rest key) as [v'|].
  - intros E. destruct (IH E) as (k' & Hk). eauto.
  - destruct (opt_string_eqb key k); [|discriminate].
    intros E; inversion E; subst. eauto.
Qed.

Lemma registry_info (key : option jsstring) (info : CharInfo) :
  map_get allHiddenChars key = Some info ->
  info = zeroWidthInfo \/ info = bidiControlInfo \/
  info = deprecatedTagInfo \/ info = variationSelectorInfo.
Proof.
  intros H. apply map_get_In in H. destruct H as (k & Hk).
  unfold allHiddenChars in Hk. rewrite !in_app_iff, !in_map_iff in Hk.
  destruct Hk as [(c & E & _)|[(c & E & _)|[(c & E & _)|(c & E & _)]]];
    inversion E; auto.
Qed.

(** No registry entry carries the category of pattern findings. *)
Lemma registry_not_pattern (key : option jsstring) (info : CharInfo) :
  map_get allHiddenChars key = Some info -> info_category info <> PATTERN_CATEGORY.
Proof.
  intros H. destruct (registry_info _ _ H) as [ -> | [ -> | [ -> | -> ] ] ]; discriminate.
Qed.

(* ------------------------------------------------------------------------- *)
(** * Offsets where the cursor stops *)
(* ------------------------------------------------------------------------- *)

Lemma alphabetAt_not_low (text : jsstring) (k : Z) :
  alphabetAt text k = true -> opt_between 0xDC00 (charCodeAt text k) 0xDFFF = false.
Proof.
  intros H. destruct (alphabetAt_unit _ _ H) as (u & -> & Ha).
  destruct (inAlphabet_plain _ Ha) as (_ & Hl & _). exact Hl.
Qed.

Lemma landing_not_alphabet (text : jsstring) (k : Z) :
  alphabetAt text k = false ->
  opt_between 0xDC00 (charCodeAt text k) 0xDFFF = false ->
  landing text k.
Proof.
  intros Ha Hl. split.
  - intros [_ H]. congruence.
  - intros i Hi H8. destruct (Z.le_gt_cases (i + runAt text i) k) as [|Hgt]; [assumption|].
    rewrite (runAt_members text i k) in Ha by lia. discriminate.
Qed.

Lemma landing_run_start (text : jsstring) (k : Z) :
  alphabetAt text (k - 1) = false -> alphabetAt text k = true -> landing text k.
Proof.
  intros Hprev Ha. split.
  - intros [_ H]. rewrite (alphabetAt_not_low _ _ Ha) in H. discriminate.
  - intros i Hi H8. destruct (Z.le_gt_cases (i + runAt text i) k) as [|Hgt]; [assumption|].
    rewrite (runAt_members text i (k - 1)) in Hprev by lia. discriminate.
Qed.

Lemma landing_short_run (text : jsstring) (s L k : Z) :
  maximalRun text s L -> L < MIN_PATTERN_LENGTH -> s <= k < s + L -> landing text k.
Proof.
  intros Hrun HL Hk. pose proof Hrun as (Hs & HL1 & Hin & Hbefore & Hafter). split.
  - intros [_ H]. rewrite (alphabetAt_not_low _ _ (Hin k Hk)) in H. discriminate.
  - intros i Hi H8. destruct (Z.le_gt_cases (i + runAt text i) k) as [|Hgt]; [assumption|].
    destruct (Z.le_gt_cases s i) as [Hsi|Hsi].
    + rewrite (runAt_maximalRun text s L i Hrun) in H8 by lia. lia.
    + rewrite (runAt_members text i (s - 1)) in Hbefore by lia. discriminate.
Qed.

(* ------------------------------------------------------------------------- *)
(** * Findings by offset *)
(* ------------------------------------------------------------------------- *)

Section Findings.

Variables cz em : Z -> bool.
Variable text : jsstring.

Abbreviation trace' n := (iter cz em text n initialState).
Abbreviation detect' := (detectHiddenCharacters cz em text).

Lemma singleCharacter_eq (st : ScanState) (cp : Z) :
  codePointAt text (s_i st) = Some cp ->
  singleCharacter cz em text st
  = match map_get allHiddenChars (keyAt text (s_i st)) with
    | Some info =>
        if suppressed cz em text (s_i st) cp then []
        else [singleFinding cp (s_i st) (s_line st)
                (s_i st - s_currentLineStartIndex st) info]
    | None => []
    end.
Proof.
  intros Hcp. unfold singleCharacter. fold (keyAt text (s_i st)). rewrite Hcp.
  destruct (map_get allHiddenChars (keyAt text (s_i st))) as [info|]; [|reflexivity].
  fold (suppressed cz em text (s_i st) cp).
  destruct (suppressed cz em text (s_i st) cp); reflexivity.
Qed.

(** A finding that starts at an offset where no run qualifies is the
    single-character finding of a registry entry that was not suppressed. *)
Lemma single_finding_inv (f : HiddenCharacterInfo) :
  In f detect' -> runAt text (index f) < MIN_PATTERN_LENGTH ->
  exists cp info ln col,
    codePointAt text (index f) = Some cp /\
    map_get allHiddenChars (keyAt text (index f)) = Some info /\
    suppressed cz em text (index f) cp = false /\
    f = singleFinding cp (index f) ln col info.
Proof.
  intros Hf Hshort. destruct (detect_cursor _ _ _ _ Hf) as (m & Hm & _ & Hin).
  rewrite <- Hm in Hshort. rewrite emitted_single in Hin by exact Hshort.
  destruct (codePointAt text (s_i (trace' m))) as [cp|] eqn:Hcp.
  - rewrite (singleCharacter_eq _ _ Hcp) in Hin. rewrite <- Hm.
    destruct (map_get allHiddenChars (keyAt text (s_i (trace' m)))) as [info|];
      [|destruct Hin].
    destruct (suppressed cz em text (s_i (trace' m)) cp) eqn:Es; [destruct Hin|].
    destruct Hin as [<-|[]]. exists cp, info. do 2 eexists.
    split; [exact Hcp|]. split; [reflexivity|]. split; [exact Es|reflexivity].
  - destruct (singleCharacter_cases cz em text (trace' m))
      as [E|(cp & info & Hcp' & _)]; [rewrite E in Hin; destruct Hin|congruence].
Qed.

(** A finding that starts at an offset where a run qualifies is the pattern
    finding of that run. *)
Lemma pattern_finding_inv (f : HiddenCharacterInfo) :
  In f detect' -> MIN_PATTERN_LENGTH <= runAt text (index f) ->
  category f = PATTERN_CATEGORY /\ codePoint f = -1 /\
  endIndex f = Some (index f + runAt text (index f) - 1) /\
  endLine f = Some (line f) /\
  (exists c, endColumn f = Some c).
Proof.
  intros Hf Hlong. destruct (detect_cursor _ _ _ _ Hf) as (m & Hm & _ & Hin).
  rewrite <- Hm in Hlong.
  destruct (emitted_pattern cz em text _ Hlong)
    as (g & E & Hi & Hl & Hc & Hcat & Hcp & Hei & Hel & Hec).
  rewrite E in Hin. destruct Hin as [<-|[]].
  rewrite Hi, Hl. repeat split; auto. eauto.
Qed.

(** The category tells the two kinds of findings apart. *)
Lemma finding_kind (f : HiddenCharacterInfo) :
  In f detect' ->
  (isPattern f /\ MIN_PATTERN_LENGTH <= runAt text (index f)) \/
  (~ isPattern f /\ runAt text (index f) < MIN_PATTERN_LENGTH).
Proof.
  intros Hf. destruct (Z.le_gt_cases MIN_PATTERN_LENGTH (runAt text (index f))) as [H|H].
  - left. split; [|exact H]. apply (pattern_finding_inv f Hf H).
  - right. split; [|exact H].
    destruct (single_finding_inv f Hf H) as (cp & info & ln & col & _ & Hinfo & _ & E).
    unfold isPattern. rewrite E. cbn [category singleFinding].
    eapply registry_not_pattern; eauto.
Qed.

(** The finding at a landing offset where no run qualifies. *)
Lemma single_finding_intro (k cp : Z) (info : CharInfo) :
  wellFormed text = true -> landing text k ->
  runAt text k < MIN_PATTERN_LENGTH ->
  codePointAt text k = Some cp ->
  map_get allHiddenChars (keyAt text k) = Some info ->
  suppressed cz em text k cp = false ->
  exists ln col,
    In (singleFinding cp k ln col info) detect'.
Proof.
  intros Hwf Hland Hshort Hcp Hinfo Hs.
  assert (Hk : 0 <= k < length text).
  { unfold codePointAt in Hcp. destruct (charCodeAt text k) as [u|] eqn:Eu; [|discriminate].
    eapply charCodeAt_Some; eauto. }
  destruct (visit cz em text k Hwf ltac:(lia) Hland) as (m & Hm).
  exists (s_line (trace' m)), (k - s_currentLineStartIndex (trace' m)).
  apply detect_In. exists m. split; [lia|].
  rewrite emitted_single by (rewrite Hm; exact Hshort).
  rewrite (singleCharacter_eq _ cp) by (rewrite Hm; exact Hcp).
  rewrite Hm, Hinfo, Hs. left. reflexivity.
Qed.

(** The finding of a qualifying run that starts at a landing offset. *)
Lemma pattern_finding_intro (k : Z) :
  wellFormed text = true -> landing text k -> 0 <= k ->
  MIN_PATTERN_LENGTH <= runAt text k ->
  exists f, In f detect' /\ index f = k /\ category f = PATTERN_CATEGORY /\
            endIndex f = Some (k + runAt text k - 1).
Proof.
  intros Hwf Hland Hk Hlong.
  destruct (visit cz em text k Hwf Hk Hland) as (m & Hm).
  rewrite <- Hm in Hlong.
  destruct (emitted_pattern cz em text _ Hlong)
    as (g & E & Hi & Hl & Hc & Hcat & Hcp & Hei & Hel & Hec).
  exists g. rewrite <- Hm. repeat split; auto.
  apply detect_In. exists m. split; [|rewrite E; left; reflexivity].
  unfold MIN_PATTERN_LENGTH in Hlong.
  assert (Ha : alphabetAt text (s_i (trace' m)) = true) by (apply runAt_pos; lia).
  apply alphabetAt_range in Ha. lia.
Qed.

(** No finding starts strictly inside the span of a jump of the cursor. *)
Lemma no_finding_inside (m : nat) (f : HiddenCharacterInfo) :
  In f detect' -> ~ (s_i (trace' m) < index f < nextIndex text (s_i (trace' m))).
Proof.
  intros Hf H. destruct (detect_cursor _ _ _ _ Hf) as (m' & Hm' & _).
  apply (no_cursor_between cz em text m m').
  cbn [iter]. rewrite step_cursor, Hm'. exact H.
Qed.

End Findings.

(* ------------------------------------------------------------------------- *)
(** * Termination *)
(* ------------------------------------------------------------------------- *)

Lemma loop_extra_fuel (cz em : Z -> bool) (text : jsstring) (extra : nat) :
  forall (fuel : nat) (st : ScanState),
    length text - s_i st <= Z.of_nat fuel ->
    loop cz em text (fuel + extra) st = loop cz em text fuel st.
Proof.
  induction fuel as [|fuel IH]; intros st Hfuel.
  - cbn [Nat.add loop]. destruct extra as [|extra]; [reflexivity|]. cbn [loop].
    destruct (Z.ltb_spec (s_i st) (length text)) as [Hlt|Hge]; [lia|reflexivity].
  - cbn [Nat.add loop].
    destruct (Z.ltb_spec (s_i st) (length text)) as [Hlt|Hge]; [|reflexivity].
    apply IH. pose proof (step_advances cz em text st). lia.
Qed.

Lemma patternLoop_outside (text : jsstring) (fuel : nat) (p : PatternState) :
  alphabetAt text (patternI p) = false -> patternLoop text fuel p = p.
Proof.
  intros Ha. destruct fuel as [|fuel]; [reflexivity|]. cbn [patternLoop].
  pose proof (key_alphabet text (patternI p)) as G. unfold keyAt in G. rewrite G, Ha.
  destruct (patternI p <? length text); reflexivity.
Qed.

Lemma patternLoop_extra_fuel (text : jsstring) (st : ScanState) (extra : nat) :
  patternLoop text (List.length text + extra) (patternStart st)
  = patternLoop text (List.length text) (patternStart st).
Proof.
  destruct (alphabetAt text (patternI (patternStart st))) eqn:Ea.
  - pose proof (alphabetAt_range _ _ Ea) as Hr. unfold length in Hr.
    rewrite !patternLoop_run; [reflexivity| |]; unfold length; lia.
  - rewrite !patternLoop_outside by exact Ea. reflexivity.
Qed.

(** C9: the scan is total. With the fuel the entry point hands to the outer
    loop, the loop ends because its cursor has reached the end of the text
    (for every text: empty, ending inside a run, with isolated surrogates),
    and more fuel changes nothing; every iteration moves the cursor strictly
    forward, to [nextIndex]: past the run in the pattern branch, by one or
    two units in the single-character branch; the inner loop does not depend
    on its fuel either. *)
Theorem scan_total (cz em : Z -> bool) (text : jsstring) :
  let final := loop cz em text (List.length text) initialState in
  length text <= s_i final /\
  detectHiddenCharacters cz em text = s_results final /\
  (forall extra : nat,
     loop cz em text (List.length text + extra) initialState = final) /\
  (forall st : ScanState,
     s_i st < s_i (step cz em text st) /\
     s_i (step cz em text st) = nextIndex text (s_i st)) /\
  (forall i : Z,
     nextIndex text i = i + runAt text i /\ MIN_PATTERN_LENGTH <= runAt text i \/
     nextIndex text i = i + 1 \/ nextIndex text i = i + 2) /\
  (forall (st : ScanState) (extra : nat),
     patternLoop text (List.length text + extra) (patternStart st)
     = patternLoop text (List.length text) (patternStart st)).
Proof.
  cbv zeta. split; [|split; [|split; [|split; [|split]]]].
  - destruct (loop_iter cz em text (List.length text) initialState) as (k & -> & Hend & _);
      [unfold length; simpl; lia|exact Hend].
  - reflexivity.
  - intros extra. apply loop_extra_fuel. unfold length. simpl. lia.
  - intros st. split; [apply step_advances|apply step_cursor].
  - intros i. unfold nextIndex.
    destruct (Z.leb_spec MIN_PATTERN_LENGTH (runAt text i)) as [H|H]; [left; auto|].
    right. destruct (opt_gtb (codePointAt text i) 0xFFFF); auto.
  - intros st extra. apply patternLoop_extra_fuel.
Qed.

(* ------------------------------------------------------------------------- *)
(** * Order and shape of the findings *)
(* ------------------------------------------------------------------------- *)

(** C8: the list returned by the scan is sorted by start index, strictly
    ascending: every finding starts before all the findings after it. *)
Theorem findings_strictly_ascending (cz em : Z -> bool) (text : jsstring) :
  StronglySorted ascending (detectHiddenCharacters cz em text).
Proof. apply detect_sorted. Qed.

(** C7: in the list returned by the scan, [endIndex], [endLine] and
    [endColumn] are all present on the findings of category
    BinaryEncodingPattern and all absent on every other finding. *)
Theorem end_fields_iff_pattern (cz em : Z -> bool) (text : jsstring) :
  Forall (fun f => (isPattern f /\ endFieldsPresent f) \/
                   (~ isPattern f /\ endFieldsAbsent f))
         (detectHiddenCharacters cz em text).
Proof.
  apply Forall_forall. intros f Hf.
  destruct (finding_kind cz em text f Hf) as [[Hp Hlong]|[Hp Hshort]].
  - left. split; [exact Hp|].
    destruct (pattern_finding_inv cz em text f Hf Hlong) as (_ & _ & Hi & Hl & (c & Hc)).
    unfold endFieldsPresent. rewrite Hi, Hl, Hc. repeat split; discriminate.
  - right. split; [exact Hp|].
    destruct (single_finding_inv cz em text f Hf Hshort)
      as (cp & info & ln & col & _ & _ & _ & E).
    rewrite E. repeat split; reflexivity.
Qed.

(** A pattern finding never ends on a later line than it starts. *)
Lemma pattern_on_one_line (cz em : Z -> bool) (text : jsstring) :
  Forall (fun f => isPattern f -> endLine f = Some (line f))
         (detectHiddenCharacters cz em text).
Proof.
  apply Forall_forall. intros f Hf Hp.
  destruct (finding_kind cz em text f Hf) as [[_ Hlong]|[Hnp _]]; [|contradiction].
  apply (pattern_finding_inv cz em text f Hf Hlong).
Qed.

(* ------------------------------------------------------------------------- *)
(** * The registry and the alphabet at particular code points *)
(* ------------------------------------------------------------------------- *)

(** C3: the registry of [hiddenCharacters.ts] holds the four zero-width
    characters U+200B, U+200C, U+200D and U+FEFF in the Zero-Width category,
    but has no entry for the line separator U+2028, the paragraph separator
    U+2029 and the Mongolian vowel separator U+180E: the lookup used by the
    scanner answers [undefined] for them, and a text made of one of them is
    scanned without any finding. *)
Theorem separators_missing_from_registry :
  (map_get allHiddenChars (Some [0x200B]) = Some zeroWidthInfo /\
   map_get allHiddenChars (Some [0x200C]) = Some zeroWidthInfo /\
   map_get allHiddenChars (Some [0x200D]) = Some zeroWidthInfo /\
   map_get allHiddenChars (Some [0xFEFF]) = Some zeroWidthInfo) /\
  (map_get allHiddenChars (Some [0x2028]) = None /\
   map_get allHiddenChars (Some [0x2029]) = None /\
   map_get allHiddenChars (Some [0x180E]) = None) /\
  (forall cz em : Z -> bool,
     detectHiddenCharacters cz em [0x2028] = [] /\
     detectHiddenCharacters cz em [0x2029] = [] /\
     detectHiddenCharacters cz em [0x180E] = []).
Proof.
  split; [|split].
  - repeat split; vm_compute; reflexivity.
  - repeat split; vm_compute; reflexivity.
  - intros cz em. repeat split; vm_compute; reflexivity.
Qed.

(** C2: a newline is not a member of the alphabet, so it ends the run like
    any other unit: four zero width spaces, a newline and four more zero
    width spaces are scanned as eight Zero-Width findings, four on line 1 and
    four on line 2, and no pattern finding; and in no text does a pattern
    finding end on another line than the one it starts on. *)
Theorem newline_ends_the_run :
  inAlphabet 0x0A = false /\
  (forall cz em : Z -> bool,
     map summary (detectHiddenCharacters cz em splitRun)
     = [ (0, 1, 0, ZERO_WIDTH_CATEGORY, None); (1, 1, 1, ZERO_WIDTH_CATEGORY, None);
         (2, 1, 2, ZERO_WIDTH_CATEGORY, None); (3, 1, 3, ZERO_WIDTH_CATEGORY, None);
         (5, 2, 0, ZERO_WIDTH_CATEGORY, None); (6, 2, 1, ZERO_WIDTH_CATEGORY, None);
         (7, 2, 2, ZERO_WIDTH_CATEGORY, None); (8, 2, 3, ZERO_WIDTH_CATEGORY, None) ]) /\
  (forall (cz em : Z -> bool) (text : jsstring),
     Forall (fun f => isPattern f -> endLine f = Some (line f))
            (detectHiddenCharacters cz em text)).
Proof.
  split; [reflexivity|]. split.
  - intros cz em. vm_compute. reflexivity.
  - apply pattern_on_one_line.
Qed.

(** C10: U+2062 and U+2064 are members of the alphabet and have no registry
    entry; an occurrence of one of them in a maximal run of fewer than 8
    alphabet members gets no finding: none starts at its offset and no
    pattern finding spans it. *)
Theorem invisible_operators_unreported
  (cz em : Z -> bool) (text : jsstring) (k u s L : Z) :
  charCodeAt text k = Some u -> u = 0x2062 \/ u = 0x2064 ->
  maximalRun text s L -> s <= k < s + L -> L < MIN_PATTERN_LENGTH ->
  set_has BINARY_ENCODING_CHARS (Some [u]) = true /\
  map_get allHiddenChars (Some [u]) = None /\
  (forall f, In f (detectHiddenCharacters cz em text) ->
             index f <> k /\ ~ spanMeets f k 1).
Proof.
  intros Hu Hcases Hrun Hk HL.
  assert (Hset : set_has BINARY_ENCODING_CHARS (Some [u]) = true)
    by (destruct Hcases; subst u; reflexivity).
  assert (Hreg : map_get allHiddenChars (Some [u]) = None)
    by (destruct Hcases; subst u; vm_compute; reflexivity).
  split; [exact Hset|]. split; [exact Hreg|].
  assert (Hshort : runAt text k < MIN_PATTERN_LENGTH).
  { rewrite (runAt_maximalRun text s L k Hrun) by lia. lia. }
  assert (Ha : alphabetAt text k = true) by (apply Hrun; lia).
  destruct (alphabetAt_codePoint _ _ Ha) as (u' & Hu' & _ & _ & Hkey & _).
  assert (u' = u) by congruence. subst u'.
  intros f Hf. split.
  - intros E. rewrite <- E in Hshort.
    destruct (single_finding_inv cz em text f Hf Hshort)
      as (cp & info & ln & col & _ & Hinfo & _).
    rewrite E, Hkey, Hreg in Hinfo. discriminate.
  - intros (e & He & Hi & Hke).
    destruct (finding_kind cz em text f Hf) as [[_ Hlong]|[_ Hshort']].
    + destruct (pattern_finding_inv cz em text f Hf Hlong) as (_ & _ & He' & _).
      rewrite He in He'. inversion He'; subst e.
      destruct (landing_short_run text s L k Hrun HL Hk) as [_ Hjump].
      destruct (Z.eq_dec (index f) k) as [E|Hne]; [rewrite E in Hlong; lia|].
      destruct (detect_cursor cz em text f Hf) as (m & Hm & _).
      pose proof (trace_cursor_ge cz em text m) as Hge.
      specialize (Hjump (index f) ltac:(lia) Hlong). lia.
    + destruct (single_finding_inv cz em text f Hf Hshort')
        as (cp & info & ln & col & _ & _ & _ & E).
      rewrite E in He. discriminate.
Qed.

(* ------------------------------------------------------------------------- *)
(** * Surrogate pairs *)
(* ------------------------------------------------------------------------- *)

Lemma fromCodePoint_supplementary (cp hi lo : Z) :
  0xFFFF < cp <= 0x10FFFF -> fromCodePoint cp = [hi; lo] ->
  isHighSurrogate hi = true /\ isLowSurrogate lo = true /\
  (hi - 0xD800) * 0x400 + (lo - 0xDC00) + 0x10000 = cp.
Proof.
  intros Hcp. unfold fromCodePoint.
  destruct (Z.leb_spec cp 0xFFFF) as [Hle|Hgt]; [lia|].
  intros E. inversion E as [[Ehi Elo]]. clear E.
  pose proof (Z.div_mod (cp - 0x10000) 0x400 ltac:(lia)) as Hdm.
  pose proof (Z.mod_pos_bound (cp - 0x10000) 0x400 ltac:(lia)) as Hm.
  assert (Hd : 0 <= (cp - 0x10000) / 0x400 < 0x400).
  { split; [apply Z.div_pos; lia|apply Z.div_lt_upper_bound; lia]. }
  unfold isHighSurrogate, isLowSurrogate.
  rewrite !andb_true_iff, !Z.leb_le. lia.
Qed.

Lemma high_not_alphabet (u : Z) : isHighSurrogate u = true -> inAlphabet u = false.
Proof.
  intros H. destruct (inAlphabet u) eqn:Ea; [|reflexivity].
  destruct (inAlphabet_plain _ Ea) as (Hh & _). congruence.
Qed.

Lemma high_not_low (u : Z) : isHighSurrogate u = true -> isLowSurrogate u = false.
Proof.
  unfold isHighSurrogate, isLowSurrogate. rewrite andb_true_iff, !Z.leb_le.
  intros [H1 H2]. apply andb_false_iff. left. apply Z.leb_gt. lia.
Qed.

(** The supplementary members of the registry: the deprecated tag characters
    and the variation selectors 17 to 256. *)
Lemma supplementary_registry_members :
  (forall n : nat, (n < 128)%nat ->
     option_map info_category
       (map_get allHiddenChars (Some (fromCodePoint (0xE0000 + Z.of_nat n))))
     = Some DEPRECATED_TAG_CATEGORY) /\
  (forall n : nat, (n < 240)%nat ->
     option_map info_category
       (map_get allHiddenChars (Some (fromCodePoint (0xE0100 + Z.of_nat n))))
     = Some VARIATION_SELECTOR_CATEGORY).
Proof.
  assert (Htag : forallb (fun n =>
            match map_get allHiddenChars (Some (fromCodePoint (0xE0000 + Z.of_nat n))) with
            | Some info => String.eqb (info_category info) DEPRECATED_TAG_CATEGORY
            | None => false
            end) (seq 0 128) = true) by (vm_compute; reflexivity).
  assert (Hvs : forallb (fun n =>
            match map_get allHiddenChars (Some (fromCodePoint (0xE0100 + Z.of_nat n))) with
            | Some info => String.eqb (info_category info) VARIATION_SELECTOR_CATEGORY
            | None => false
            end) (seq 0 240) = true) by (vm_compute; reflexivity).
  rewrite forallb_forall in Htag, Hvs. split; intros n Hn.
  - specialize (Htag n ltac:(apply in_seq; lia)).
    destruct (map_get allHiddenChars _) as [info|]; [|discriminate].
    apply String.eqb_eq in Htag. simpl. congruence.
  - specialize (Hvs n ltac:(apply in_seq; lia)).
    destruct (map_get allHiddenChars _) as [info|]; [|discriminate].
    apply String.eqb_eq in Hvs. simpl. congruence.
Qed.

(** C6: a supplementary-plane member of the registry (U+E0100 for instance)
    whose two units sit at offsets [k] and [k + 1] is reported by one finding
    that starts at [k] and carries the full scalar value, with the category
    and message of its registry entry and no end fields; the cursor goes from
    [k] to [k + 2], and no finding starts at the low surrogate. *)
Theorem surrogate_pair_reported_once
  (cz em : Z -> bool) (text : jsstring) (k cp hi lo : Z) (info : CharInfo) :
  wellFormed text = true ->
  0xFFFF < cp <= 0x10FFFF ->
  map_get allHiddenChars (Some (fromCodePoint cp)) = Some info ->
  fromCodePoint cp = [hi; lo] ->
  charCodeAt text k = Some hi -> charCodeAt text (k + 1) = Some lo ->
  exists f,
    In f (detectHiddenCharacters cz em text) /\
    index f = k /\ codePoint f = cp /\
    category f = info_category info /\ message f = info_message info /\
    endFieldsAbsent f /\
    (forall g, In g (detectHiddenCharacters cz em text) -> index g = k -> g = f) /\
    (forall g, In g (detectHiddenCharacters cz em text) -> index g <> k + 1) /\
    (exists n, s_i (iter cz em text n initialState) = k /\
               s_i (iter cz em text (S n) initialState) = k + 2).
Proof.
  intros Hwf Hcp Hinfo Hpair Hhi Hlo.
  destruct (fromCodePoint_supplementary cp hi lo Hcp Hpair) as (Hh & Hl & Hval).
  assert (Hcpat : codePointAt text k = Some cp).
  { rewrite (codePointAt_pair _ _ _ _ Hhi Hlo Hh Hl). f_equal. exact Hval. }
  assert (Hbig : opt_gtb (codePointAt text k) 0xFFFF = true).
  { rewrite Hcpat. simpl. apply Z.ltb_lt. lia. }
  assert (Hkey : keyAt text k = Some (fromCodePoint cp)).
  { unfold keyAt. rewrite Hbig, Hcpat. reflexivity. }
  assert (Ha : alphabetAt text k = false).
  { unfold alphabetAt. rewrite Hhi. apply high_not_alphabet. exact Hh. }
  assert (Hrun : runAt text k = 0) by (apply runAt_zero; exact Ha).
  assert (Hland : landing text k).
  { apply landing_not_alphabet; [exact Ha|]. rewrite Hhi. apply high_not_low. exact Hh. }
  assert (Hk : 0 <= k < length text) by (eapply charCodeAt_Some; eauto).
  assert (Hs : suppressed cz em text k cp = false).
  { unfold suppressed.
    destruct (Z.eqb_spec cp 0xFE0F) as [E|_]; [lia|].
    destruct (Z.eqb_spec cp 0x200D) as [E|_]; [lia|]. reflexivity. }
  assert (Hnext : nextIndex text k = k + 2).
  { unfold nextIndex. rewrite Hrun, Hbig. reflexivity. }
  destruct (single_finding_intro cz em text k cp info Hwf Hland
              ltac:(rewrite Hrun; reflexivity) Hcpat ltac:(rewrite Hkey; exact Hinfo) Hs)
    as (ln & col & Hf).
  destruct (visit cz em text k Hwf ltac:(lia) Hland) as (n & Hn).
  exists (singleFinding cp k ln col info).
  split; [exact Hf|]. repeat split.
  - intros g Hg E. apply (detect_unique cz em text g _ Hg Hf). exact E.
  - intros g Hg E. apply (no_finding_inside cz em text n g Hg).
    rewrite Hn, Hnext, E. lia.
  - exists n. split; [exact Hn|]. cbn [iter]. rewrite step_cursor, Hn. exact Hnext.
Qed.

(* ------------------------------------------------------------------------- *)
(** * The two heuristics *)
(* ------------------------------------------------------------------------- *)

Lemma keyAt_bmp (text : jsstring) (k u : Z) :
  charCodeAt text k = Some u -> isHighSurrogate u = false -> u <= 0xFFFF ->
  codePointAt text k = Some u /\ keyAt text k = Some [u].
Proof.
  intros Hu Hh Hle. pose proof (codePointAt_not_high _ _ _ Hu Hh) as Hcp.
  split; [exact Hcp|]. unfold keyAt. rewrite Hcp. simpl.
  destruct (Z.ltb_spec 0xFFFF u) as [H|H]; [lia|].
  unfold charAt. rewrite Hu. reflexivity.
Qed.

Lemma skipVS16_previousBase (cz : Z -> bool) (text : jsstring) (k : Z) :
  skipVS16 cz text k
  = match previousBase text k with
    | Some c => negb (c =? 0) && negb (cz c)
    | None => false
    end.
Proof.
  unfold skipVS16, previousBase.
  destruct (getPreviousBaseCharStartIndex text k =? -1); [reflexivity|]. cbn [negb].
  destruct (codePointAt text (getPreviousBaseCharStartIndex text k)) as [c|];
    [|reflexivity].
  simpl. destruct (c =? 0); reflexivity.
Qed.

(** ** The code's helper finds the preceding base scalar value *)

Lemma scalarBefore_None (text : jsstring) (j : Z) :
  charCodeAt text (j - 1) = None -> scalarBefore text j = None.
Proof. unfold scalarBefore. intros ->. reflexivity. Qed.

Lemma pair_value_supplementary (h u : Z) :
  isHighSurrogate h = true -> isLowSurrogate u = true ->
  0x10000 <= (h - 0xD800) * 0x400 + (u - 0xDC00) + 0x10000.
Proof. unfold isHighSurrogate, isLowSurrogate. lia. Qed.

(** A VS16 is a scalar value by itself. *)
Lemma scalarBefore_vs16 (text : jsstring) (j u : Z) :
  charCodeAt text (j - 1) = Some u ->
  (scalarBefore text j = Some 0xFE0F <-> u = 0xFE0F).
Proof.
  intros Hu. unfold scalarBefore. rewrite Hu.
  destruct (charCodeAt text (j - 2)) as [h|].
  - destruct (isHighSurrogate h) eqn:Eh, (isLowSurrogate u) eqn:El; cbn [andb];
      try (split; congruence).
    pose proof (pair_value_supplementary h u Eh El) as Hge.
    split; [intros E; inversion E; lia|].
    intros ->. discriminate.
  - split; congruence.
Qed.

(** Step 2 of the helper: from the unit at [j - 1], whose successor is not a
    low surrogate, it returns the index at which the scalar value before [j]
    starts. *)
Lemma pairStart_scalarBefore (text : jsstring) (j v : Z) :
  charCodeAt text (j - 1) = Some v ->
  opt_between 0xDC00 (charCodeAt text j) 0xDFFF = false ->
  codePointAt text
    (if opt_between 0xDC00 (charCodeAt text (j - 1)) 0xDFFF && (0 <? j - 1)
        && opt_between 0xD800 (charCodeAt text (j - 1 - 1)) 0xDBFF
     then j - 1 - 1 else j - 1)
  = scalarBefore text j.
Proof.
  intros Hv Hnext. unfold scalarBefore. rewrite Hv.
  replace (j - 2) with (j - 1 - 1) by lia.
  assert (Hsingle : codePointAt text (j - 1) = Some v).
  { apply codePointAt_next_not_low; [exact Hv|].
    replace (j - 1 + 1) with j by lia. exact Hnext. }
  cbn [opt_between]. change ((0xDC00 <=? v) && (v <=? 0xDFFF)) with (isLowSurrogate v).
  destruct (charCodeAt text (j - 1 - 1)) as [h|] eqn:Hh.
  - cbn [opt_between]. change ((0xD800 <=? h) && (h <=? 0xDBFF)) with (isHighSurrogate h).
    pose proof (charCodeAt_Some _ _ _ Hh) as Hrange.
    destruct (Z.ltb_spec 0 (j - 1)) as [_|Hle]; [|lia].
    rewrite andb_true_r, (andb_comm (isLowSurrogate v)).
    destruct (isHighSurrogate h && isLowSurrogate v) eqn:E; [|exact Hsingle].
    apply andb_true_iff in E. destruct E as [Eh El].
    apply codePointAt_pair; [exact Hh| |exact Eh|exact El].
    replace (j - 1 - 1 + 1) with (j - 1) by lia. exact Hv.
  - cbn [opt_between]. rewrite andb_false_r. exact Hsingle.
Qed.

(** The code point read at the index the helper returns is the nearest
    preceding base scalar value, whenever the unit at [k] itself is not a
    low surrogate (it is a VS16 or a joiner where the heuristics run). *)
Lemma previousBase_precedingBase (text : jsstring) (k : Z) :
  opt_between 0xDC00 (charCodeAt text k) 0xDFFF = false ->
  previousBase text k = precedingBase text k.
Proof.
  intros Hk. unfold previousBase, getPreviousBaseCharStartIndex, precedingBase.
  destruct (Z.leb_spec k 0) as [Hle|Hgt].
  - rewrite scalarBefore_None; [reflexivity|]. apply charCodeAt_None. lia.
  - cbv zeta. destruct (Z.leb_spec 0 (k - 1)) as [_|Hneg]; [|lia]. cbn [andb].
    destruct (charCodeAt text (k - 1)) as [u|] eqn:Hu.
    + pose proof (charCodeAt_Some _ _ _ Hu) as Hrange.
      destruct (Z.eqb_spec u 0xFE0F) as [Eu|Eu].
      * subst u.
        rewrite (codePointAt_not_high _ _ _ Hu eq_refl).
        rewrite (proj2 (scalarBefore_vs16 text k _ Hu) eq_refl).
        cbn [opt_eqb Z.eqb Pos.eqb andb].
        destruct (Z.ltb_spec (k - 1 - 1) 0) as [Hfirst|Hmore].
        -- cbn [Z.eqb]. rewrite scalarBefore_None; [reflexivity|].
           apply charCodeAt_None. lia.
        -- destruct (charCodeAt_in_range text (k - 1 - 1) ltac:(lia)) as (v & Hv).
           assert (Hnext : opt_between 0xDC00 (charCodeAt text (k - 1)) 0xDFFF = false)
             by (rewrite Hu; reflexivity).
           pose proof (pairStart_scalarBefore text (k - 1) v Hv Hnext) as Hstep.
           match goal with |- (if ?i =? -1 then _ else _) = _ =>
             assert (Hi : i <> -1) end.
           { destruct (Z.ltb_spec 0 (k - 1 - 1)) as [Hpos|Hnot].
             - destruct (_ && _ && _); lia.
             - rewrite andb_false_r. cbn [andb]. lia. }
           apply Z.eqb_neq in Hi. rewrite Hi. exact Hstep.
      * assert (Hno : opt_eqb (codePointAt text (k - 1)) 0xFE0F = false).
        { rewrite (codePointAt_next_not_low _ _ _ Hu)
            by (replace (k - 1 + 1) with k by lia; exact Hk).
          apply Z.eqb_neq. exact Eu. }
        rewrite Hno.
        pose proof (pairStart_scalarBefore text k u Hu Hk) as Hstep.
        cbn [andb].
        match goal with |- (if ?i =? -1 then _ else _) = _ =>
          assert (Hi : i <> -1) end.
        { destruct (Z.ltb_spec 0 (k - 1)) as [Hpos|Hnot].
          - destruct (_ && _ && _); lia.
          - rewrite andb_false_r. cbn [andb]. lia. }
        apply Z.eqb_neq in Hi. rewrite Hi, Hstep.
        destruct (scalarBefore text k) as [c|] eqn:Hc; [|reflexivity].
        destruct (Z.eqb_spec c 0xFE0F) as [Ec|_]; [|reflexivity].
        subst c. apply (scalarBefore_vs16 text k u Hu) in Hc. contradiction.
    + rewrite (scalarBefore_None text k Hu).
      assert (Hcp : codePointAt text (k - 1) = None)
        by (unfold codePointAt; rewrite Hu; reflexivity).
      rewrite Hcp. cbn [opt_eqb andb]. rewrite Hu. cbn [opt_between andb].
      destruct (Z.eqb_spec (k - 1) (-1)) as [_|_]; [reflexivity|exact Hcp].
Qed.


(** C4: for a VS16 (U+FE0F) at offset [k] whose nearest preceding base
    scalar value is [c] (the scalar value before [k], after skipping back
    over one VS16 if there is one, a surrogate pair counting as one scalar
    value): when [c] is not a control or separator character no finding
    starts at [k]; when it is one, a Variation Selector finding for U+FE0F
    starts at [k]. U+0000 is a control character. *)
Theorem vs16_suppression (cz em : Z -> bool) (text : jsstring) (k c : Z) :
  cz 0 = true ->
  wellFormed text = true ->
  charCodeAt text k = Some 0xFE0F ->
  precedingBase text k = Some c ->
  (cz c = false ->
     forall f, In f (detectHiddenCharacters cz em text) -> index f <> k) /\
  (cz c = true ->
     exists f, In f (detectHiddenCharacters cz em text) /\ index f = k /\
               category f = VARIATION_SELECTOR_CATEGORY /\ codePoint f = 0xFE0F /\
               endFieldsAbsent f).
Proof.
  intros Hnul Hwf Hk Hbase.
  assert (Hprev : previousBase text k = Some c).
  { rewrite previousBase_precedingBase; [exact Hbase|]. rewrite Hk. reflexivity. }
  destruct (keyAt_bmp text k 0xFE0F Hk eq_refl ltac:(lia)) as (Hcp & Hkey).
  assert (Ha : alphabetAt text k = false) by (unfold alphabetAt; rewrite Hk; reflexivity).
  assert (Hrun : runAt text k = 0) by (apply runAt_zero; exact Ha).
  assert (Hsup : suppressed cz em text k 0xFE0F = negb (c =? 0) && negb (cz c)).
  { unfold suppressed. cbn [Z.eqb Pos.eqb]. rewrite skipVS16_previousBase, Hprev.
    reflexivity. }
  split.
  - intros Hc f Hf E.
    assert (Hshort : runAt text (index f) < MIN_PATTERN_LENGTH)
      by (rewrite E, Hrun; reflexivity).
    destruct (single_finding_inv cz em text f Hf Hshort)
      as (cp & info & ln & col & Hcp' & _ & Hs & _).
    rewrite E, Hcp in Hcp'. inversion Hcp'; subst cp.
    rewrite E, Hsup, Hc in Hs.
    destruct (Z.eqb_spec c 0) as [E0|_]; [congruence|discriminate].
  - intros Hc.
    assert (Hland : landing text k).
    { apply landing_not_alphabet; [exact Ha|]. rewrite Hk. reflexivity. }
    destruct (single_finding_intro cz em text k 0xFE0F variationSelectorInfo Hwf Hland
                ltac:(rewrite Hrun; reflexivity) Hcp
                ltac:(rewrite Hkey; vm_compute; reflexivity)
                ltac:(rewrite Hsup, Hc, andb_false_r; reflexivity))
      as (ln & col & Hf).
    eexists. split; [exact Hf|]. repeat split.
Qed.

Lemma skipZWJ_eq (cz em : Z -> bool) (text : jsstring) (k : Z) :
  skipZWJ cz em text k
  = match previousBase text k with
    | Some c => negb (c =? 0) && em c
    | None => false
    end
    && match codePointAt text (k + 1) with
       | Some n => negb (n =? 0) && ((n =? 0xFE0F) || negb (cz n))
       | None => false
       end.
Proof.
  unfold skipZWJ, previousBase. f_equal.
  - destruct (getPreviousBaseCharStartIndex text k =? -1); [reflexivity|]. cbn [negb].
    destruct (codePointAt text (getPreviousBaseCharStartIndex text k)) as [c|];
      [|reflexivity].
    simpl. destruct (c =? 0); reflexivity.
  - destruct (Z.ltb_spec (k + 1) (length text)) as [Hlt|Hge].
    + destruct (codePointAt text (k + 1)) as [n|]; [|reflexivity].
      simpl. destruct (n =? 0); reflexivity.
    + assert (E : charCodeAt text (k + 1) = None) by (apply charCodeAt_None; lia).
      unfold codePointAt. rewrite E. reflexivity.
Qed.

(** On a joiner, the value of [skipDiagnostic] is the conjunction of the
    conditions (a) and (b) of the specification. *)
Lemma skipZWJ_joinsEmoji (cz em : Z -> bool) (text : jsstring) (k : Z) :
  cz 0 = true -> em 0 = false ->
  charCodeAt text k = Some 0x200D ->
  (skipZWJ cz em text k = true <-> joinsEmoji cz em text k).
Proof.
  intros Hcz Hem Hk. rewrite skipZWJ_eq. unfold joinsEmoji.
  rewrite previousBase_precedingBase by (rewrite Hk; reflexivity).
  rewrite andb_true_iff.
  match goal with |- ?A /\ ?C <-> ?B /\ ?D =>
    cut ((A <-> B) /\ (C <-> D)); [tauto|split] end.
  - destruct (precedingBase text k) as [c|].
    + rewrite andb_true_iff, negb_true_iff, Z.eqb_neq. split.
      * intros [_ H]. exists c. auto.
      * intros (c' & E & H). inversion E; subst c'. split; [|exact H].
        intros ->. congruence.
    + split; [discriminate|]. intros (c & E & _). discriminate.
  - destruct (codePointAt text (k + 1)) as [n|].
    + rewrite andb_true_iff, orb_true_iff, !negb_true_iff, Z.eqb_neq, Z.eqb_eq. split.
      * intros [_ H]. exists n. auto.
      * intros (n' & E & H). inversion E; subst n'. split; [|exact H].
        intros ->. destruct H as [H|H]; [discriminate|congruence].
    + split; [discriminate|]. intros (n & E & _). discriminate.
Qed.

(** The joiner at [k], in a run too short to qualify: its finding is pushed
    exactly when [skipZWJ] is false. *)
Lemma joiner_finding (cz em : Z -> bool) (text : jsstring) (k s L : Z) :
  wellFormed text = true ->
  charCodeAt text k = Some 0x200D ->
  maximalRun text s L -> s <= k < s + L -> L < MIN_PATTERN_LENGTH ->
  (skipZWJ cz em text k = true ->
     forall f, In f (detectHiddenCharacters cz em text) -> index f <> k) /\
  (skipZWJ cz em text k = false ->
     exists f, In f (detectHiddenCharacters cz em text) /\ index f = k /\
               category f = ZERO_WIDTH_CATEGORY /\ codePoint f = 0x200D /\
               endFieldsAbsent f).
Proof.
  intros Hwf Hk Hrun Hin HL.
  destruct (keyAt_bmp text k 0x200D Hk eq_refl ltac:(lia)) as (Hcp & Hkey).
  assert (Hshort : runAt text k < MIN_PATTERN_LENGTH).
  { rewrite (runAt_maximalRun text s L k Hrun) by lia. lia. }
  assert (Hsup : suppressed cz em text k 0x200D = skipZWJ cz em text k) by reflexivity.
  split.
  - intros Hskip f Hf E. rewrite <- E in Hshort.
    destruct (single_finding_inv cz em text f Hf Hshort)
      as (cp & info & ln & col & Hcp' & _ & Hs & _).
    rewrite E, Hcp in Hcp'. inversion Hcp'; subst cp.
    rewrite E, Hsup, Hskip in Hs. discriminate.
  - intros Hskip.
    destruct (single_finding_intro cz em text k 0x200D zeroWidthInfo Hwf
                (landing_short_run text s L k Hrun HL Hin) Hshort Hcp
                ltac:(rewrite Hkey; vm_compute; reflexivity)
                ltac:(rewrite Hsup; exact Hskip))
      as (ln & col & Hf).
    eexists. split; [exact Hf|]. repeat split.
Qed.

(** C5 (amended): for a ZWJ (U+200D) at offset [k] in a maximal run of
    fewer than 8 alphabet members (so that it reaches single-character
    classification): no finding starts at [k] if and only if (a) the nearest
    preceding base scalar value has the Emoji or Emoji_Modifier_Base
    property and (b) the scalar value right after the joiner is VS16 or is
    not a control or separator character; otherwise a Zero-Width finding for
    U+200D starts at [k], in particular when the preceding base scalar value
    has neither property, as a letter has. U+0000 is a control character
    without the Emoji properties. *)
Theorem zwj_suppression (cz em : Z -> bool) (text : jsstring) (k s L : Z) :
  cz 0 = true -> em 0 = false ->
  wellFormed text = true ->
  charCodeAt text k = Some 0x200D ->
  maximalRun text s L -> s <= k < s + L -> L < MIN_PATTERN_LENGTH ->
  ((forall f, In f (detectHiddenCharacters cz em text) -> index f <> k)
   <-> joinsEmoji cz em text k) /\
  (~ joinsEmoji cz em text k ->
     exists f, In f (detectHiddenCharacters cz em text) /\ index f = k /\
               category f = ZERO_WIDTH_CATEGORY /\ codePoint f = 0x200D /\
               endFieldsAbsent f) /\
  ((forall c, precedingBase text k = Some c -> em c = false) ->
     exists f, In f (detectHiddenCharacters cz em text) /\ index f = k /\
               category f = ZERO_WIDTH_CATEGORY /\ codePoint f = 0x200D /\
               endFieldsAbsent f).
Proof.
  intros Hcz Hem Hwf Hk Hrun Hin HL.
  destruct (joiner_finding cz em text k s L Hwf Hk Hrun Hin HL) as [Hyes Hno].
  pose proof (skipZWJ_joinsEmoji cz em text k Hcz Hem Hk) as Hiff.
  assert (Hkeep : ~ joinsEmoji cz em text k ->
            exists f, In f (detectHiddenCharacters cz em text) /\ index f = k /\
                      category f = ZERO_WIDTH_CATEGORY /\ codePoint f = 0x200D /\
                      endFieldsAbsent f).
  { intros Hnot. apply Hno. destruct (skipZWJ cz em text k); [|reflexivity].
    exfalso. apply Hnot, Hiff. reflexivity. }
  split; [|split].
  - split.
    + intros Hnone. apply Hiff. destruct (skipZWJ cz em text k) eqn:E; [reflexivity|].
      destruct (Hno eq_refl) as (f & Hf & Hi & _). exfalso. exact (Hnone f Hf Hi).
    + intros Hj. apply Hyes, Hiff, Hj.
  - exact Hkeep.
  - intros Hplain. apply Hkeep. intros [(c & Hc & Hemc) _].
    rewrite (Hplain c Hc) in Hemc. discriminate.
Qed.

(* ------------------------------------------------------------------------- *)
(** * Run absorption *)
(* ------------------------------------------------------------------------- *)

Section RunAbsorption.

Variables cz em : Z -> bool.
Variable text : jsstring.
Hypothesis Hwf : wellFormed text = true.
Variables s L : Z.
Hypothesis Hrun : maximalRun text s L.

Lemma span_outside (g : HiddenCharacterInfo) :
  In g (detectHiddenCharacters cz em text) -> spanMeets g s L ->
  MIN_PATTERN_LENGTH <= runAt text (index g) /\ s <= index g < s + L.
Proof.
  intros Hg (e & He & Hi & Hse).
  destruct (finding_kind cz em text g Hg) as [[_ Hlong]|[_ Hshort]].
  - split; [exact Hlong|].
    destruct (pattern_finding_inv cz em text g Hg Hlong) as (_ & _ & He' & _).
    rewrite He in He'. inversion He'; subst e.
    destruct (Z.le_gt_cases s (index g)) as [Hle|Hgt]; [lia|].
    destruct Hrun as (_ & _ & _ & Hbefore & _).
    rewrite (runAt_members text (index g) (s - 1)) in Hbefore by lia. discriminate.
  - destruct (single_finding_inv cz em text g Hg Hshort)
      as (cp & info & ln & col & _ & _ & _ & E).
    rewrite E in He. discriminate.
Qed.

Lemma long_run_absorbed :
  MIN_PATTERN_LENGTH <= L -> reportedAsPattern (detectHiddenCharacters cz em text) s L.
Proof.
  intros HL. pose proof Hrun as (Hs & HL1 & Hin & Hbefore & Hafter).
  assert (HrunAt : runAt text s = L).
  { rewrite (runAt_maximalRun text s L s Hrun) by lia. lia. }
  assert (Hland : landing text s).
  { apply landing_run_start; [exact Hbefore|apply Hin; lia]. }
  destruct (pattern_finding_intro cz em text s Hwf Hland Hs ltac:(rewrite HrunAt; exact HL))
    as (f & Hf & Hi & Hcat & He).
  destruct (visit cz em text s Hwf Hs Hland) as (m & Hm).
  assert (Hinside : forall g, In g (detectHiddenCharacters cz em text) ->
                              s <= index g < s + L -> g = f).
  { intros g Hg Hi'. apply (detect_unique cz em text g f Hg Hf).
    destruct (Z.eq_dec (index g) s) as [E|Hne]; [congruence|].
    exfalso. apply (no_finding_inside cz em text m g Hg).
    rewrite Hm. unfold nextIndex. rewrite HrunAt.
    destruct (Z.leb_spec MIN_PATTERN_LENGTH L) as [_|H]; lia. }
  exists f. rewrite HrunAt in He. repeat split; auto.
  intros g Hg Hspan. apply Hinside; [exact Hg|]. apply (span_outside g Hg Hspan).
Qed.

Lemma short_run_member (j : Z) :
  L < MIN_PATTERN_LENGTH -> s <= j < s + L ->
  ((exists g, In g (detectHiddenCharacters cz em text) /\ index g = j)
   <-> inRegistry text j = true /\ suppressedJoiner cz em text j = false).
Proof.
  intros HL Hj. pose proof Hrun as (Hs & HL1 & Hin & Hbefore & Hafter).
  destruct (alphabetAt_codePoint _ _ (Hin j Hj)) as (u & Hu & Ha & Hcp & Hkey & _).
  destruct (inAlphabet_plain _ Ha) as (_ & _ & _ & _ & Hvs).
  assert (Hshort : runAt text j < MIN_PATTERN_LENGTH).
  { rewrite (runAt_maximalRun text s L j Hrun) by lia. lia. }
  assert (Hsup : suppressed cz em text j u = suppressedJoiner cz em text j).
  { unfold suppressed, suppressedJoiner. rewrite Hvs, Hu. simpl.
    destruct (u =? 0x200D); reflexivity. }
  split.
  - intros (g & Hg & E). rewrite <- E in Hshort.
    destruct (single_finding_inv cz em text g Hg Hshort)
      as (cp & info & ln & col & Hcp' & Hinfo & Hs' & _).
    rewrite E in *. rewrite Hcp in Hcp'. inversion Hcp'; subst cp.
    unfold inRegistry. rewrite Hinfo, <- Hsup. auto.
  - intros [Hreg Hs']. unfold inRegistry in Hreg.
    destruct (map_get allHiddenChars (keyAt text j)) as [info|] eqn:Hinfo; [|discriminate].
    destruct (single_finding_intro cz em text j u info Hwf
                (landing_short_run text s L j Hrun HL Hj) Hshort Hcp Hinfo
                ltac:(rewrite Hsup; exact Hs'))
      as (ln & col & Hf).
    eexists. split; [exact Hf|reflexivity].
Qed.

Lemma short_run_singly :
  L < MIN_PATTERN_LENGTH ->
  reportedSingly (detectHiddenCharacters cz em text)
    (fun j => inRegistry text j = true /\ suppressedJoiner cz em text j = false) s L.
Proof.
  intros HL. split; [|split; [|split]].
  - intros g Hg Hspan. destruct (span_outside g Hg Hspan) as [Hlong Hi].
    rewrite (runAt_maximalRun text s L (index g) Hrun) in Hlong by lia.
    destruct Hrun as (? & ? & _). lia.
  - intros g Hg Hi Hp.
    destruct (finding_kind cz em text g Hg) as [[_ Hlong]|[Hnp _]]; [|contradiction].
    rewrite (runAt_maximalRun text s L (index g) Hrun) in Hlong by lia.
    destruct Hrun as (? & ? & _). lia.
  - apply detect_unique.
  - intros j Hj. apply short_run_member; assumption.
Qed.

End RunAbsorption.

(** C1 (amended): in a maximal run of at least 8 alphabet members the scan
    reports one pattern finding that spans the whole run and no other finding
    starts or reaches inside the run; in a maximal run of fewer than 8 members no
    pattern finding starts in or reaches the run, no offset carries two
    findings, and the members with a finding are exactly those that have a
    registry entry and are not a joiner suppressed by the emoji heuristic. *)
Theorem run_absorption (cz em : Z -> bool) (text : jsstring) (s L : Z) :
  wellFormed text = true ->
  maximalRun text s L ->
  (MIN_PATTERN_LENGTH <= L ->
     reportedAsPattern (detectHiddenCharacters cz em text) s L) /\
  (L < MIN_PATTERN_LENGTH ->
     reportedSingly (detectHiddenCharacters cz em text)
       (fun j => inRegistry text j = true /\ suppressedJoiner cz em text j = false) s L).
Proof.
  intros Hwf Hrun. split.
  - apply long_run_absorbed; assumption.
  - apply short_run_singly; assumption.
Qed.

(** C1 as stated fails: the joiner of MAN, ZWJ, WOMAN is a maximal run of
    length 1 and has a registry entry, but the scan of that text returns no
    finding, because the joiner is suppressed. *)
Lemma run_absorption_stated_fails :
  ~ runAbsorptionStated UCD.isControlOrSeparator UCD.isEmojiComponent joinedEmoji.
Proof.
  intros H.
  assert (Hrun : maximalRun joinedEmoji 2 1).
  { split; [lia|]. split; [lia|]. split; [|split; reflexivity].
    intros j Hj. assert (j = 2) by lia. subst j. reflexivity. }
  destruct (H 2 1 Hrun) as [_ Hshort].
  destruct (Hshort ltac:(reflexivity)) as (_ & _ & _ & Hmembers).
  destruct (proj2 (Hmembers 2 ltac:(lia)) ltac:(vm_compute; reflexivity)) as (g & Hg & _).
  vm_compute in Hg. exact Hg.
Qed.

(* ------------------------------------------------------------------------- *)
(** * The claims at concrete texts *)
(* ------------------------------------------------------------------------- *)

Lemma maximalRunb_sound (text : jsstring) (s L : Z) :
  maximalRunb text s L = true -> maximalRun text s L.
Proof.
  unfold maximalRunb. rewrite !andb_true_iff, !negb_true_iff, !Z.leb_le, forallb_forall.
  intros [[[[Hs HL] Hin] Hbefore] Hafter]. split; [exact Hs|]. split; [exact HL|].
  split; [|split; assumption].
  intros j Hj. replace j with (s + Z.of_nat (Z.to_nat (j - s))) by lia.
  apply Hin, in_seq. lia.
Qed.

Lemma run_absorption_witness :
  reportedAsPattern (UCD.scan longRun) 1 9 /\
  reportedSingly (UCD.scan joinedLetters)
    (fun j => inRegistry joinedLetters j = true /\
              suppressedJoiner UCD.isControlOrSeparator UCD.isEmojiComponent
                joinedLetters j = false) 1 1.
Proof.
  split.
  - apply (run_absorption UCD.isControlOrSeparator UCD.isEmojiComponent longRun 1 9).
    + reflexivity.
    + apply maximalRunb_sound. reflexivity.
    + unfold MIN_PATTERN_LENGTH. lia.
  - apply (run_absorption UCD.isControlOrSeparator UCD.isEmojiComponent joinedLetters 1 1).
    + reflexivity.
    + apply maximalRunb_sound. reflexivity.
    + unfold MIN_PATTERN_LENGTH. lia.
Defined.

Lemma vs16_suppression_witness :
  (exists f, In f (UCD.scan spaceVS16) /\ index f = 1 /\
             category f = VARIATION_SELECTOR_CATEGORY /\ codePoint f = 0xFE0F /\
             endFieldsAbsent f) /\
  (forall f, In f (UCD.scan heartVS16) -> index f <> 1) /\
  (forall f, In f (UCD.scan spaceHeartVS16) -> index f <> 2).
Proof.
  split; [|split].
  - apply (vs16_suppression UCD.isControlOrSeparator UCD.isEmojiComponent spaceVS16 1 0x20);
      reflexivity.
  - apply (vs16_suppression UCD.isControlOrSeparator UCD.isEmojiComponent heartVS16 1 0x2764);
      reflexivity.
  - apply (vs16_suppression UCD.isControlOrSeparator UCD.isEmojiComponent
             spaceHeartVS16 2 0x2764); reflexivity.
Defined.

(** C5 as stated fails: the joiner of MAN, ZWJ, [a] is adjacent to the
    letter [a], and the joiner of [1], ZWJ, [a] stands between a digit and a
    letter, yet the scan of either text returns no finding: MAN and the
    digit have the Emoji property, and the letter that follows is not a
    control or separator character. *)
Lemma joiner_law_stated_fails :
  ~ joinerLawStated UCD.isControlOrSeparator UCD.isEmojiComponent manJoinedToLetter /\
  ~ joinerLawStated UCD.isControlOrSeparator UCD.isEmojiComponent digitJoinedToLetter.
Proof.
  split; intros H.
  - destruct (H 2 2 1 eq_refl (maximalRunb_sound manJoinedToLetter 2 1 eq_refl)
                ltac:(lia) ltac:(reflexivity)) as [_ Hadjacent].
    destruct (Hadjacent eq_refl) as (f & Hf & _). vm_compute in Hf. exact Hf.
  - destruct (H 1 1 1 eq_refl (maximalRunb_sound digitJoinedToLetter 1 1 eq_refl)
                ltac:(lia) ltac:(reflexivity)) as [_ Hadjacent].
    destruct (Hadjacent eq_refl) as (f & Hf & _). vm_compute in Hf. exact Hf.
Qed.

Lemma zwj_suppression_witness :
  ((forall f, In f (UCD.scan joinedEmoji) -> index f <> 2)
   <-> joinsEmoji UCD.isControlOrSeparator UCD.isEmojiComponent joinedEmoji 2) /\
  (exists f, In f (UCD.scan joinedLetters) /\ index f = 1 /\
             category f = ZERO_WIDTH_CATEGORY /\ codePoint f = 0x200D /\
             endFieldsAbsent f).
Proof.
  split.
  - apply (zwj_suppression UCD.isControlOrSeparator UCD.isEmojiComponent joinedEmoji 2 2 1);
      try reflexivity.
    + apply maximalRunb_sound. reflexivity.
    + lia.
  - apply (zwj_suppression UCD.isControlOrSeparator UCD.isEmojiComponent joinedLetters 1 1 1);
      try reflexivity.
    + apply maximalRunb_sound. reflexivity.
    + lia.
    + intros c Hc. vm_compute in Hc. inversion Hc. reflexivity.
Defined.

Lemma surrogate_pair_reported_once_witness :
  exists f,
    In f (UCD.scan testVS17) /\
    index f = 5 /\ codePoint f = 0xE0100 /\
    category f = VARIATION_SELECTOR_CATEGORY /\
    message f = VARIATION_SELECTOR_MESSAGE /\
    endFieldsAbsent f /\
    (forall g, In g (UCD.scan testVS17) -> index g = 5 -> g = f) /\
    (forall g, In g (UCD.scan testVS17) -> index g <> 5 + 1) /\
    (exists n,
       s_i (iter UCD.isControlOrSeparator UCD.isEmojiComponent testVS17 n initialState) = 5 /\
       s_i (iter UCD.isControlOrSeparator UCD.isEmojiComponent testVS17 (S n) initialState)
       = 5 + 2).
Proof.
  apply (surrogate_pair_reported_once UCD.isControlOrSeparator UCD.isEmojiComponent
           testVS17 5 0xE0100 0xDB40 0xDD00 variationSelectorInfo); try reflexivity.
  lia.
Defined.

Lemma invisible_operators_unreported_witness :
  set_has BINARY_ENCODING_CHARS (Some [0x2062]) = true /\
  map_get allHiddenChars (Some [0x2062]) = None /\
  (forall f, In f (UCD.scan invisibleOperators) -> index f <> 1 /\ ~ spanMeets f 1 1).
Proof.
  apply (invisible_operators_unreported UCD.isControlOrSeparator UCD.isEmojiComponent
           invisibleOperators 1 0x2062 1 2).
  - reflexivity.
  - left. reflexivity.
  - apply maximalRunb_sound. reflexivity.
  - lia.
  - reflexivity.
Defined.

(* ------------------------------------------------------------------------- *)
(** * The cases of [detector.test.ts] *)
(* ------------------------------------------------------------------------- *)

Example test_empty : UCD.scan [] = [].
Proof. reflexivity. Qed.

Example test_no_hidden_characters : UCD.scan (ascii_units "Hello world") = [].
Proof. vm_compute. reflexivity. Qed.

Example test_single_zero_width_space :
  UCD.scan (ascii_units "Hello" ++ [0x200B] ++ ascii_units "world")
  = [ {| character := "U+200B"; codePoint := 0x200B; index := 5; line := 1; column := 5;
         category := ZERO_WIDTH_CATEGORY; message := ZERO_WIDTH_MESSAGE;
         endIndex := None; endLine := None; endColumn := None |} ].
Proof. vm_compute. reflexivity. Qed.

(** The test expects a third finding, for the VS16 at offset 12; the scanner
    suppresses it, as the unit before it is the letter d. *)
Example test_multiple_on_one_line :
  map summary
    (UCD.scan (ascii_units "Hel" ++ [0x200B] ++ ascii_units "lo" ++ [0x202A]
               ++ ascii_units "world" ++ [0xFE0F]))
  = [ (3, 1, 3, ZERO_WIDTH_CATEGORY, None); (6, 1, 6, BIDI_CONTROL_CATEGORY, None) ].
Proof. vm_compute. reflexivity. Qed.

Example test_beginning_and_end :
  map summary (UCD.scan ([0xFEFF] ++ ascii_units "Hello world" ++ [0x200D]))
  = [ (0, 1, 0, ZERO_WIDTH_CATEGORY, None); (12, 1, 12, ZERO_WIDTH_CATEGORY, None) ].
Proof. vm_compute. reflexivity. Qed.

Example test_line_and_column :
  map summary
    (UCD.scan (ascii_units "Line 1" ++ [0x0A] ++ ascii_units "Line 2 has " ++ [0x200C]
               ++ ascii_units "a ZWNJ" ++ [0x0A] ++ ascii_units "Line" ++ [0x2066]
               ++ ascii_units "3"))
  = [ (18, 2, 11, ZERO_WIDTH_CATEGORY, None); (30, 3, 4, BIDI_CONTROL_CATEGORY, None) ].
Proof. vm_compute. reflexivity. Qed.

Example test_surrogate_pair :
  UCD.scan testVS17
  = [ {| character := "U+E0100"; codePoint := 0xE0100; index := 5; line := 1; column := 5;
         category := VARIATION_SELECTOR_CATEGORY; message := VARIATION_SELECTOR_MESSAGE;
         endIndex := None; endLine := None; endColumn := None |} ].
Proof. vm_compute. reflexivity. Qed.

Example test_deprecated_tag :
  map summary (UCD.scan (ascii_units "Tag " ++ [0xDB40; 0xDC01] ++ ascii_units " here"))
  = [ (4, 1, 4, DEPRECATED_TAG_CATEGORY, None) ].
Proof. vm_compute. reflexivity. Qed.

Example pattern_of_nine :
  UCD.scan longRun
  = [ {| character := "[Binary Pattern (9 chars)]"; codePoint := -1;
         index := 1; line := 1; column := 1;
         category := PATTERN_CATEGORY;
         message := "Potential binary encoding detected using a sequence of 9 zero-width characters.";
         endIndex := Some 9; endLine := Some 1; endColumn := Some 9 |} ].
Proof. vm_compute. reflexivity. Qed.

Example previousBase_skips_vs16_and_pair :
  previousBase [0xD83D; 0xDC68; 0xFE0F; 0x200D] 3 = Some 0x1F468 /\
  previousBase [0x61; 0xFE0F; 0xFE0F; 0x200D] 3 = Some 0xFE0F /\
  previousBase [0xFE0F; 0x200D] 1 = None /\
  previousBase [0x200D] 0 = None.
Proof. repeat split; reflexivity. Qed.

Example precedingBase_skips_vs16_and_pair :
  precedingBase [0xD83D; 0xDC68; 0xFE0F; 0x200D] 3 = Some 0x1F468 /\
  precedingBase [0x20; 0x2764; 0xFE0F] 2 = Some 0x2764 /\
  precedingBase [0x61; 0xFE0F; 0xFE0F; 0x200D] 3 = Some 0xFE0F /\
  precedingBase [0xFE0F; 0x200D] 1 = None /\
  precedingBase [0x200D] 0 = None.
Proof. repeat split; reflexivity. Qed.

(** The joiner after a digit or after MAN, followed by a letter. *)
Example joiner_before_letter_unreported :
  UCD.scan digitJoinedToLetter = [] /\ UCD.scan manJoinedToLetter = [].
Proof. split; vm_compute; reflexivity. Qed.

(* ------------------------------------------------------------------------- *)
(** * The registry as a function of the code point *)
(* ------------------------------------------------------------------------- *)

Lemma bool_eq_of_iff (a b : bool) : (a = true <-> b = true) -> a = b.
Proof.
  destruct a, b; intros [H1 H2]; try reflexivity.
  - symmetry. apply H1. reflexivity.
  - apply H2. reflexivity.
Qed.

Lemma map_get_app {V : Type} (l1 l2 : list (jsstring * V)) (key : option jsstring) :
  map_get (l1 ++ l2) key
  = match map_get l2 key with Some v => Some v | None => map_get l1 key end.
Proof.
  induction l1 as [|[k v] l1 IH]; simpl.
  - destruct (map_get l2 key); reflexivity.
  - rewrite IH. destruct (map_get l2 key); reflexivity.
Qed.

Lemma map_get_const {V : Type} (ks : list jsstring) (v : V) (key : option jsstring) :
  map_get (map (fun k => (k, v)) ks) key = if set_has ks key then Some v else None.
Proof.
  unfold set_has. induction ks as [|k ks IH]; simpl; [reflexivity|].
  rewrite IH. destruct (existsb (opt_string_eqb key) ks);
    destruct (opt_string_eqb key k); reflexivity.
Qed.

Lemma map_get_key {V : Type} (entries : list (jsstring * V)) (key : option jsstring) (v : V) :
  map_get entries key = Some v -> exists k, key = Some k /\ In (k, v) entries.
Proof.
  induction entries as [|[k w] rest IH]; simpl; [discriminate|].
  destruct (map_get rest key) as [v'|].
  - intros E. destruct (IH E) as (k' & Hk & Hin). eauto.
  - destruct key as [key|]; simpl; [|discriminate].
    destruct (string_eqb key k) eqn:Ek; [|discriminate].
    apply string_eqb_eq in Ek. subst k. intros E; inversion E; subst. eauto.
Qed.

(** [String.fromCodePoint] is one-to-one. *)
Lemma fromCodePoint_inj (a b : Z) : fromCodePoint a = fromCodePoint b -> a = b.
Proof.
  unfold fromCodePoint.
  destruct (Z.leb_spec a 0xFFFF) as [Ha|Ha]; destruct (Z.leb_spec b 0xFFFF) as [Hb|Hb];
    intros E; try discriminate E.
  - injection E as E. exact E.
  - injection E as E1 E2.
    pose proof (Z.div_mod (a - 0x10000) 0x400 ltac:(lia)).
    pose proof (Z.div_mod (b - 0x10000) 0x400 ltac:(lia)). lia.
Qed.

Lemma fromCodePoint_eqb (a b : Z) :
  string_eqb (fromCodePoint a) (fromCodePoint b) = (a =? b).
Proof.
  apply bool_eq_of_iff. rewrite string_eqb_eq, Z.eqb_eq. split.
  - apply fromCodePoint_inj.
  - intros ->. reflexivity.
Qed.

Lemma set_has_fromCodePoint (l : list Z) (c : Z) :
  set_has (map fromCodePoint l) (Some (fromCodePoint c)) = existsb (Z.eqb c) l.
Proof.
  unfold set_has. induction l as [|a l IH]; simpl; [reflexivity|].
  rewrite IH, fromCodePoint_eqb. reflexivity.
Qed.

Lemma set_has_codePointRange (lo hi c : Z) :
  set_has (codePointRange lo hi) (Some (fromCodePoint c)) = (lo <=? c) && (c <=? hi).
Proof.
  unfold codePointRange.
  rewrite <- (map_map (fun n => lo + Z.of_nat n) fromCodePoint), set_has_fromCodePoint.
  apply bool_eq_of_iff.
  rewrite existsb_exists, andb_true_iff, !Z.leb_le. split.
  - intros (a & Ha & E). apply in_map_iff in Ha. destruct Ha as (n & <- & Hn).
    apply in_seq in Hn. apply Z.eqb_eq in E. lia.
  - intros [H1 H2]. exists c. split; [|apply Z.eqb_refl].
    apply in_map_iff. exists (Z.to_nat (c - lo)). split; [lia|]. apply in_seq. lia.
Qed.

Lemma set_has_app (l1 l2 : list jsstring) (key : option jsstring) :
  set_has (l1 ++ l2) key = set_has l1 key || set_has l2 key.
Proof. unfold set_has. apply existsb_app. Qed.

Lemma registry_of_code_point (c : Z) :
  map_get allHiddenChars (Some (fromCodePoint c)) = classifyByRange c.
Proof.
  unfold allHiddenChars. rewrite !map_get_app, !map_get_const.
  unfold variationSelectors, variationSelectorsPart1, variationSelectorsPart2,
    deprecatedTagChars, tagCharsList.
  rewrite set_has_app, !set_has_codePointRange.
  change bidiControlChars with
    (map fromCodePoint
       [0x202A; 0x202B; 0x202D; 0x202E; 0x2066; 0x2067; 0x2068; 0x2069; 0x202C]).
  change zeroWidthChars with (map fromCodePoint [0x200B; 0x200C; 0x200D; 0xFEFF]).
  rewrite !set_has_fromCodePoint. unfold classifyByRange.
  cbn [existsb].
  repeat match goal with
         | |- context [?a =? ?b] => destruct (Z.eqb_spec a b); [subst c; reflexivity|]
         end.
  cbn [orb].
  repeat match goal with
         | |- context [?a <=? ?b] => destruct (Z.leb_spec a b)
         end; cbn [andb orb]; try reflexivity; lia.
Qed.

(** X1: the registry built by [hiddenCharacters.ts] is a function of the code
    point: a key has an entry exactly when it is the string of one code
    point, and the entry is Zero-Width for U+200B, U+200C, U+200D and U+FEFF,
    Bidirectional Control for the nine listed controls, Deprecated Tag for
    U+E0000 to U+E007F, Variation Selector for U+FE00 to U+FE0F and U+E0100
    to U+E01EF, and there is no entry for any other code point; the four sets
    do not overlap, so the order of the entries does not matter. *)
Theorem registry_by_ranges (key : option jsstring) (info : CharInfo) :
  map_get allHiddenChars key = Some info <->
  exists c, key = Some (fromCodePoint c) /\ classifyByRange c = Some info.
Proof.
  split.
  - intros H. destruct (map_get_key _ _ _ H) as (k & -> & Hin).
    assert (Hc : exists c, k = fromCodePoint c).
    { unfold allHiddenChars in Hin. rewrite !in_app_iff, !in_map_iff in Hin.
      change bidiControlChars with
        (map fromCodePoint
           [0x202A; 0x202B; 0x202D; 0x202E; 0x2066; 0x2067; 0x2068; 0x2069; 0x202C]) in Hin.
      change zeroWidthChars with (map fromCodePoint [0x200B; 0x200C; 0x200D; 0xFEFF]) in Hin.
      unfold variationSelectors, variationSelectorsPart1, variationSelectorsPart2,
        deprecatedTagChars, tagCharsList, codePointRange in Hin.
      destruct Hin as [(x & E & Hx)|[(x & E & Hx)|[(x & E & Hx)|(x & E & Hx)]]];
        inversion E; subst x;
        try (apply in_app_iff in Hx; destruct Hx as [Hx|Hx]);
        apply in_map_iff in Hx; destruct Hx as (y & Hy & _); eauto. }
    destruct Hc as (c & ->). exists c. split; [reflexivity|].
    rewrite <- registry_of_code_point. exact H.
  - intros (c & -> & H). rewrite registry_of_code_point. exact H.
Qed.

(* ------------------------------------------------------------------------- *)
(** * Lines and columns *)
(* ------------------------------------------------------------------------- *)

Lemma lineColumn_app (l1 l2 : list Z) (ln col : Z) :
  lineColumn (l1 ++ l2) ln col
  = lineColumn l2 (fst (lineColumn l1 ln col)) (snd (lineColumn l1 ln col)).
Proof.
  revert ln col. induction l1 as [|u l1 IH]; intros ln col; simpl; [reflexivity|].
  destruct (u =? 0x0A); apply IH.
Qed.

Lemma firstn_plus {A : Type} (n m : nat) (l : list A) :
  firstn (n + m) l = firstn n l ++ firstn m (skipn n l).
Proof.
  revert l. induction n as [|n IH]; intros l; simpl; [reflexivity|].
  destruct l as [|a l]; simpl.
  - destruct m; reflexivity.
  - rewrite IH. reflexivity.
Qed.

Lemma positionOf_add (text : jsstring) (i d : Z) :
  0 <= i -> 0 <= d ->
  positionOf text (i + d)
  = lineColumn (firstn (Z.to_nat d) (skipn (Z.to_nat i) text))
      (fst (positionOf text i)) (snd (positionOf text i)).
Proof.
  intros Hi Hd. unfold positionOf.
  replace (Z.to_nat (i + d)) with (Z.to_nat i + Z.to_nat d)%nat by lia.
  rewrite firstn_plus, lineColumn_app. reflexivity.
Qed.

Lemma skipn_charCodeAt (text : jsstring) (i u : Z) :
  charCodeAt text i = Some u ->
  skipn (Z.to_nat i) text = u :: skipn (Z.to_nat (i + 1)) text.
Proof.
  intros Hu. pose proof (charCodeAt_Some _ _ _ Hu) as Hr.
  unfold charCodeAt in Hu. destruct (Z.ltb_spec i 0) as [H|H]; [lia|].
  rewrite (skipn_nth_error text (Z.to_nat i)), Hu.
  assert (E : Z.to_nat (i + 1) = S (Z.to_nat i)) by lia. rewrite E. reflexivity.
Qed.

(** One unit further. *)
Lemma positionOf_next (text : jsstring) (i u : Z) :
  charCodeAt text i = Some u ->
  positionOf text (i + 1)
  = if u =? 0x0A then (fst (positionOf text i) + 1, 0)
    else (fst (positionOf text i), snd (positionOf text i) + 1).
Proof.
  intros Hu. pose proof (charCodeAt_Some _ _ _ Hu) as Hr.
  rewrite positionOf_add by lia. rewrite (skipn_charCodeAt _ _ _ Hu).
  simpl. destruct (u =? 0x0A); reflexivity.
Qed.

(** The units of a run do not change the line. *)
Lemma lineColumn_run (l : list Z) (ln col : Z) :
  lineColumn (firstn (Z.to_nat (prefixLen l)) l) ln col = (ln, col + prefixLen l).
Proof.
  revert col. induction l as [|u l IH]; intros col; cbn [prefixLen].
  - simpl. f_equal. lia.
  - destruct (inAlphabet u) eqn:Ea.
    + pose proof (prefixLen_nonneg l) as Hnn.
      assert (E : Z.to_nat (1 + prefixLen l) = S (Z.to_nat (prefixLen l))) by lia.
      rewrite E. cbn [firstn lineColumn].
      destruct (inAlphabet_plain _ Ea) as (_ & _ & _ & -> & _).
      rewrite IH. f_equal. lia.
    + simpl. f_equal. lia.
Qed.

Lemma positionOf_run (text : jsstring) (i : Z) :
  0 <= i ->
  positionOf text (i + runAt text i)
  = (fst (positionOf text i), snd (positionOf text i) + runAt text i).
Proof.
  intros Hi. rewrite positionOf_add by (pose proof (runAt_nonneg text i); lia).
  unfold runAt. destruct (Z.ltb_spec i 0) as [H|H]; [lia|]. apply lineColumn_run.
Qed.

Lemma searchBack_bounds (s : jsstring) (u : Z) (n : nat) :
  -1 <= searchBack s u n <= Z.of_nat n.
Proof.
  induction n as [|n IH]; cbn [searchBack].
  - destruct (match nth_error s 0 with Some c => c =? u | None => false end); lia.
  - destruct (match nth_error s (S n) with Some c => c =? u | None => false end); lia.
Qed.

Lemma firstn_snoc (text : jsstring) (n : nat) (u : Z) :
  nth_error text n = Some u -> firstn (S n) text = firstn n text ++ [u].
Proof.
  revert n. induction text as [|a text IH]; intros [|n] H; simpl in *; try discriminate.
  - inversion H. reflexivity.
  - rewrite (IH n H). reflexivity.
Qed.

(** The offset after the last newline at or before [n] is [n + 1] minus the
    column of [n + 1]. *)
Lemma searchBack_column (text : jsstring) (n : nat) :
  (n < List.length text)%nat ->
  searchBack text 0x0A n + 1
  = Z.of_nat n + 1 - snd (lineColumn (firstn (S n) text) 1 0).
Proof.
  induction n as [|n IH]; intros Hn.
  - destruct text as [|a text]; [simpl in Hn; lia|]. simpl.
    destruct (a =? 10); simpl; lia.
  - destruct (nth_error text (S n)) as [u|] eqn:Eu;
      [|apply nth_error_None in Eu; lia].
    rewrite (firstn_snoc _ _ _ Eu), lineColumn_app. cbn [searchBack]. rewrite Eu.
    cbn [lineColumn]. destruct (u =? 10).
    + cbn [snd]. lia.
    + cbn [snd]. rewrite (IH ltac:(lia)). lia.
Qed.

Lemma lastIndexOf_column (text : jsstring) (e : Z) :
  0 <= e < length text ->
  (let found := lastIndexOf text 0x0A e in if found =? -1 then 0 else found + 1)
  = e + 1 - snd (positionOf text (e + 1)).
Proof.
  intros He. cbv zeta. unfold lastIndexOf, positionOf, length in *.
  replace (Z.to_nat (Z.min (Z.max e 0) (Z.of_nat (List.length text) - 1)))
    with (Z.to_nat e) by lia.
  replace (Z.to_nat (e + 1)) with (S (Z.to_nat e)) by lia.
  pose proof (searchBack_column text (Z.to_nat e) ltac:(lia)) as H.
  pose proof (searchBack_bounds text 0x0A (Z.to_nat e)) as Hb.
  destruct (Z.eqb_spec (searchBack text 10 (Z.to_nat e)) (-1)) as [E|E]; lia.
Qed.

Section Coordinates.

Variables cz em : Z -> bool.
Variable text : jsstring.

Abbreviation run n := (iter cz em text n initialState).

(** Without any assumption on the units: the line counter is at least 1 and
    the start of the current line is between 0 and the cursor. *)
Lemma trace_line_start (m : nat) :
  1 <= s_line (run m) /\ 0 <= s_currentLineStartIndex (run m) <= s_i (run m).
Proof.
  induction m as [|m IH]; [simpl; lia|]. cbn [iter].
  set (st := run m) in *. destruct IH as (Hl & Hs).
  pose proof (step_advances cz em text st) as Hadv.
  unfold step in *. rewrite pattern_guard in *.
  destruct (Z.leb_spec MIN_PATTERN_LENGTH (runAt text (s_i st))) as [H8|H8];
    cbn [s_line s_currentLineStartIndex s_i] in *.
  - unfold MIN_PATTERN_LENGTH in H8.
    destruct (detectPattern_end text st ltac:(lia)) as (Ei & El & _).
    rewrite El, Ei, detectPattern_length.
    split; [lia|]. unfold lastIndexOf.
    pose proof (searchBack_bounds text 0x0A
                  (Z.to_nat (Z.min (Z.max (s_i st + runAt text (s_i st) - 1) 0)
                               (length text - 1)))) as Hb.
    destruct (_ =? -1); lia.
  - destruct (opt_string_eqb (charAt text (s_i st)) [10]); lia.
Qed.

Hypothesis Hwf : wellFormed text = true.

(** On a well-formed text the counters of the scanner agree with the
    position of the cursor counted unit by unit. *)
Lemma trace_position (m : nat) :
  s_i (run m) <= length text ->
  (s_line (run m), s_i (run m) - s_currentLineStartIndex (run m))
  = positionOf text (s_i (run m)).
Proof.
  induction m as [|m IH]; [intros _; reflexivity|]. cbn [iter].
  set (st := run m) in *. intros Hle.
  pose proof (step_advances cz em text st) as Hadv.
  pose proof (trace_cursor_ge cz em text m) as Hge. fold st in Hge.
  specialize (IH ltac:(lia)).
  assert (Hline : s_line st = fst (positionOf text (s_i st))) by (rewrite <- IH; reflexivity).
  assert (Hcol : s_i st - s_currentLineStartIndex st = snd (positionOf text (s_i st)))
    by (rewrite <- IH; reflexivity).
  unfold step in *. rewrite pattern_guard in *.
  destruct (Z.leb_spec MIN_PATTERN_LENGTH (runAt text (s_i st))) as [H8|H8];
    cbn [s_line s_currentLineStartIndex s_i] in *.
  - unfold MIN_PATTERN_LENGTH in H8.
    destruct (detectPattern_end text st ltac:(lia)) as (Ei & El & _).
    rewrite detectPattern_length in *. rewrite El, Ei.
    rewrite lastIndexOf_column by lia.
    replace (s_i st + runAt text (s_i st) - 1 + 1) with (s_i st + runAt text (s_i st)) by lia.
    rewrite (positionOf_run text (s_i st)) by lia. cbn [snd]. f_equal; lia.
  - destruct (charCodeAt_in_range text (s_i st) ltac:(lia)) as (u & Hu).
    destruct (opt_gtb (codePointAt text (s_i st)) 0xFFFF) eqn:Eg.
    + destruct (codePointAt_big _ _ Hwf Eg) as (hi & lo & Hhi & Hlo & Hh & Hl).
      assert (u = hi) by congruence. subst u.
      replace (s_i st + 1 + 1) with ((s_i st + 1) + 1) by lia.
      rewrite (positionOf_next text (s_i st + 1) lo Hlo).
      rewrite (positionOf_next text (s_i st) hi Hhi).
      assert (Eh : (hi =? 10) = false).
      { unfold isHighSurrogate in Hh. apply andb_true_iff in Hh.
        destruct Hh as [Hh _]. apply Z.leb_le in Hh. apply Z.eqb_neq. lia. }
      assert (El : (lo =? 10) = false).
      { unfold isLowSurrogate in Hl. apply andb_true_iff in Hl.
        destruct Hl as [Hl _]. apply Z.leb_le in Hl. apply Z.eqb_neq. lia. }
      unfold charAt. rewrite Hhi. cbn [option_map opt_string_eqb string_eqb].
      rewrite Eh, El. cbn [andb fst snd]. f_equal; lia.
    + rewrite (positionOf_next text (s_i st) u Hu).
      unfold charAt. rewrite Hu. cbn [option_map opt_string_eqb string_eqb].
      rewrite andb_true_r. destruct (u =? 10); cbn [fst snd]; f_equal; lia.
Qed.

End Coordinates.

(* ------------------------------------------------------------------------- *)
(** * What every finding says *)
(* ------------------------------------------------------------------------- *)

Section Reports.

Variables cz em : Z -> bool.
Variable text : jsstring.

Abbreviation run' n := (iter cz em text n initialState).
Abbreviation scan' := (detectHiddenCharacters cz em text).

Lemma emitted_coordinates (st : ScanState) (f : HiddenCharacterInfo) :
  In f (emitted cz em text st) ->
  index f = s_i st /\ line f = s_line st /\
  column f = s_i st - s_currentLineStartIndex st /\
  (forall e, endIndex f = Some e ->
     MIN_PATTERN_LENGTH <= runAt text (s_i st) /\
     e = s_i st + runAt text (s_i st) - 1 /\
     endLine f = Some (s_line st) /\
     endColumn f = Some (e - s_currentLineStartIndex st) /\
     character f
     = ("[Binary Pattern (" ++ toDecimal (runAt text (s_i st)) ++ " chars)]")%string /\
     message f
     = ("Potential binary encoding detected using a sequence of "
        ++ toDecimal (runAt text (s_i st)) ++ " zero-width characters.")%string).
Proof.
  intros Hf. destruct (Z.le_gt_cases MIN_PATTERN_LENGTH (runAt text (s_i st))) as [H|H].
  - unfold emitted in Hf. rewrite pattern_guard in Hf.
    destruct (Z.leb_spec MIN_PATTERN_LENGTH (runAt text (s_i st))) as [_|H']; [|lia].
    destruct Hf as [<-|[]]. unfold MIN_PATTERN_LENGTH in H.
    destruct (detectPattern_end text st ltac:(lia)) as (E1 & E2 & E3).
    cbn [patternFinding index line column endIndex endLine endColumn character message].
    rewrite E1, E2, E3, detectPattern_length.
    split; [reflexivity|]. split; [reflexivity|]. split; [reflexivity|].
    intros e He. inversion He; subst e.
    unfold MIN_PATTERN_LENGTH. repeat split; try reflexivity; lia.
  - rewrite emitted_single in Hf by lia.
    destruct (singleCharacter_cases cz em text st) as [E|(cp & info & _ & _ & E)];
      rewrite E in Hf; [destruct Hf|]. destruct Hf as [<-|[]].
    split; [reflexivity|]. split; [reflexivity|]. split; [reflexivity|].
    intros e He. discriminate He.
Qed.

(** Coordinates of the findings, for any sequence of units. *)
Lemma coordinates_in_range (f : HiddenCharacterInfo) :
  In f scan' ->
  0 <= index f < length text /\ 1 <= line f /\ 0 <= column f <= index f /\
  (forall e, endIndex f = Some e ->
     index f + 7 <= e < length text /\
     endLine f = Some (line f) /\
     endColumn f = Some (column f + (e - index f))).
Proof.
  intros Hf. destruct (detect_cursor cz em text f Hf) as (m & Hm & Hlt & Hin).
  destruct (emitted_coordinates _ _ Hin) as (Hi & Hl & Hc & Hend).
  destruct (trace_line_start cz em text m) as (H1 & H2).
  pose proof (trace_cursor_ge cz em text m) as Hge.
  rewrite Hl, Hc, <- Hm. split; [lia|]. split; [lia|]. split; [lia|].
  intros e He. destruct (Hend e He) as (H8 & -> & Hel & Hec & _).
  unfold MIN_PATTERN_LENGTH in H8.
  assert (Ha : alphabetAt text (s_i (run' m) + runAt text (s_i (run' m)) - 1) = true)
    by (apply (runAt_members text (s_i (run' m))); lia).
  apply alphabetAt_range in Ha.
  rewrite Hel, Hec. repeat split; try lia. f_equal. lia.
Qed.

(** No finding starts inside the span of a pattern finding. *)
Lemma span_is_atomic (f g : HiddenCharacterInfo) (e : Z) :
  In f scan' -> In g scan' -> endIndex f = Some e -> ~ (index f < index g <= e).
Proof.
  intros Hf Hg He Hi. destruct (detect_cursor cz em text f Hf) as (m & Hm & _ & Hin).
  destruct (emitted_coordinates _ _ Hin) as (_ & _ & _ & Hend).
  destruct (Hend e He) as (H8 & -> & _).
  apply (no_finding_inside cz em text m g Hg). rewrite Hm in *.
  unfold nextIndex. destruct (Z.leb_spec MIN_PATTERN_LENGTH (runAt text (index f))); lia.
Qed.

Lemma codePointAt_cases (i u : Z) :
  charCodeAt text i = Some u ->
  codePointAt text i = Some u \/
  exists v, isHighSurrogate u = true /\ isLowSurrogate v = true /\
            codePointAt text i = Some ((u - 0xD800) * 0x400 + (v - 0xDC00) + 0x10000).
Proof.
  intros Hu. unfold codePointAt. rewrite Hu.
  destruct (isHighSurrogate u) eqn:Eh; [|left; reflexivity].
  destruct (charCodeAt text (i + 1)) as [v|]; [|left; reflexivity].
  destruct (isLowSurrogate v) eqn:El; [|left; reflexivity].
  right. exists v. auto.
Qed.

(** The key looked up at an offset is the string of the code point there. *)
Lemma keyAt_fromCodePoint (i : Z) :
  keyAt text i = option_map fromCodePoint (codePointAt text i).
Proof.
  unfold keyAt. destruct (opt_gtb (codePointAt text i) 0xFFFF) eqn:Eg; [reflexivity|].
  unfold charAt. destruct (charCodeAt text i) as [u|] eqn:Hu.
  - destruct (codePointAt_cases i u Hu) as [E|(v & Eh & El & E)]; rewrite E in *.
    + simpl in Eg. apply Z.ltb_ge in Eg. simpl. unfold fromCodePoint.
      destruct (Z.leb_spec u 0xFFFF); [reflexivity|lia].
    + exfalso. simpl in Eg. apply Z.ltb_ge in Eg.
      unfold isHighSurrogate, isLowSurrogate in *.
      apply andb_true_iff in Eh, El. destruct Eh as [Eh _], El as [El _].
      apply Z.leb_le in Eh, El. lia.
  - unfold codePointAt. rewrite Hu. reflexivity.
Qed.

(** A finding without end fields reports the code point at its offset, with
    the category and message of its registry entry. *)
Lemma single_finding_sound (f : HiddenCharacterInfo) :
  In f scan' -> endIndex f = None ->
  codePointAt text (index f) = Some (codePoint f) /\
  classifyByRange (codePoint f)
  = Some {| info_category := category f; info_message := message f |} /\
  character f = ("U+" ++ padStart 4 (toUpperCase (toHex (codePoint f))))%string /\
  suppressed cz em text (index f) (codePoint f) = false /\
  runAt text (index f) < MIN_PATTERN_LENGTH.
Proof.
  intros Hf Hnone.
  destruct (finding_kind cz em text f Hf) as [[_ Hlong]|[_ Hshort]].
  - destruct (pattern_finding_inv cz em text f Hf Hlong) as (_ & _ & He & _). congruence.
  - destruct (single_finding_inv cz em text f Hf Hshort)
      as (cp & info & ln & col & Hcp & Hinfo & Hs & E).
    assert (Ecp : codePoint f = cp) by (rewrite E; reflexivity).
    rewrite keyAt_fromCodePoint, Hcp in Hinfo. cbn [option_map] in Hinfo.
    rewrite registry_of_code_point in Hinfo.
    rewrite Ecp. split; [exact Hcp|]. split.
    { rewrite Hinfo, E. destruct info; reflexivity. }
    split; [rewrite E; reflexivity|]. split; [exact Hs|exact Hshort].
Qed.

End Reports.

Lemma runAt_shift (text : jsstring) (d : nat) :
  forall i, Z.of_nat d < runAt text i ->
            runAt text i = Z.of_nat d + runAt text (i + Z.of_nat d).
Proof.
  induction d as [|d IH]; intros i Hd.
  - rewrite Z.add_0_r. reflexivity.
  - rewrite (runAt_unfold text i) in *. destruct (alphabetAt text i); [|lia].
    rewrite (IH (i + 1)) by lia.
    replace (i + 1 + Z.of_nat d) with (i + Z.of_nat (S d)) by lia. lia.
Qed.

Lemma runAt_later (text : jsstring) (i j : Z) :
  i <= j < i + runAt text i -> runAt text i = (j - i) + runAt text j.
Proof.
  intros H. pose proof (runAt_shift text (Z.to_nat (j - i)) i ltac:(lia)) as E.
  replace (i + Z.of_nat (Z.to_nat (j - i))) with j in E by lia. lia.
Qed.

Lemma classifyByRange_positive (c : Z) (info : CharInfo) :
  classifyByRange c = Some info -> 0 < c.
Proof.
  intros H. destruct (Z.lt_ge_cases 0 c) as [Hpos|Hle]; [exact Hpos|].
  exfalso. unfold classifyByRange in H. cbn [existsb] in H.
  repeat match type of H with
         | context [?a =? ?b] => destruct (Z.eqb_spec a b); [lia|]
         end.
  cbn [orb] in H.
  repeat match type of H with
         | context [?a <=? ?b] => destruct (Z.leb_spec a b); try lia
         end; discriminate H.
Qed.

Lemma classifyByRange_not_low (c : Z) (info : CharInfo) :
  classifyByRange c = Some info -> isLowSurrogate c = false.
Proof.
  intros H. unfold isLowSurrogate.
  destruct (Z.leb_spec 0xDC00 c) as [H1|H1]; [|reflexivity].
  destruct (Z.leb_spec c 0xDFFF) as [H2|H2]; [|reflexivity].
  exfalso. unfold classifyByRange in H. cbn [existsb] in H.
  repeat match type of H with
         | context [?a =? ?b] => destruct (Z.eqb_spec a b); [lia|]
         end.
  cbn [orb] in H.
  repeat match type of H with
         | context [?a <=? ?b] => destruct (Z.leb_spec a b); try lia
         end; discriminate H.
Qed.

Section WellFormedReports.

Variables cz em : Z -> bool.
Variable text : jsstring.
Hypothesis Hwf : wellFormed text = true.

Abbreviation run'' n := (iter cz em text n initialState).
Abbreviation scan'' := (detectHiddenCharacters cz em text).

(** On a well-formed text the cursor never stops inside a qualifying run. *)
Lemma cursor_not_absorbed (m : nat) :
  forall i, 0 <= i < s_i (run'' m) -> MIN_PATTERN_LENGTH <= runAt text i ->
            i + runAt text i <= s_i (run'' m).
Proof.
  induction m as [|m IH]; intros i Hi H8; [simpl in Hi; lia|].
  cbn [iter] in *. rewrite step_cursor in *. set (c := s_i (run'' m)) in *.
  pose proof (nextIndex_gt text c) as Hgt.
  destruct (Z.lt_trichotomy i c) as [Hlt|[->|Hgt']].
  - specialize (IH i ltac:(lia) H8). lia.
  - unfold nextIndex.
    destruct (Z.leb_spec MIN_PATTERN_LENGTH (runAt text c)); lia.
  - unfold nextIndex in *.
    destruct (Z.leb_spec MIN_PATTERN_LENGTH (runAt text c)) as [Hc|Hc].
    + rewrite (runAt_later text c i) by lia. lia.
    + destruct (opt_gtb (codePointAt text c) 0xFFFF) eqn:Eg; [|lia].
      destruct (codePointAt_big _ _ Hwf Eg) as (hi & lo & Hhi & Hlo & Hh & Hl).
      assert (i = c + 1) by lia. subst i.
      assert (Ha : alphabetAt text (c + 1) = false).
      { unfold alphabetAt. rewrite Hlo. destruct (inAlphabet lo) eqn:Ea; [|reflexivity].
        destruct (inAlphabet_plain _ Ea) as (_ & Hl' & _). congruence. }
      rewrite (runAt_zero _ _ Ha) in H8. unfold MIN_PATTERN_LENGTH in H8. lia.
Qed.

(** The span of a pattern finding is a maximal run. *)
Lemma pattern_finding_maximal (f : HiddenCharacterInfo) (e : Z) :
  In f scan'' -> endIndex f = Some e ->
  maximalRun text (index f) (e - index f + 1) /\
  MIN_PATTERN_LENGTH <= e - index f + 1 /\
  character f
  = ("[Binary Pattern (" ++ toDecimal (e - index f + 1) ++ " chars)]")%string /\
  message f
  = ("Potential binary encoding detected using a sequence of "
     ++ toDecimal (e - index f + 1) ++ " zero-width characters.")%string.
Proof.
  intros Hf He. destruct (detect_cursor cz em text f Hf) as (m & Hm & _ & Hin).
  destruct (emitted_coordinates cz em text _ _ Hin) as (_ & _ & _ & Hend).
  destruct (Hend e He) as (H8 & -> & _ & _ & Hch & Hmsg). rewrite Hm in *.
  replace (index f + runAt text (index f) - 1 - index f + 1)
    with (runAt text (index f)) by lia.
  split; [|auto]. pose proof (trace_cursor_ge cz em text m) as Hge. rewrite Hm in Hge.
  unfold MIN_PATTERN_LENGTH in H8.
  split; [lia|]. split; [lia|]. split; [|split].
  - intros j Hj. apply (runAt_members text (index f)). lia.
  - destruct (alphabetAt text (index f - 1)) eqn:Ea; [|reflexivity]. exfalso.
    pose proof (alphabetAt_range _ _ Ea) as Hr.
    assert (E : runAt text (index f - 1) = 1 + runAt text (index f)).
    { rewrite (runAt_unfold text (index f - 1)), Ea.
      replace (index f - 1 + 1) with (index f) by lia. reflexivity. }
    pose proof (cursor_not_absorbed m (index f - 1)
                  ltac:(rewrite Hm; lia)
                  ltac:(unfold MIN_PATTERN_LENGTH; lia)) as Hc.
    rewrite Hm in Hc. lia.
  - apply runAt_end.
Qed.

(** Line and column of a finding are those of its offset in the text. *)
Lemma finding_position (f : HiddenCharacterInfo) :
  In f scan'' ->
  (line f, column f) = positionOf text (index f) /\
  (forall e, endIndex f = Some e ->
     endLine f = Some (fst (positionOf text e)) /\
     endColumn f = Some (snd (positionOf text e))).
Proof.
  intros Hf. destruct (detect_cursor cz em text f Hf) as (m & Hm & Hlt & Hin).
  destruct (emitted_coordinates cz em text _ _ Hin) as (_ & Hl & Hc & Hend).
  pose proof (trace_position cz em text Hwf m ltac:(lia)) as Hpos.
  pose proof (trace_cursor_ge cz em text m) as Hge.
  rewrite <- Hl, <- Hc in Hpos. rewrite Hm in *. split; [exact Hpos|].
  intros e He. destruct (Hend e He) as (H8 & -> & Hel & Hec & _).
  unfold MIN_PATTERN_LENGTH in H8.
  assert (Ha : alphabetAt text (index f + runAt text (index f) - 1) = true)
    by (apply (runAt_members text (index f)); lia).
  destruct (alphabetAt_unit _ _ Ha) as (u & Hu & Hau).
  destruct (inAlphabet_plain _ Hau) as (_ & _ & _ & Hnl & _).
  pose proof (positionOf_next text _ u Hu) as Hnext. rewrite Hnl in Hnext.
  replace (index f + runAt text (index f) - 1 + 1)
    with (index f + runAt text (index f)) in Hnext by lia.
  rewrite (positionOf_run text (index f)) in Hnext by lia.
  rewrite <- Hpos in Hnext. cbn [fst snd] in Hnext.
  injection Hnext as E1 E2. rewrite Hel, Hec. split; f_equal; lia.
Qed.

(** A registry member that is not suppressed is reported, unless it lies in
    a qualifying run. *)
Lemma unsuppressed_reported (k cp : Z) (info : CharInfo) :
  codePointAt text k = Some cp -> classifyByRange cp = Some info ->
  suppressed cz em text k cp = false -> ~ absorbed text k ->
  exists f, In f scan'' /\ index f = k /\ codePoint f = cp /\
            category f = info_category info /\ message f = info_message info /\
            endFieldsAbsent f.
Proof.
  intros Hcp Hinfo Hs Hfree.
  assert (Hu : exists u, charCodeAt text k = Some u).
  { unfold codePointAt in Hcp. destruct (charCodeAt text k) as [u|]; [eauto|discriminate]. }
  destruct Hu as (u & Hu). pose proof (charCodeAt_Some _ _ _ Hu) as Hk.
  assert (Hlow : opt_between 0xDC00 (charCodeAt text k) 0xDFFF = false).
  { rewrite Hu. change (isLowSurrogate u = false).
    destruct (codePointAt_cases text k u Hu) as [E|(v & Eh & _ & _)].
    - rewrite E in Hcp. inversion Hcp; subst cp.
      eapply classifyByRange_not_low; eauto.
    - apply high_not_low. exact Eh. }
  assert (Hshort : runAt text k < MIN_PATTERN_LENGTH).
  { destruct (Z.le_gt_cases MIN_PATTERN_LENGTH (runAt text k)) as [H8|H8]; [|lia].
    exfalso. apply Hfree. exists k. unfold MIN_PATTERN_LENGTH in *. lia. }
  assert (Hland : landing text k).
  { split.
    - intros [_ H]. congruence.
    - intros i Hi H8.
      destruct (Z.le_gt_cases (i + runAt text i) k) as [Hle|Hgt]; [exact Hle|].
      exfalso. apply Hfree. exists i. lia. }
  destruct (single_finding_intro cz em text k cp info Hwf Hland Hshort Hcp
              ltac:(rewrite keyAt_fromCodePoint, Hcp; cbn [option_map];
                    rewrite registry_of_code_point; exact Hinfo) Hs)
    as (ln & col & Hf).
  eexists. split; [exact Hf|]. repeat split.
Qed.

(** A finding that starts at an offset outside qualifying runs is not a
    suppressed one. *)
Lemma reported_unsuppressed (k cp : Z) (f : HiddenCharacterInfo) :
  codePointAt text k = Some cp -> ~ absorbed text k ->
  In f scan'' -> index f = k -> suppressed cz em text k cp = false.
Proof.
  intros Hcp Hfree Hf Hk.
  assert (Hshort : runAt text (index f) < MIN_PATTERN_LENGTH).
  { destruct (Z.le_gt_cases MIN_PATTERN_LENGTH (runAt text (index f))) as [H8|H8]; [|lia].
    exfalso. apply Hfree. exists k. rewrite Hk in H8.
    pose proof (coordinates_in_range cz em text f Hf) as (Hr & _).
    unfold MIN_PATTERN_LENGTH in *. lia. }
  destruct (single_finding_inv cz em text f Hf Hshort)
    as (cp' & info & ln & col & Hcp' & _ & Hs & _).
  rewrite Hk in *. congruence.
Qed.

End WellFormedReports.

(** A text without registry members and without qualifying runs has no
    finding. *)
Lemma clean_text_empty (cz em : Z -> bool) (text : jsstring) :
  (forall i cp, codePointAt text i = Some cp -> classifyByRange cp = None) ->
  (forall i, runAt text i < MIN_PATTERN_LENGTH) ->
  detectHiddenCharacters cz em text = [].
Proof.
  intros Hreg Hrun.
  destruct (detectHiddenCharacters cz em text) as [|f r] eqn:E; [reflexivity|].
  assert (Hf : In f (detectHiddenCharacters cz em text)) by (rewrite E; left; reflexivity).
  exfalso. destruct (finding_kind cz em text f Hf) as [[_ Hlong]|[_ Hshort]].
  - specialize (Hrun (index f)). lia.
  - destruct (single_finding_inv cz em text f Hf Hshort)
      as (cp & info & ln & col & Hcp & Hinfo & _).
    rewrite keyAt_fromCodePoint, Hcp in Hinfo. cbn [option_map] in Hinfo.
    rewrite registry_of_code_point, (Hreg _ _ Hcp) in Hinfo. discriminate.
Qed.

Lemma sorted_length (l : list HiddenCharacterInfo) :
  StronglySorted ascending l ->
  forall lo hi, Forall (fun f => lo <= index f < hi) l -> lo <= hi ->
                Z.of_nat (List.length l) <= hi - lo.
Proof.
  induction 1 as [|a l Hs IH Ha]; intros lo hi Hr Hle; [simpl; lia|].
  inversion Hr as [|? ? Hra Hrl]; subst.
  assert (Hl : Forall (fun f => index a + 1 <= index f < hi) l).
  { rewrite Forall_forall in *. intros f Hf. specialize (Ha f Hf).
    specialize (Hrl f Hf). unfold ascending in Ha. lia. }
  specialize (IH (index a + 1) hi Hl ltac:(lia)). cbn [List.length]. lia.
Qed.

(** There are at most as many findings as units. *)
Lemma findings_bounded (cz em : Z -> bool) (text : jsstring) :
  Z.of_nat (List.length (detectHiddenCharacters cz em text)) <= length text.
Proof.
  pose proof (sorted_length _ (detect_sorted cz em text) 0 (length text)) as H.
  rewrite Z.sub_0_r in H. apply H; [|unfold length; lia].
  apply Forall_forall. intros f Hf.
  apply (coordinates_in_range cz em text f Hf).
Qed.

(* ------------------------------------------------------------------------- *)
(** * The base before an offset *)
(* ------------------------------------------------------------------------- *)

Lemma between_disjoint (a : option Z) :
  opt_between 0xD800 a 0xDBFF = true -> opt_between 0xDC00 a 0xDFFF = false.
Proof.
  destruct a as [a|]; [|reflexivity]. apply high_not_low.
Qed.

(** X10: [getPreviousBaseCharStartIndex] answers -1 for an index that is not
    positive, and otherwise -1 or an index at most three units before the
    given one and strictly before it; it answers -1 exactly when the index is
    not positive or is 1 with a VS16 at offset 0; and it never answers the
    offset of the low half of a surrogate pair. *)
Theorem previous_index_bounds (text : jsstring) (i : Z) :
  (i <= 0 -> getPreviousBaseCharStartIndex text i = -1) /\
  (getPreviousBaseCharStartIndex text i = -1 \/
   (0 <= getPreviousBaseCharStartIndex text i < i /\
    i - 3 <= getPreviousBaseCharStartIndex text i)) /\
  (getPreviousBaseCharStartIndex text i = -1 <->
   i <= 0 \/ (i = 1 /\ codePointAt text 0 = Some 0xFE0F)) /\
  ~ (opt_between 0xDC00 (charCodeAt text (getPreviousBaseCharStartIndex text i)) 0xDFFF
     = true /\
     opt_between 0xD800 (charCodeAt text (getPreviousBaseCharStartIndex text i - 1)) 0xDBFF
     = true).
Proof.
  unfold getPreviousBaseCharStartIndex.
  destruct (Z.leb_spec i 0) as [Hi|Hi].
  - split; [reflexivity|]. split; [left; reflexivity|]. split; [tauto|].
    intros [H _]. discriminate H.
  - destruct (Z.leb_spec 0 (i - 1)) as [_|H0]; [|lia]. cbn [andb].
    destruct (opt_eqb (codePointAt text (i - 1)) 0xFE0F) eqn:Evs.
    + destruct (Z.ltb_spec (i - 1 - 1) 0) as [Hneg|Hpos]; cbn [andb].
      * assert (i = 1) by lia. subst i. split; [lia|]. split; [left; reflexivity|].
        split.
        { split; [|reflexivity]. intros _. right. split; [reflexivity|].
          simpl in Evs. destruct (codePointAt text 0) as [c|]; [|discriminate Evs].
          simpl in Evs. apply Z.eqb_eq in Evs. subst c. reflexivity. }
        intros [H _]. discriminate H.
      * destruct (opt_between 0xDC00 (charCodeAt text (i - 1 - 1)) 0xDFFF
                  && (0 <? i - 1 - 1)
                  && opt_between 0xD800 (charCodeAt text (i - 1 - 1 - 1)) 0xDBFF) eqn:Ep.
        -- apply andb_true_iff in Ep. destruct Ep as [Ep Hh].
           apply andb_true_iff in Ep. destruct Ep as [_ Hgt]. apply Z.ltb_lt in Hgt.
           split; [lia|]. split; [right; lia|]. split; [split; lia|].
           intros [Hl _]. rewrite (between_disjoint _ Hh) in Hl. discriminate.
        -- split; [lia|]. split; [right; lia|]. split; [split; lia|].
           intros [Hl Hh]. rewrite Hl, Hh, andb_true_r in Ep. cbn [andb] in Ep.
           apply Z.ltb_ge in Ep. assert (E : i - 1 - 1 = 0) by lia. rewrite E in Hh.
           discriminate Hh.
    + cbn [andb].
      destruct (opt_between 0xDC00 (charCodeAt text (i - 1)) 0xDFFF
                && (0 <? i - 1)
                && opt_between 0xD800 (charCodeAt text (i - 1 - 1)) 0xDBFF) eqn:Ep.
      * apply andb_true_iff in Ep. destruct Ep as [Ep Hh].
        apply andb_true_iff in Ep. destruct Ep as [_ Hgt]. apply Z.ltb_lt in Hgt.
        split; [lia|]. split; [right; lia|]. split.
        { split; [lia|]. intros [H|[-> H]]; [lia|]. simpl in Evs. rewrite H in Evs.
          discriminate Evs. }
        intros [Hl _]. rewrite (between_disjoint _ Hh) in Hl. discriminate.
      * split; [lia|]. split; [right; lia|]. split.
        { split; [lia|]. intros [H|[-> H]]; [lia|]. simpl in Evs. rewrite H in Evs.
          discriminate Evs. }
        intros [Hl Hh]. rewrite Hl, Hh, andb_true_r in Ep. cbn [andb] in Ep.
        apply Z.ltb_ge in Ep. assert (E : i - 1 = 0) by lia. rewrite E in Hh.
        discriminate Hh.
Qed.

(* ------------------------------------------------------------------------- *)
(** * Decorations and diagnostics *)
(* ------------------------------------------------------------------------- *)

Module EditorFacts.
Import Editor.


Lemma In_setAdd (s : list Z) (l x : Z) : In x (setAdd s l) <-> In x s \/ x = l.
Proof.
  unfold setAdd. destruct (existsb (Z.eqb l) s) eqn:E.
  - apply existsb_exists in E. destruct E as (y & Hy & Ey). apply Z.eqb_eq in Ey. subst y.
    split; [auto|]. intros [H| ->]; assumption.
  - rewrite in_app_iff. simpl. split; intros [H|H]; auto.
    + destruct H as [H|[]]. auto.
Qed.

Lemma NoDup_setAdd (s : list Z) (l : Z) : NoDup s -> NoDup (setAdd s l).
Proof.
  intros H. unfold setAdd. destruct (existsb (Z.eqb l) s) eqn:E; [exact H|].
  apply NoDup_app; [exact H|constructor; [intros []|constructor]|].
  intros x Hx [<-|[]].
  assert (Ex : existsb (Z.eqb l) s = true)
    by (apply existsb_exists; exists l; split; [exact Hx|apply Z.eqb_refl]).
  congruence.
Qed.

Lemma fold_setAdd (ls : list Z) :
  forall s, (NoDup s -> NoDup (fold_left setAdd ls s)) /\
            (forall x, In x (fold_left setAdd ls s) <-> In x s \/ In x ls).
Proof.
  induction ls as [|l ls IH]; intros s; simpl.
  - split; [auto|]. intros x. tauto.
  - destruct (IH (setAdd s l)) as [H1 H2]. split.
    + intros H. apply H1, NoDup_setAdd, H.
    + intros x. rewrite H2, In_setAdd. intuition congruence.
Qed.

Lemma In_linesFromTo (a b x : Z) : In x (linesFromTo a b) <-> a <= x <= b.
Proof.
  unfold linesFromTo. rewrite in_map_iff. split.
  - intros (n & <- & Hn). apply in_seq in Hn. lia.
  - intros H. exists (Z.to_nat (x - a)). split; [lia|]. apply in_seq. lia.
Qed.

Lemma addGutterLines_spec (s : list Z) (info : HiddenCharacterInfo) :
  (NoDup s -> NoDup (addGutterLines s info)) /\
  (forall x, In x (addGutterLines s info)
             <-> In x s \/ line info - 1 <= x <= lastGutterLine info).
Proof.
  unfold addGutterLines, lastGutterLine. destruct (endLine info) as [el|].
  - destruct (fold_setAdd (linesFromTo (line info - 1) (el - 1)) s) as [H1 H2].
    split; [exact H1|]. intros x. rewrite H2, In_linesFromTo. tauto.
  - split; [apply NoDup_setAdd|]. intros x. rewrite In_setAdd. split.
    + intros [H| ->]; [auto|right; lia].
    + intros [H|H]; [auto|right; lia].
Qed.

Lemma fold_decorateOne (l : list HiddenCharacterInfo) :
  forall acc,
    fst (fold_left decorateOne l acc) = fst acc ++ highlightsOf l /\
    (NoDup (snd acc) -> NoDup (snd (fold_left decorateOne l acc))) /\
    (forall x, In x (snd (fold_left decorateOne l acc)) <->
               In x (snd acc) \/
               exists info, In info l /\ highlightOf info <> None /\
                            line info - 1 <= x <= lastGutterLine info).
Proof.
  induction l as [|info l IH]; intros acc.
  - simpl. rewrite app_nil_r. split; [reflexivity|]. split; [auto|].
    intros x. split; [auto|]. intros [H|(i & [] & _)]. exact H.
  - cbn [fold_left]. destruct (IH (decorateOne acc info)) as (H1 & H2 & H3).
    unfold decorateOne in *. unfold highlightsOf in *. cbn [flat_map].
    destruct (highlightOf info) as [o|] eqn:Eo.
    + cbn [fst snd] in *. destruct (addGutterLines_spec (snd acc) info) as [G1 G2].
      split; [rewrite H1, <- app_assoc; reflexivity|]. split; [auto|].
      intros x. rewrite H3, G2. split.
      * intros [[H|H]|(i & Hi & Hrest)]; [auto| |].
        -- right. exists info. split; [left; reflexivity|]. split; [congruence|exact H].
        -- right. exists i. split; [right; exact Hi|exact Hrest].
      * intros [H|(i & [<-|Hi] & Hne & Hx)]; [auto|auto|].
        right. exists i. auto.
    + split; [rewrite H1; reflexivity|]. split; [exact H2|].
      intros x. rewrite H3. split.
      * intros [H|(i & Hi & Hrest)]; [auto|]. right. exists i. split; [right; exact Hi|exact Hrest].
      * intros [H|(i & [<-|Hi] & Hne & Hx)]; [auto|congruence|].
        right. exists i. auto.
Qed.



Lemma diagnosticOf_ordered (info : HiddenCharacterInfo) :
  orderedRange (d_range (diagnosticOf info)).
Proof.
  unfold diagnosticOf, orderedRange.
  destruct (endLine info) as [el|]; [destruct (endColumn info) as [ec|]|].
  - destruct (Z.ltb_spec (line info - 1) 0) as [H1|H1];
      destruct (Z.ltb_spec (column info) 0) as [H2|H2];
      destruct (Z.ltb_spec (el - 1) (line info - 1)) as [H3|H3];
      destruct (Z.eqb_spec (el - 1) (line info - 1)) as [H4|H4];
      destruct (Z.ltb_spec ec (column info)) as [H5|H5]; cbn -[Z.max Z.add Z.sub]; lia.
  - destruct (Z.ltb_spec (line info - 1) 0) as [H1|H1];
      destruct (Z.ltb_spec (column info) 0) as [H2|H2]; cbn -[Z.max Z.add Z.sub]; lia.
  - destruct (Z.ltb_spec (line info - 1) 0) as [H1|H1];
      destruct (Z.ltb_spec (column info) 0) as [H2|H2]; cbn -[Z.max Z.add Z.sub]; lia.
Qed.

End EditorFacts.

(* ------------------------------------------------------------------------- *)
(** * Further properties of the scanner *)
(* ------------------------------------------------------------------------- *)

Lemma not_absorbed_outside (text : jsstring) (k : Z) :
  alphabetAt text k = false -> ~ absorbed text k.
Proof.
  intros Ha (i & Hi & Hk & _). rewrite (runAt_members text i k) in Ha by lia. discriminate.
Qed.

Lemma not_absorbed_short (text : jsstring) (s L k : Z) :
  maximalRun text s L -> L < MIN_PATTERN_LENGTH -> s <= k < s + L -> ~ absorbed text k.
Proof.
  intros Hrun HL Hk (i & Hi & Hki & H8).
  destruct (landing_short_run text s L k Hrun HL Hk) as [_ Hjump].
  destruct (Z.eq_dec i k) as [->|Hne].
  - rewrite (runAt_maximalRun text s L k Hrun) in H8 by lia.
    destruct Hrun as (? & ? & _). lia.
  - specialize (Hjump i ltac:(lia) H8). lia.
Qed.

(** Units below U+200B are neither registry members nor alphabet members. *)
Lemma low_units_clean (text : jsstring) :
  forallb (fun u => (0 <=? u) && (u <? 0x200B)) text = true ->
  (forall i cp, codePointAt text i = Some cp -> classifyByRange cp = None) /\
  (forall i, runAt text i < MIN_PATTERN_LENGTH).
Proof.
  intros Hlow. rewrite forallb_forall in Hlow.
  assert (Hunit : forall i u, charCodeAt text i = Some u -> 0 <= u < 0x200B).
  { intros i u Hu. unfold charCodeAt in Hu. destruct (i <? 0); [discriminate|].
    apply nth_error_In in Hu. specialize (Hlow _ Hu). lia. }
  split.
  - intros i cp Hcp. unfold codePointAt in Hcp.
    destruct (charCodeAt text i) as [u|] eqn:Hu; [|discriminate].
    pose proof (Hunit _ _ Hu) as Hr.
    assert (Hh : isHighSurrogate u = false).
    { unfold isHighSurrogate. destruct (Z.leb_spec 0xD800 u); [lia|reflexivity]. }
    rewrite Hh in Hcp. inversion Hcp; subst cp.
    unfold classifyByRange. cbn [existsb].
    repeat match goal with
           | |- context [?a =? ?b] => destruct (Z.eqb_spec a b); [lia|]
           end.
    cbn [orb].
    repeat match goal with
           | |- context [?a <=? ?b] => destruct (Z.leb_spec a b); try lia
           end; reflexivity.
  - intros i. rewrite runAt_zero; [reflexivity|].
    unfold alphabetAt. destruct (charCodeAt text i) as [u|] eqn:Hu; [|reflexivity].
    pose proof (Hunit _ _ Hu) as Hr. destruct (inAlphabet u) eqn:Ea; [|reflexivity].
    apply inAlphabet_cases in Ea. lia.
Qed.

(** X2: on a well-formed text, the line and column of every finding are
    those of its start offset counted unit by unit from the start of the text
    (line 1, column 0, a newline starting a new line), and the end line and
    end column of a pattern finding are those of its end offset. *)
Theorem findings_at_their_position (cz em : Z -> bool) (text : jsstring) :
  wellFormed text = true ->
  Forall (fun f => (line f, column f) = positionOf text (index f) /\
                   (forall e, endIndex f = Some e ->
                      endLine f = Some (fst (positionOf text e)) /\
                      endColumn f = Some (snd (positionOf text e))))
         (detectHiddenCharacters cz em text).
Proof.
  intros Hwf. apply Forall_forall. intros f Hf.
  apply (finding_position cz em text Hwf f Hf).
Qed.

Lemma findings_at_their_position_witness :
  Forall (fun f => (line f, column f) = positionOf secondLine (index f) /\
                   (forall e, endIndex f = Some e ->
                      endLine f = Some (fst (positionOf secondLine e)) /\
                      endColumn f = Some (snd (positionOf secondLine e))))
         (UCD.scan secondLine).
Proof.
  apply (findings_at_their_position UCD.isControlOrSeparator UCD.isEmojiComponent secondLine).
  reflexivity.
Defined.

(** X3: for every sequence of units, every finding starts inside the text, on
    a line numbered from 1 and at a column between 0 and its offset; a
    pattern finding ends inside the text at least 7 units after its start, on
    the line it starts on, as many columns further as offsets. *)
Theorem findings_coordinates (cz em : Z -> bool) (text : jsstring) :
  Forall (fun f => 0 <= index f < length text /\ 1 <= line f /\
                   0 <= column f <= index f /\
                   (forall e, endIndex f = Some e ->
                      index f + 7 <= e < length text /\
                      endLine f = Some (line f) /\
                      endColumn f = Some (column f + (e - index f))))
         (detectHiddenCharacters cz em text).
Proof.
  apply Forall_forall. intros f Hf. apply (coordinates_in_range cz em text f Hf).
Qed.

(** X4: on a well-formed text, the span of every pattern finding is a maximal
    run of alphabet members of at least 8 units, and its label and message
    give the length of that run. *)
Theorem pattern_spans_maximal_run (cz em : Z -> bool) (text : jsstring) :
  wellFormed text = true ->
  Forall (fun f => forall e, endIndex f = Some e ->
            maximalRun text (index f) (e - index f + 1) /\
            MIN_PATTERN_LENGTH <= e - index f + 1 /\
            character f
            = ("[Binary Pattern (" ++ toDecimal (e - index f + 1) ++ " chars)]")%string /\
            message f
            = ("Potential binary encoding detected using a sequence of "
               ++ toDecimal (e - index f + 1) ++ " zero-width characters.")%string)
         (detectHiddenCharacters cz em text).
Proof.
  intros Hwf. apply Forall_forall. intros f Hf e He.
  apply (pattern_finding_maximal cz em text Hwf f e Hf He).
Qed.

Lemma pattern_spans_maximal_run_witness :
  Forall (fun f => forall e, endIndex f = Some e ->
            maximalRun longRun (index f) (e - index f + 1) /\
            MIN_PATTERN_LENGTH <= e - index f + 1 /\
            character f
            = ("[Binary Pattern (" ++ toDecimal (e - index f + 1) ++ " chars)]")%string /\
            message f
            = ("Potential binary encoding detected using a sequence of "
               ++ toDecimal (e - index f + 1) ++ " zero-width characters.")%string)
         (UCD.scan longRun).
Proof.
  apply (pattern_spans_maximal_run UCD.isControlOrSeparator UCD.isEmojiComponent longRun).
  reflexivity.
Defined.

(** X5: no finding starts after the start and up to the end of the span of
    a pattern finding. *)
Theorem pattern_span_atomic (cz em : Z -> bool) (text : jsstring) :
  Forall (fun f => forall e, endIndex f = Some e ->
            Forall (fun g => ~ (index f < index g <= e))
                   (detectHiddenCharacters cz em text))
         (detectHiddenCharacters cz em text).
Proof.
  apply Forall_forall. intros f Hf e He. apply Forall_forall. intros g Hg.
  apply (span_is_atomic cz em text f g e Hf Hg He).
Qed.

(** X6: every finding without end fields reports the code point read at its
    offset; that code point is a registry member, the finding carries the
    category and message of its entry and the label U+XXXX of the code
    point, it was not suppressed, and no run qualifies at its offset. *)
Theorem single_findings_sound (cz em : Z -> bool) (text : jsstring) :
  Forall (fun f => endIndex f = None ->
            codePointAt text (index f) = Some (codePoint f) /\
            classifyByRange (codePoint f)
            = Some {| info_category := category f; info_message := message f |} /\
            character f = ("U+" ++ padStart 4 (toUpperCase (toHex (codePoint f))))%string /\
            suppressed cz em text (index f) (codePoint f) = false /\
            runAt text (index f) < MIN_PATTERN_LENGTH)
         (detectHiddenCharacters cz em text).
Proof.
  apply Forall_forall. intros f Hf Hnone.
  apply (single_finding_sound cz em text f Hf Hnone).
Qed.

(** X7: on a well-formed text, a registry member at an offset that no
    qualifying run covers has a finding exactly when [skipDiagnostic] is
    false for it; in particular every such member other than VS16 and ZWJ
    (bidirectional controls, deprecated tags, the other variation selectors
    and zero-width characters) is reported, with its category and message. *)
Theorem registry_member_reported (cz em : Z -> bool) (text : jsstring) (k cp : Z)
  (info : CharInfo) :
  wellFormed text = true ->
  codePointAt text k = Some cp -> classifyByRange cp = Some info ->
  ~ absorbed text k ->
  ((exists f, In f (detectHiddenCharacters cz em text) /\ index f = k)
   <-> suppressed cz em text k cp = false) /\
  (cp <> 0xFE0F -> cp <> 0x200D ->
   exists f, In f (detectHiddenCharacters cz em text) /\ index f = k /\
             codePoint f = cp /\ category f = info_category info /\
             message f = info_message info /\ endFieldsAbsent f).
Proof.
  intros Hwf Hcp Hinfo Hfree. split.
  - split.
    + intros (f & Hf & Hk). apply (reported_unsuppressed cz em text k cp f); assumption.
    + intros Hs.
      destruct (unsuppressed_reported cz em text Hwf k cp info Hcp Hinfo Hs Hfree)
        as (f & Hf & Hk & _).
      exists f. auto.
  - intros Hvs Hzwj. apply (unsuppressed_reported cz em text Hwf k cp info); auto.
    unfold suppressed.
    destruct (Z.eqb_spec cp 0xFE0F) as [E|_]; [contradiction|].
    destruct (Z.eqb_spec cp 0x200D) as [E|_]; [contradiction|]. reflexivity.
Qed.

Lemma registry_member_reported_witness :
  exists f, In f (UCD.scan overridden) /\ index f = 1 /\
            codePoint f = 0x202E /\ category f = BIDI_CONTROL_CATEGORY /\
            message f = BIDI_CONTROL_MESSAGE /\ endFieldsAbsent f.
Proof.
  apply (registry_member_reported UCD.isControlOrSeparator UCD.isEmojiComponent
           overridden 1 0x202E bidiControlInfo); try reflexivity.
  - apply not_absorbed_outside. reflexivity.
  - discriminate.
  - discriminate.
Defined.

(** X8: a text in which no code point is a registry member and no run
    qualifies is scanned without any finding. *)
Theorem clean_text_no_finding (cz em : Z -> bool) (text : jsstring) :
  (forall i cp, codePointAt text i = Some cp -> classifyByRange cp = None) ->
  (forall i, runAt text i < MIN_PATTERN_LENGTH) ->
  detectHiddenCharacters cz em text = [].
Proof. apply clean_text_empty. Qed.

Lemma clean_text_no_finding_witness : UCD.scan (ascii_units "Hello world") = [].
Proof.
  apply (clean_text_no_finding UCD.isControlOrSeparator UCD.isEmojiComponent
           (ascii_units "Hello world"));
    apply (low_units_clean (ascii_units "Hello world")); reflexivity.
Defined.

(** X9: the scan returns at most as many findings as the text has units. *)
Theorem findings_count_bounded (cz em : Z -> bool) (text : jsstring) :
  Z.of_nat (List.length (detectHiddenCharacters cz em text)) <= length text.
Proof. apply findings_bounded. Qed.

(** X11: on a well-formed text, a VS16 that starts the text, or follows a
    VS16 that starts the text, or follows U+0000, is reported whatever the
    engine's property tables say. *)
Theorem vs16_without_base_reported (cz em : Z -> bool) (text : jsstring) (k : Z) :
  wellFormed text = true ->
  charCodeAt text k = Some 0xFE0F ->
  k = 0 \/ (k = 1 /\ charCodeAt text 0 = Some 0xFE0F) \/ charCodeAt text (k - 1) = Some 0 ->
  exists f, In f (detectHiddenCharacters cz em text) /\ index f = k /\
            codePoint f = 0xFE0F /\ category f = VARIATION_SELECTOR_CATEGORY /\
            message f = VARIATION_SELECTOR_MESSAGE /\ endFieldsAbsent f.
Proof.
  intros Hwf Hk Hcase.
  destruct (keyAt_bmp text k 0xFE0F Hk eq_refl ltac:(lia)) as (Hcp & _).
  apply (unsuppressed_reported cz em text Hwf k 0xFE0F variationSelectorInfo Hcp eq_refl).
  - unfold suppressed. cbn [Z.eqb Pos.eqb]. rewrite skipVS16_previousBase.
    unfold previousBase, getPreviousBaseCharStartIndex.
    destruct Hcase as [->|[[-> H0]|Hnul]].
    + reflexivity.
    + cbn [Z.leb Z.compare Z.sub Z.add Z.opp Z.pos_sub Pos.compare Pos.compare_cont].
      rewrite (codePointAt_not_high text 0 0xFE0F H0 eq_refl). reflexivity.
    + pose proof (charCodeAt_Some _ _ _ Hnul) as Hr.
      destruct (Z.leb_spec k 0) as [H|H]; [lia|].
      destruct (Z.leb_spec 0 (k - 1)) as [_|H']; [|lia].
      rewrite (codePointAt_not_high text (k - 1) 0 Hnul eq_refl).
      cbn [opt_eqb Z.eqb andb]. rewrite Hnul. cbn [opt_between Z.leb Z.compare andb].
      destruct (Z.eqb_spec (k - 1) (-1)) as [E|_]; [lia|].
      rewrite (codePointAt_not_high text (k - 1) 0 Hnul eq_refl). reflexivity.
  - apply not_absorbed_outside. unfold alphabetAt. rewrite Hk. reflexivity.
Qed.

Lemma vs16_without_base_reported_witness :
  exists f, In f (UCD.scan loneVS16) /\ index f = 0 /\
            codePoint f = 0xFE0F /\ category f = VARIATION_SELECTOR_CATEGORY /\
            message f = VARIATION_SELECTOR_MESSAGE /\ endFieldsAbsent f.
Proof.
  apply (vs16_without_base_reported UCD.isControlOrSeparator UCD.isEmojiComponent loneVS16 0).
  - reflexivity.
  - reflexivity.
  - left. reflexivity.
Defined.

(** X12: on a well-formed text, a ZWJ that is the first or the last unit of
    the text and is not covered by a qualifying run is reported whatever the
    engine's property tables say: it has nothing to join. *)
Theorem zwj_at_the_edge_reported (cz em : Z -> bool) (text : jsstring) (k : Z) :
  wellFormed text = true ->
  charCodeAt text k = Some 0x200D ->
  ~ absorbed text k ->
  k = 0 \/ k + 1 = length text ->
  exists f, In f (detectHiddenCharacters cz em text) /\ index f = k /\
            codePoint f = 0x200D /\ category f = ZERO_WIDTH_CATEGORY /\
            message f = ZERO_WIDTH_MESSAGE /\ endFieldsAbsent f.
Proof.
  intros Hwf Hk Hfree Hedge.
  destruct (keyAt_bmp text k 0x200D Hk eq_refl ltac:(lia)) as (Hcp & _).
  apply (unsuppressed_reported cz em text Hwf k 0x200D zeroWidthInfo Hcp eq_refl);
    [|exact Hfree].
  change (skipZWJ cz em text k = false). rewrite skipZWJ_eq.
  destruct Hedge as [->|Hlast].
  - reflexivity.
  - assert (E : codePointAt text (k + 1) = None).
    { unfold codePointAt.
      replace (charCodeAt text (k + 1)) with (@None Z); [reflexivity|].
      symmetry. apply charCodeAt_None. lia. }
    rewrite E. apply andb_false_r.
Qed.

Lemma zwj_at_the_edge_reported_witness :
  exists f, In f (UCD.scan leadingJoiner) /\ index f = 0 /\
            codePoint f = 0x200D /\ category f = ZERO_WIDTH_CATEGORY /\
            message f = ZERO_WIDTH_MESSAGE /\ endFieldsAbsent f.
Proof.
  apply (zwj_at_the_edge_reported UCD.isControlOrSeparator UCD.isEmojiComponent
           leadingJoiner 0).
  - reflexivity.
  - reflexivity.
  - apply (not_absorbed_short leadingJoiner 0 1 0).
    + apply maximalRunb_sound. reflexivity.
    + reflexivity.
    + lia.
  - left. reflexivity.
Defined.

(* ------------------------------------------------------------------------- *)
(** * The findings in the editor *)
(* ------------------------------------------------------------------------- *)



(** X14: [updateDiagnostics] sets one diagnostic per finding, in order, also
    for a finding with invalid coordinates; every diagnostic is a warning of
    source Hidden Character Detector whose range starts at non-negative
    coordinates and does not end before its start. *)
Theorem diagnostics_ordered (results : list HiddenCharacterInfo) :
  List.length (Editor.updateDiagnostics results) = List.length results /\
  Forall (fun d => Editor.orderedRange (Editor.d_range d) /\
                   Editor.d_severity d = Editor.Warning /\
                   Editor.d_source d = "Hidden Character Detector"%string)
         (Editor.updateDiagnostics results).
Proof.
  unfold Editor.updateDiagnostics. split; [apply length_map|].
  apply Forall_forall. intros d Hd. apply in_map_iff in Hd. destruct Hd as (info & <- & _).
  split; [apply EditorFacts.diagnosticOf_ordered|].
  unfold Editor.diagnosticOf.
  destruct (endLine info); [destruct (endColumn info)|];
    repeat match goal with
           | |- context [if ?b then _ else _] => destruct b
           end; split; reflexivity.
Qed.

Section ScanInEditor.

Variables cz em : Z -> bool.
Variable text : jsstring.

(** The two shapes of the findings of the scanner. *)
Lemma finding_shape (f : HiddenCharacterInfo) :
  In f (detectHiddenCharacters cz em text) ->
  1 <= line f /\ 0 <= column f /\
  ((endIndex f = None /\ endLine f = None /\ endColumn f = None /\
    In (category f) [ZERO_WIDTH_CATEGORY; BIDI_CONTROL_CATEGORY;
                     DEPRECATED_TAG_CATEGORY; VARIATION_SELECTOR_CATEGORY]) \/
   (exists e, endIndex f = Some e /\ endLine f = Some (line f) /\
              endColumn f = Some (column f + (e - index f)) /\
              index f + 7 <= e /\ category f = PATTERN_CATEGORY)).
Proof.
  intros Hf. destruct (coordinates_in_range cz em text f Hf) as (_ & Hl & Hc & Hend).
  split; [exact Hl|]. split; [lia|].
  destruct (finding_kind cz em text f Hf) as [[Hp Hlong]|[_ Hshort]].
  - right. destruct (pattern_finding_inv cz em text f Hf Hlong) as (_ & _ & He & _).
    eexists. split; [exact He|]. destruct (Hend _ He) as (Hr & Hel & Hec).
    split; [exact Hel|]. split; [exact Hec|]. split; [lia|exact Hp].
  - left. destruct (single_finding_inv cz em text f Hf Hshort)
      as (cp & info & ln & col & _ & Hinfo & _ & E).
    rewrite E. cbn [endIndex endLine endColumn category singleFinding].
    repeat split.
    destruct (registry_info _ _ Hinfo) as [ -> | [ -> | [ -> | -> ] ] ]; simpl; auto.
Qed.

Lemma scan_highlightOf (f : HiddenCharacterInfo) :
  In f (detectHiddenCharacters cz em text) ->
  exists o, Editor.highlightOf f = Some o /\
            Editor.range o = Editor.rangeOfFinding f /\
            Editor.lastGutterLine f = line f - 1 /\
            Editor.properRange (Editor.rangeOfFinding f).
Proof.
  intros Hf. destruct (finding_shape f Hf) as (Hl & Hc & Hshape).
  unfold Editor.highlightOf, Editor.rangeOfFinding, Editor.lastGutterLine,
    Editor.properRange.
  destruct (Z.ltb_spec (line f - 1) 0) as [H1|H1]; [lia|].
  destruct (Z.ltb_spec (column f) 0) as [H2|H2]; [lia|]. cbn [orb].
  destruct Hshape as [(E1 & E2 & E3 & _)|(e & E1 & E2 & E3 & He & _)];
    rewrite ?E1, ?E2, ?E3.
  - eexists. split; [reflexivity|]. cbn. repeat split; lia.
  - destruct (Z.ltb_spec (line f - 1) (line f - 1)) as [H3|H3]; [lia|].
    rewrite Z.eqb_refl.
    destruct (Z.ltb_spec (column f + (e - index f)) (column f)) as [H4|H4]; [lia|].
    cbn [orb andb]. eexists. split; [reflexivity|]. cbn.
    repeat split; try lia. f_equal. lia.
Qed.

Lemma scan_diagnosticOf (f : HiddenCharacterInfo) :
  In f (detectHiddenCharacters cz em text) ->
  Editor.d_range (Editor.diagnosticOf f) = Editor.rangeOfFinding f /\
  In (Editor.d_code (Editor.diagnosticOf f)) Editor.diagnosticCodes.
Proof.
  intros Hf. destruct (finding_shape f Hf) as (Hl & Hc & Hshape).
  unfold Editor.diagnosticOf, Editor.rangeOfFinding.
  destruct (Z.ltb_spec (line f - 1) 0) as [H1|H1]; [lia|].
  destruct (Z.ltb_spec (column f) 0) as [H2|H2]; [lia|]. cbn [orb].
  destruct Hshape as [(E1 & E2 & E3 & Hcat)|(e & E1 & E2 & E3 & He & Hcat)];
    rewrite ?E1, ?E2, ?E3.
  - cbn [Editor.d_range Editor.d_code]. split; [reflexivity|].
    destruct Hcat as [<-|[<-|[<-|[<-|[]]]]]; vm_compute; auto.
  - destruct (Z.ltb_spec (line f - 1) (line f - 1)) as [H3|H3]; [lia|].
    rewrite Z.eqb_refl.
    destruct (Z.ltb_spec (column f + (e - index f)) (column f)) as [H4|H4]; [lia|].
    cbn [orb andb Editor.d_range Editor.d_code]. split; [f_equal; lia|].
    rewrite Hcat. vm_compute. auto 10.
Qed.

(** The message of the diagnostic of a finding of the scanner is the one of
    the branch for valid coordinates. *)
Lemma scan_diagnostic_message (f : HiddenCharacterInfo) :
  In f (detectHiddenCharacters cz em text) ->
  Editor.d_message (Editor.diagnosticOf f) = Editor.messageOfFinding f.
Proof.
  intros Hf. destruct (finding_shape f Hf) as (Hl & Hc & Hshape).
  unfold Editor.diagnosticOf, Editor.messageOfFinding.
  destruct (Z.ltb_spec (line f - 1) 0) as [H1|H1]; [lia|].
  destruct (Z.ltb_spec (column f) 0) as [H2|H2]; [lia|]. cbn [orb].
  destruct Hshape as [(E1 & E2 & E3 & _)|(e & E1 & E2 & E3 & He & _)];
    rewrite ?E1, ?E2, ?E3.
  - cbn [Editor.d_message]. unfold Editor.charDisplay.
    destruct (single_finding_sound cz em text f Hf E1) as (_ & Hclass & _).
    apply classifyByRange_positive in Hclass.
    destruct (Z.ltb_spec 0 (codePoint f)) as [_|Hle]; [reflexivity|lia].
  - destruct (Z.ltb_spec (line f - 1) (line f - 1)) as [H3|H3]; [lia|].
    rewrite Z.eqb_refl.
    destruct (Z.ltb_spec (column f + (e - index f)) (column f)) as [H4|H4]; [lia|].
    reflexivity.
Qed.

Lemma scan_highlightsOf (fs : list HiddenCharacterInfo) :
  (forall f, In f fs -> In f (detectHiddenCharacters cz em text)) ->
  map Editor.range (Editor.highlightsOf fs) = map Editor.rangeOfFinding fs.
Proof.
  induction fs as [|f fs IH]; intros Hsub; [reflexivity|].
  unfold Editor.highlightsOf in *. cbn [flat_map map].
  destruct (scan_highlightOf f (Hsub f (or_introl eq_refl))) as (o & -> & Ho & _).
  cbn [app map]. rewrite Ho, IH; [reflexivity|]. intros g Hg. apply Hsub. right. exact Hg.
Qed.

End ScanInEditor.

(** X15: given the findings of a scan, [applyDecorations] drops none of
    them: there is one highlight per finding, in order, on the line of the
    finding (zero-based), from its column, one unit wide for a
    single-character finding and as wide as the span for a pattern finding;
    each of these ranges starts at non-negative coordinates strictly before
    its end; and the gutter lines are the lines of the findings, each once. *)
Theorem scan_highlights (cz em : Z -> bool) (text : jsstring) :
  exists highlights lines,
    Editor.applyDecorations true (detectHiddenCharacters cz em text)
    = Some (highlights, map Editor.gutterOf lines) /\
    map Editor.range highlights
    = map Editor.rangeOfFinding (detectHiddenCharacters cz em text) /\
    Forall (fun f => Editor.properRange (Editor.rangeOfFinding f))
           (detectHiddenCharacters cz em text) /\
    NoDup lines /\
    (forall l, In l lines <->
               exists f, In f (detectHiddenCharacters cz em text) /\ l = line f - 1).
Proof.
  unfold Editor.applyDecorations. cbn [negb].
  destruct (EditorFacts.fold_decorateOne (detectHiddenCharacters cz em text) ([], []))
    as (H1 & H2 & H3).
  destruct (fold_left Editor.decorateOne (detectHiddenCharacters cz em text) ([], []))
    as [hl lines].
  cbn [fst snd app] in *. exists hl, lines. split; [reflexivity|]. subst hl.
  split; [apply (scan_highlightsOf cz em text); auto|].
  split.
  { apply Forall_forall. intros f Hf.
    destruct (scan_highlightOf cz em text f Hf) as (o & _ & _ & _ & Hp). exact Hp. }
  split; [apply H2; constructor|].
  intros l. rewrite H3. split.
  - intros [[]|(f & Hf & _ & Hl)]. exists f. split; [exact Hf|].
    destruct (scan_highlightOf cz em text f Hf) as (o & _ & _ & Hlast & _). lia.
  - intros (f & Hf & ->). right. exists f. split; [exact Hf|].
    destruct (scan_highlightOf cz em text f Hf) as (o & Ho & _ & Hlast & _).
    split; [congruence|lia].
Qed.

(** X16: given the findings of a scan, [updateDiagnostics] never takes its
    invalid-range fallback: the range of each diagnostic is the range of the
    highlight of the same finding; its message is the one of the branch for
    valid coordinates, Hidden Pattern: category - message for a pattern
    finding and Hidden Character: category (character / U+hex) - message for
    a single-character finding, never the one that reports an invalid range;
    and the code of each diagnostic is one of hidden-zero-width,
    hidden-bidirectional-control, hidden-deprecated-tag,
    hidden-variation-selector and hidden-binaryencodingpattern-pattern. *)
Theorem scan_diagnostics (cz em : Z -> bool) (text : jsstring) :
  map (fun d => (Editor.d_range d, Editor.d_message d))
      (Editor.updateDiagnostics (detectHiddenCharacters cz em text))
  = map (fun f => (Editor.rangeOfFinding f, Editor.messageOfFinding f))
        (detectHiddenCharacters cz em text) /\
  Forall (fun d => In (Editor.d_code d) Editor.diagnosticCodes)
         (Editor.updateDiagnostics (detectHiddenCharacters cz em text)).
Proof.
  unfold Editor.updateDiagnostics. split.
  - rewrite map_map. apply map_ext_in. intros f Hf. f_equal.
    + apply (scan_diagnosticOf cz em text f Hf).
    + apply (scan_diagnostic_message cz em text f Hf).
  - apply Forall_forall. intros d Hd. apply in_map_iff in Hd.
    destruct Hd as (f & <- & Hf). apply (scan_diagnosticOf cz em text f Hf).
Qed.

Example decorations_of_second_line :
  option_map (fun r => (map Editor.range (fst r), map Editor.range (snd r)))
    (Editor.applyDecorations true (UCD.scan secondLine))
  = Some ([ {| Editor.startLine := 1; Editor.startCharacter := 0;
               Editor.stopLine := 1; Editor.stopCharacter := 8 |};
            {| Editor.startLine := 1; Editor.startCharacter := 8;
               Editor.stopLine := 1; Editor.stopCharacter := 9 |} ],
          [ {| Editor.startLine := 1; Editor.startCharacter := 0;
               Editor.stopLine := 1; Editor.stopCharacter := 0 |} ]).
Proof. vm_compute. reflexivity. Qed.

Example diagnostics_of_second_line :
  map (fun d => (Editor.d_message d, Editor.d_code d))
    (Editor.updateDiagnostics (UCD.scan secondLine))
  = [ ("Hidden Pattern: BinaryEncodingPattern - Potential binary encoding detected using a sequence of 8 zero-width characters.",
       "hidden-binaryencodingpattern-pattern");
      ("Hidden Character: Bidirectional Control (U+202E / U+202E) - Bidirectional control character; can alter text display order, potentially obfuscating logic.",
       "hidden-bidirectional-control") ]%string.
Proof. vm_compute. reflexivity. Qed.
